(** * calbot: the streaming tool-use agent loop

    A shallow embedding of the calendar agent's core:
    - [date-format.ts]: the DateTime normalizer ([parseStringDate],
      [formatDateTimeForGoogle], [normalizeDateTime],
      [isValidGoogleDateTimeFormat]);
    - [google-tools.ts]: the calendar operations and the two local interval
      computations ([checkForConflicts], [findFreeTimeSlots]);
    - [tools.ts]: the validators, [formatGoogleApiError] and the dispatcher
      [handleToolCall];
    - [agent.ts]: the streaming delta aggregator inside [LLM.call].

    JavaScript strings are modelled as [string] (code units 0..255), numbers
    that are times as [Z] milliseconds since the epoch with [None] for NaN,
    and the [Date] builtin by the time-value algebra of ECMA-262 (21.4.1). *)

From Stdlib Require Import ZArith List String Ascii Bool Lia QArith Qround.
From Stdlib Require Import DecimalString DecimalNat.
From Stdlib Require Import Sorting.Sorted Sorting.Permutation.
Import ListNotations.

#[local] Set Warnings "-register-all".
#[local] Close Scope Q_scope.
#[local] Open Scope string_scope.
#[local] Open Scope Z_scope.

(** ** ECMA-262 time values *)

Module JSDate.

Definition msPerDay : Z := 86400000.
Definition msPerHour : Z := 3600000.
Definition msPerMinute : Z := 60000.
Definition msPerSecond : Z := 1000.

Definition Day (t : Z) : Z := t / msPerDay.
Definition TimeWithinDay (t : Z) : Z := t mod msPerDay.

Definition isLeap (y : Z) : bool :=
  ((y mod 4 =? 0) && negb (y mod 100 =? 0)) || (y mod 400 =? 0).

Definition DaysInYear (y : Z) : Z := if isLeap y then 366 else 365.

Definition DayFromYear (y : Z) : Z :=
  365 * (y - 1970) + (y - 1969) / 4 - (y - 1901) / 100 + (y - 1601) / 400.

Definition TimeFromYear (y : Z) : Z := msPerDay * DayFromYear y.

(** [YearFromTime t] is the largest [y] with [TimeFromYear y <= t]; it is
    computed from an estimate that is off by at most one year. *)
Definition YearFromDay (d : Z) : Z :=
  let y := 1970 + (400 * d) / 146097 in
  if d <? DayFromYear y then y - 1
  else if DayFromYear (y + 1) <=? d then y + 1
  else y.

Definition YearFromTime (t : Z) : Z := YearFromDay (Day t).

(** 1 in a leap year, otherwise 0. *)
Definition leapOf (y : Z) : Z := if isLeap y then 1 else 0.

Definition InLeapYear (t : Z) : Z := leapOf (YearFromTime t).

Definition DayWithinYear (t : Z) : Z := Day t - DayFromYear (YearFromTime t).

(** Number of days of the year that precede month [m] (0-based). *)
Definition monthStart (leap : Z) (m : Z) : Z :=
  if m <=? 0 then 0
  else if m =? 1 then 31
  else if m =? 2 then 59 + leap
  else if m =? 3 then 90 + leap
  else if m =? 4 then 120 + leap
  else if m =? 5 then 151 + leap
  else if m =? 6 then 181 + leap
  else if m =? 7 then 212 + leap
  else if m =? 8 then 243 + leap
  else if m =? 9 then 273 + leap
  else if m =? 10 then 304 + leap
  else if m =? 11 then 334 + leap
  else 365 + leap.

Definition monthOfDay (leap : Z) (d : Z) : Z :=
  if d <? 31 then 0
  else if d <? 59 + leap then 1
  else if d <? 90 + leap then 2
  else if d <? 120 + leap then 3
  else if d <? 151 + leap then 4
  else if d <? 181 + leap then 5
  else if d <? 212 + leap then 6
  else if d <? 243 + leap then 7
  else if d <? 273 + leap then 8
  else if d <? 304 + leap then 9
  else if d <? 334 + leap then 10
  else 11.

Definition MonthFromTime (t : Z) : Z :=
  monthOfDay (InLeapYear t) (DayWithinYear t).

Definition DateFromTime (t : Z) : Z :=
  DayWithinYear t - monthStart (InLeapYear t) (MonthFromTime t) + 1.

Definition HourFromTime (t : Z) : Z := (t / msPerHour) mod 24.
Definition MinFromTime (t : Z) : Z := (t / msPerMinute) mod 60.
Definition SecFromTime (t : Z) : Z := (t / msPerSecond) mod 60.
Definition msFromTime (t : Z) : Z := t mod msPerSecond.

Definition MakeTime (hour min sec ms : Z) : Z :=
  hour * msPerHour + min * msPerMinute + sec * msPerSecond + ms.

(** [MakeDay year month date], with [month] 0-based and possibly out of
    0..11 (the overflow carries into the year). *)
Definition MakeDay (year month date : Z) : Z :=
  let ym := year + month / 12 in
  let mn := month mod 12 in
  DayFromYear ym + monthStart (leapOf ym) mn + date - 1.

Definition MakeDate (day time : Z) : Z := day * msPerDay + time.

Definition maxTime : Z := 8640000000000000.

(** [TimeClip]: a time value beyond +-8.64e15 ms is NaN. *)
Definition TimeClip (t : Z) : option Z :=
  if Z.abs t <=? maxTime then Some t else None.

Definition DaysInMonth (y m : Z) : Z :=
  monthStart (leapOf y) (m + 1) - monthStart (leapOf y) m.

(** *** Decimal fields *)

Definition isDigit (c : ascii) : bool :=
  let n := Z.of_nat (nat_of_ascii c) in (48 <=? n) && (n <=? 57).

Definition digitVal (c : ascii) : Z := Z.of_nat (nat_of_ascii c) - 48.

Definition digitChar (d : Z) : ascii := ascii_of_nat (Z.to_nat (48 + d)).

(** Value of a run of decimal digits, most significant first. *)
Fixpoint digitsValueFrom (acc : Z) (s : string) : Z :=
  match s with
  | EmptyString => acc
  | String c r => digitsValueFrom (10 * acc + digitVal c) r
  end.

Definition digitsValue (s : string) : Z := digitsValueFrom 0 s.

(** [pad w n]: the [w] low decimal digits of [n], zero padded. *)
Fixpoint pad (w : nat) (n : Z) : string :=
  match w with
  | O => EmptyString
  | S w' => pad w' (n / 10) ++ String (digitChar (n mod 10)) EmptyString
  end.

(** [takeDigits n s]: the [n] leading characters of [s] when they are all
    digits, with the rest of [s]. *)
Fixpoint takeDigits (n : nat) (s : string) : option (string * string) :=
  match n with
  | O => Some (EmptyString, s)
  | S n' =>
      match s with
      | String c r =>
          if isDigit c then
            match takeDigits n' r with
            | Some (ds, rest) => Some (String c ds, rest)
            | None => None
            end
          else None
      | EmptyString => None
      end
  end.

(** Strings made of decimal digits only. *)
Fixpoint allDigits (s : string) : bool :=
  match s with
  | EmptyString => true
  | String c r => isDigit c && allDigits r
  end.

Definition expect (c : ascii) (s : string) : option string :=
  match s with
  | String c' r => if Ascii.eqb c c' then Some r else None
  | EmptyString => None
  end.

(** *** Date.prototype.toISOString *)

Definition yearString (y : Z) : string :=
  if (0 <=? y) && (y <=? 9999) then pad 4 y
  else (if y <? 0 then "-" else "+") ++ pad 6 (Z.abs y).

Definition toISOString (t : Z) : string :=
  yearString (YearFromTime t) ++ "-" ++ pad 2 (MonthFromTime t + 1) ++ "-"
  ++ pad 2 (DateFromTime t) ++ "T" ++ pad 2 (HourFromTime t) ++ ":"
  ++ pad 2 (MinFromTime t) ++ ":" ++ pad 2 (SecFromTime t) ++ "."
  ++ pad 3 (msFromTime t) ++ "Z".

(** *** The ISO 8601 subset of Date.parse *)

Inductive IsoZone : Type :=
  | ZoneNone
  | ZoneZ
  | ZoneOffset (negative : bool) (hh mm : Z).

Record IsoDateTime : Type := mkIso {
  iso_year : Z;
  iso_month : Z;
  iso_day : Z;
  iso_hour : Z;
  iso_minute : Z;
  iso_second : Z;
  iso_frac : option Z;
  iso_zone : IsoZone
}.

(** The year of an ISO string: four digits, or a sign and six digits
    (never "-000000"). *)
Definition parseYear (s : string) : option (Z * string) :=
  match s with
  | String c r =>
      if Ascii.eqb c "+" then
        match takeDigits 6 r with
        | Some (ds, rest) => Some (digitsValue ds, rest)
        | None => None
        end
      else if Ascii.eqb c "-" then
        match takeDigits 6 r with
        | Some (ds, rest) =>
            if digitsValue ds =? 0 then None else Some (- digitsValue ds, rest)
        | None => None
        end
      else
        match takeDigits 4 s with
        | Some (ds, rest) => Some (digitsValue ds, rest)
        | None => None
        end
  | EmptyString => None
  end.

Definition parseZone (s : string) : option IsoZone :=
  match s with
  | EmptyString => Some ZoneNone
  | String c r =>
      if Ascii.eqb c "Z" then
        match r with EmptyString => Some ZoneZ | _ => None end
      else if Ascii.eqb c "+" || Ascii.eqb c "-" then
        match takeDigits 2 r with
        | Some (hh, r1) =>
            match expect ":" r1 with
            | Some r2 =>
                match takeDigits 2 r2 with
                | Some (mm, EmptyString) =>
                    Some (ZoneOffset (Ascii.eqb c "-")
                            (digitsValue hh) (digitsValue mm))
                | _ => None
                end
            | None => None
            end
        | None => None
        end
      else None
  end.

Definition parseFrac (s : string) : option (option Z * string) :=
  match s with
  | String c r =>
      if Ascii.eqb c "." then
        match takeDigits 3 r with
        | Some (ds, rest) => Some (Some (digitsValue ds), rest)
        | None => None
        end
      else Some (None, s)
  | EmptyString => Some (None, s)
  end.

(** The date part [Y-MM-DD] with the rest of the string. *)
Definition parseYMD (s : string) : option (Z * Z * Z * string) :=
  match parseYear s with
  | Some (y, r0) =>
    match expect "-" r0 with
    | Some r1 =>
      match takeDigits 2 r1 with
      | Some (mo, r2) =>
        match expect "-" r2 with
        | Some r3 =>
          match takeDigits 2 r3 with
          | Some (d, r4) => Some (y, digitsValue mo, digitsValue d, r4)
          | None => None
          end
        | None => None
        end
      | None => None
      end
    | None => None
    end
  | None => None
  end.

(** The time part [HH:mm:ss[.sss]] with the rest of the string. *)
Definition parseHMS (s : string) : option (Z * Z * Z * option Z * string) :=
  match takeDigits 2 s with
  | Some (h, r1) =>
    match expect ":" r1 with
    | Some r2 =>
      match takeDigits 2 r2 with
      | Some (mi, r3) =>
        match expect ":" r3 with
        | Some r4 =>
          match takeDigits 2 r4 with
          | Some (sec, r5) =>
            match parseFrac r5 with
            | Some (fr, r6) =>
                Some (digitsValue h, digitsValue mi, digitsValue sec, fr, r6)
            | None => None
            end
          | None => None
          end
        | None => None
        end
      | None => None
      end
    | None => None
    end
  | None => None
  end.

(** [Y-MM-DDTHH:mm:ss[.sss][Z|+-HH:mm]]. *)
Definition parseISODateTime (s : string) : option IsoDateTime :=
  match parseYMD s with
  | Some (y, mo, d, r) =>
    match expect "T" r with
    | Some r1 =>
      match parseHMS r1 with
      | Some (h, mi, sec, fr, r2) =>
        match parseZone r2 with
        | Some z => Some (mkIso y mo d h mi sec fr z)
        | None => None
        end
      | None => None
      end
    | None => None
    end
  | None => None
  end.

(** The date-only form [Y-MM-DD]. *)
Definition parseISODate (s : string) : option (Z * Z * Z) :=
  match parseYMD s with
  | Some (y, mo, d, EmptyString) => Some (y, mo, d)
  | _ => None
  end.

Definition validDate (y mo d : Z) : bool :=
  (1 <=? mo) && (mo <=? 12) && (1 <=? d) && (d <=? DaysInMonth y (mo - 1)).

Definition validZone (z : IsoZone) : bool :=
  match z with
  | ZoneOffset _ hh mm => (hh <=? 23) && (mm <=? 59)
  | _ => true
  end.

(** Field ranges of ECMA-262 21.4.1.32 (hour 24 is left to the host). *)
Definition validIso (f : IsoDateTime) : bool :=
  validDate (iso_year f) (iso_month f) (iso_day f)
  && (iso_hour f <=? 23) && (iso_minute f <=? 59) && (iso_second f <=? 59)
  && validZone (iso_zone f).

(** The host: its time zone, its clock (the successive readings of
    [new Date()]), what [Date.parse] does outside the ISO subset modelled
    here (implementation-defined in ECMA-262), and how it prints a number
    that is not an integer. *)
Record Host : Type := mkHost {
  LocalTZA : Z -> bool -> Z;
  legacyParse : string -> option Z;
  clock : nat -> Z;
  timeZoneName : string;
  numberToString : Q -> string
}.

Definition LocalTime (h : Host) (t : Z) : Z := t + LocalTZA h t true.
Definition UTC (h : Host) (t : Z) : Z := t - LocalTZA h t false.

Definition isoLocalValue (f : IsoDateTime) : Z :=
  MakeDate (MakeDay (iso_year f) (iso_month f - 1) (iso_day f))
    (MakeTime (iso_hour f) (iso_minute f) (iso_second f)
       (match iso_frac f with Some ms => ms | None => 0 end)).

Definition isoTimeValue (h : Host) (f : IsoDateTime) : Z :=
  let v := isoLocalValue f in
  match iso_zone f with
  | ZoneNone => UTC h v
  | ZoneZ => v
  | ZoneOffset neg hh mm =>
      let off := (hh * 60 + mm) * msPerMinute in
      if neg then v + off else v - off
  end.

(** [new Date(n)] for a time value [n] that may be NaN. *)
Definition TimeClipO (n : option Z) : option Z :=
  match n with Some t => TimeClip t | None => None end.

(** The time value that parsing a string yields. *)
Definition parseValue (h : Host) (s : string) : option Z :=
  match parseISODateTime s with
  | Some f => if validIso f then Some (isoTimeValue h f) else legacyParse h s
  | None =>
      match parseISODate s with
      | Some (y, mo, d) =>
          if validDate y mo d then Some (MakeDate (MakeDay y (mo - 1) d) 0)
          else legacyParse h s
      | None => legacyParse h s
      end
  end.

(** [new Date(string)]: the parsed time value, clipped; [None] is the
    invalid date. *)
Definition parse (h : Host) (s : string) : option Z :=
  TimeClipO (parseValue h s).

(** [new Date(year, monthIndex, day, hours, minutes, seconds)]. *)
Definition fromComponents (h : Host) (y m d hh mi ss : Z) : option Z :=
  let yr := if (0 <=? y) && (y <=? 99) then 1900 + y else y in
  TimeClip (UTC h (MakeDate (MakeDay yr m d) (MakeTime hh mi ss 0))).

Definition getDate (h : Host) (t : Z) : Z := DateFromTime (LocalTime h t).
Definition getHours (h : Host) (t : Z) : Z := HourFromTime (LocalTime h t).
Definition getMinutes (h : Host) (t : Z) : Z := MinFromTime (LocalTime h t).
Definition getMonth (h : Host) (t : Z) : Z := MonthFromTime (LocalTime h t).
Definition getFullYear (h : Host) (t : Z) : Z := YearFromTime (LocalTime h t).

Definition setDate (h : Host) (t dt : Z) : option Z :=
  let l := LocalTime h t in
  TimeClip (UTC h (MakeDate (MakeDay (YearFromTime l) (MonthFromTime l) dt)
                     (TimeWithinDay l))).

Definition setHours (h : Host) (t hour : Z) : option Z :=
  let l := LocalTime h t in
  TimeClip (UTC h (MakeDate (Day l)
                     (MakeTime hour (MinFromTime l) (SecFromTime l)
                        (msFromTime l)))).

Definition setMinutes (h : Host) (t min : Z) : option Z :=
  let l := LocalTime h t in
  TimeClip (UTC h (MakeDate (Day l)
                     (MakeTime (HourFromTime l) min (SecFromTime l)
                        (msFromTime l)))).

End JSDate.

(** ** JavaScript values and thrown errors *)

Module JS.

(** Values that tool arguments, request bodies and service responses are
    made of.  Numbers are the rationals (no NaN or infinities: JSON text
    cannot denote them). *)
Inductive JSVal : Type :=
  | JUndefined
  | JNull
  | JBool (b : bool)
  | JNumber (q : Q)
  | JString (s : string)
  | JArray (items : list JSVal)
  | JObject (fields : list (string * JSVal)).

Definition numZ (z : Z) : JSVal := JNumber (inject_Z z).

(** ToBoolean. *)
Definition truthy (v : JSVal) : bool :=
  match v with
  | JUndefined | JNull => false
  | JBool b => b
  | JNumber q => negb (Qeq_bool q 0)
  | JString s => negb (String.eqb s EmptyString)
  | JArray _ | JObject _ => true
  end.

Definition nullish (v : JSVal) : bool :=
  match v with JUndefined | JNull => true | _ => false end.

(** [a || b]. *)
Definition orElse (a b : JSVal) : JSVal := if truthy a then a else b.

Definition typeof (v : JSVal) : string :=
  match v with
  | JUndefined => "undefined"
  | JNull => "object"
  | JBool _ => "boolean"
  | JNumber _ => "number"
  | JString _ => "string"
  | JArray _ | JObject _ => "object"
  end.

Fixpoint lookup (k : string) (fields : list (string * JSVal)) : JSVal :=
  match fields with
  | [] => JUndefined
  | (k', v) :: rest => if String.eqb k k' then v else lookup k rest
  end.

Fixpoint hasKey (k : string) (fields : list (string * JSVal)) : bool :=
  match fields with
  | [] => false
  | (k', _) :: rest => String.eqb k k' || hasKey k rest
  end.

(** [o[k] = v] on the property list of an object. *)
Fixpoint setField (k : string) (v : JSVal) (fields : list (string * JSVal))
  : list (string * JSVal) :=
  match fields with
  | [] => [(k, v)]
  | (k', v') :: rest =>
      if String.eqb k k' then (k, v) :: rest
      else (k', v') :: setField k v rest
  end.

Fixpoint removeField (k : string) (fields : list (string * JSVal))
  : list (string * JSVal) :=
  match fields with
  | [] => []
  | (k', v') :: rest =>
      if String.eqb k k' then removeField k rest
      else (k', v') :: removeField k rest
  end.

(** [{...a, ...b}] on property lists: the properties of [b] are written
    over those of [a]. *)
Definition assign (a b : list (string * JSVal)) : list (string * JSVal) :=
  fold_left (fun acc kv => setField (fst kv) (snd kv) acc) b a.

Definition natString (n : nat) : string :=
  NilZero.string_of_uint (Nat.to_uint n).

Definition intString (z : Z) : string :=
  NilZero.string_of_int (Z.to_int z).

Fixpoint indexed {A : Type} (i : nat) (l : list A) : list (string * A) :=
  match l with
  | [] => []
  | x :: r => (natString i, x) :: indexed (S i) r
  end.

Definition chars (s : string) : list JSVal :=
  map (fun c => JString (String c EmptyString)) (list_ascii_of_string s).

(** The own enumerable properties copied by an object spread or a rest
    pattern. *)
Definition ownProps (v : JSVal) : list (string * JSVal) :=
  match v with
  | JObject fields => fields
  | JArray items => indexed 0 items
  | JString s => indexed 0 (chars s)
  | _ => []
  end.

(** Optional chaining [v?.k], and [v.k] on a value known not to be nullish.
    The only keys read in this program are fixed property names (never an
    index or [length]), so a primitive or an array yields [undefined]. *)
Definition prop (v : JSVal) (k : string) : JSVal :=
  match v with
  | JObject fields => lookup k fields
  | _ => JUndefined
  end.

(** Number.isInteger. *)
Definition isInteger (v : JSVal) : bool :=
  match v with
  | JNumber q => Z.eqb (Z.pos (Qden (Qred q))) 1
  | _ => false
  end.

(** *** Thrown errors *)

Inductive ErrCode : Type :=
  | CodeNum (n : Z)
  | CodeStr (s : string).

Definition codeTruthy (c : option ErrCode) : bool :=
  match c with
  | Some (CodeNum n) => negb (n =? 0)
  | Some (CodeStr s) => negb (String.eqb s EmptyString)
  | None => false
  end.

Definition codeIs (c : option ErrCode) (n : Z) : bool :=
  match c with
  | Some (CodeNum m) => m =? n
  | _ => false
  end.

Record ErrorItem : Type := mkItem {
  item_message : option string;
  item_reason : option string
}.

(** The properties that [formatGoogleApiError] reads off an error payload. *)
Record ErrorDetails : Type := mkDetails {
  det_message : option string;
  det_error_description : option string;
  det_code : option ErrCode;
  det_status : option ErrCode;
  det_errors : option (list ErrorItem)
}.

(** [response.data]: its [error] member, and its own properties. *)
Record ResponseData : Type := mkData {
  data_error : option ErrorDetails;
  data_self : ErrorDetails
}.

Record Response : Type := mkResponse {
  resp_data : option ResponseData
}.

(** A thrown [Error] object.  Thrown values are [Error] objects whose
    members have the types that the libraries declare for them: [message],
    [error_description] and [reason] are strings when present, [code] and
    [status] numbers or strings, [errors] an array; [err_ctor] is
    [constructor.name]. *)
Record JSError : Type := mkError {
  err_ctor : string;
  err_name : string;
  err_self : ErrorDetails;
  err_cause : option ErrorDetails;
  err_response : option Response
}.

Definition noDetails : ErrorDetails := mkDetails None None None None None.

Definition err_message (e : JSError) : string :=
  match det_message (err_self e) with Some m => m | None => EmptyString end.

(** [new Error(msg)]. *)
Definition newError (msg : string) : JSError :=
  mkError "Error" "Error" (mkDetails (Some msg) None None None None) None None.

Definition newTypeError (msg : string) : JSError :=
  mkError "TypeError" "TypeError"
    (mkDetails (Some msg) None None None None) None None.

Definition newRangeError (msg : string) : JSError :=
  mkError "RangeError" "RangeError"
    (mkDetails (Some msg) None None None None) None None.

(** Error.prototype.toString, as used by a template literal. *)
Definition errorToString (e : JSError) : string :=
  let n := err_name e in
  let m := err_message e in
  if String.eqb m EmptyString then n
  else if String.eqb n EmptyString then m
  else n ++ ": " ++ m.

(** [s.includes(sub)]. *)
Fixpoint includes (sub s : string) : bool :=
  String.prefix sub s ||
  match s with
  | EmptyString => false
  | String _ r => includes sub r
  end.

Definition lowerChar (c : ascii) : ascii :=
  let n := nat_of_ascii c in
  if (Nat.leb 65 n && Nat.leb n 90)%bool then ascii_of_nat (n + 32) else c.

Definition upperChar (c : ascii) : ascii :=
  let n := nat_of_ascii c in
  if (Nat.leb 97 n && Nat.leb n 122)%bool then ascii_of_nat (n - 32) else c.

Fixpoint toLowerCase (s : string) : string :=
  match s with
  | EmptyString => EmptyString
  | String c r => String (lowerChar c) (toLowerCase r)
  end.

Fixpoint toUpperCase (s : string) : string :=
  match s with
  | EmptyString => EmptyString
  | String c r => String (upperChar c) (toUpperCase r)
  end.

(** White space and line terminators of [String.prototype.trim] and of the
    regular-expression class [\s], among the code units 0..255. *)
Definition isSpace (c : ascii) : bool :=
  let n := nat_of_ascii c in
  (Nat.leb 9 n && Nat.leb n 13) || Nat.eqb n 32 || Nat.eqb n 160.

Fixpoint trimStart (s : string) : string :=
  match s with
  | String c r => if isSpace c then trimStart r else s
  | EmptyString => EmptyString
  end.

Fixpoint trimEnd (s : string) : string :=
  match s with
  | EmptyString => EmptyString
  | String c r =>
      match trimEnd r with
      | EmptyString => if isSpace c then EmptyString else String c EmptyString
      | r' => String c r'
      end
  end.

Definition trim (s : string) : string := trimEnd (trimStart s).

End JS.

(** ** Effects: the clock, the shell and the calendar service *)

Module Effects.
Import JS.

(** What leaves the process: a shell command, or one operation of the
    calendar service with the parameters of the request. *)
Inductive BackendCall : Type :=
  | CallBash (command : JSVal)
  | CallEventsList (params : list (string * JSVal))
  | CallEventsInsert (params : list (string * JSVal))
  | CallEventsUpdate (params : list (string * JSVal))
  | CallEventsDelete (params : list (string * JSVal))
  | CallCalendarList (params : list (string * JSVal)).

(** The collaborators: each answers a request with a value or by throwing. *)
Record Backend : Type := mkBackend {
  shell : JSVal -> JSError + string;
  service : BackendCall -> JSError + JSVal
}.

Record World : Type := mkWorld {
  tick : nat;
  trace : list BackendCall
}.

Definition Eff (A : Type) : Type := World -> (JSError + A) * World.

Definition ret {A : Type} (x : A) : Eff A := fun w => (inr x, w).

Definition throw {A : Type} (e : JSError) : Eff A := fun w => (inl e, w).

Definition bind {A B : Type} (c : Eff A) (k : A -> Eff B) : Eff B :=
  fun w =>
    match c w with
    | (inr x, w') => k x w'
    | (inl e, w') => (inl e, w')
    end.

(** [try { c } catch (error) { handler(error) }]. *)
Definition tryCatch {A : Type} (c : Eff A) (handler : JSError -> Eff A)
  : Eff A :=
  fun w =>
    match c w with
    | (inr x, w') => (inr x, w')
    | (inl e, w') => handler e w'
    end.

Definition lift {A : Type} (r : JSError + A) : Eff A := fun w => (r, w).

(** [new Date()]: the next reading of the clock. *)
Definition newDate (h : JSDate.Host) : Eff Z :=
  fun w => (inr (JSDate.clock h (tick w)), mkWorld (S (tick w)) (trace w)).

Definition callService (b : Backend) (c : BackendCall) : Eff JSVal :=
  fun w => (service b c, mkWorld (tick w) (trace w ++ [c])).

Definition callShell (b : Backend) (command : JSVal) : Eff string :=
  fun w => (shell b command, mkWorld (tick w) (trace w ++ [CallBash command])).

Definition when (c : bool) (body : Eff unit) : Eff unit :=
  if c then body else ret tt.

End Effects.

Declare Scope eff_scope.
Delimit Scope eff_scope with eff.
Notation "x <- c ;; k" := (Effects.bind c (fun x => k))
  (at level 61, c at next level, right associativity) : eff_scope.
Notation "c ;;; k" := (Effects.bind c (fun _ => k))
  (at level 61, right associativity) : eff_scope.
Notation "'let?' x ':=' e 'in' k" :=
  (match e with Some x => k | None => None end)
  (at level 10, x pattern, e at level 100, k at level 200).

(** ** date-format.ts *)

Module DateFormat.
Import JS JSDate Effects.

(** Template-literal conversion of a value to a string. *)
Fixpoint toStr (h : Host) (v : JSVal) : string :=
  match v with
  | JUndefined => "undefined"
  | JNull => "null"
  | JBool b => if b then "true" else "false"
  | JNumber q =>
      if isInteger v then intString (Qnum (Qred q)) else numberToString h q
  | JString s => s
  | JArray items =>
      String.concat ","
        (map (fun x => if nullish x then EmptyString else toStr h x) items)
  | JObject _ => "[object Object]"
  end.

(** *** The regular expressions of the file *)

(** [\d{1,2}], greedy. *)
Definition takeDigits12 (s : string) : option (string * string) :=
  match takeDigits 2 s with
  | Some r => Some r
  | None => takeDigits 1 s
  end.

(** [\d*], greedy. *)
Fixpoint spanDigits (s : string) : string * string :=
  match s with
  | String c r =>
      if isDigit c then let (ds, rest) := spanDigits r in (String c ds, rest)
      else (EmptyString, s)
  | EmptyString => (EmptyString, EmptyString)
  end.

(** [\s+]. *)
Definition spaces1 (s : string) : option string :=
  match s with
  | String c r => if isSpace c then Some (trimStart r) else None
  | EmptyString => None
  end.

(** [[\/\-]]. *)
Definition separator (s : string) : option string :=
  match s with
  | String c r => if Ascii.eqb c "/" || Ascii.eqb c "-" then Some r else None
  | EmptyString => None
  end.

(** Equality up to the case of the letters A-Z (the [i] flag). *)
Definition ciEq (a b : string) : bool :=
  String.eqb (toLowerCase a) (toLowerCase b).

(** [(\.\d{3})?]: the group is skipped when it does not match. *)
Definition optFraction (s : string) : string :=
  match expect "." s with
  | Some r => match takeDigits 3 r with Some (_, r') => r' | None => s end
  | None => s
  end.

(** [([+-]\d{2}:\d{2}|Z)?$]. *)
Definition optZoneEnd (s : string) : bool :=
  match s with
  | EmptyString => true
  | String c r =>
      if Ascii.eqb c "Z" then String.eqb r EmptyString
      else if Ascii.eqb c "+" || Ascii.eqb c "-" then
        match (let? (_, r1) := takeDigits 2 r in
               let? r2 := expect ":" r1 in
               let? (_, r3) := takeDigits 2 r2 in Some r3) with
        | Some EmptyString => true
        | _ => false
        end
      else false
  end.

(** [/^\d{4}-\d{2}-\d{2}T\d{2}:\d{2}:\d{2}(\.\d{3})?([+-]\d{2}:\d{2}|Z)?$/]. *)
Definition isoRegex (s : string) : bool :=
  match (let? (_, r) := takeDigits 4 s in
         let? r := expect "-" r in
         let? (_, r) := takeDigits 2 r in
         let? r := expect "-" r in
         let? (_, r) := takeDigits 2 r in
         let? r := expect "T" r in
         let? (_, r) := takeDigits 2 r in
         let? r := expect ":" r in
         let? (_, r) := takeDigits 2 r in
         let? r := expect ":" r in
         let? (_, r) := takeDigits 2 r in
         Some (optZoneEnd (optFraction r))) with
  | Some b => b
  | None => false
  end.

(** [/^(\d{4})-(\d{2})-(\d{2})$/]. *)
Definition isoDateRegex (s : string) : bool :=
  match (let? (_, r) := takeDigits 4 s in
         let? r := expect "-" r in
         let? (_, r) := takeDigits 2 r in
         let? r := expect "-" r in
         let? (_, r) := takeDigits 2 r in Some r) with
  | Some EmptyString => true
  | _ => false
  end.

Definition relativeUnits : list string :=
  ["minute"; "minutes"; "hour"; "hours"; "day"; "days"; "week"; "weeks"].

(** [/^in\s+(\d+)\s+(minute|minutes|hour|hours|day|days|week|weeks)$/i]:
    the two captured groups. *)
Definition relativeRegex (s : string) : option (string * string) :=
  match s with
  | String c1 (String c2 r) =>
      if ciEq (String c1 (String c2 EmptyString)) "in" then
        let? r1 := spaces1 r in
        let (ds, r2) := spanDigits r1 in
        if String.eqb ds EmptyString then None
        else
          let? unit := spaces1 r2 in
          if existsb (ciEq unit) relativeUnits then Some (ds, unit) else None
      else None
  | _ => None
  end.

(** The groups of the US date expression: month, day, year, and for the
    optional time part hour, minute, optional second, optional AM/PM. *)
Record USDateGroups : Type := mkUS {
  us_month : string;
  us_day : string;
  us_year : string;
  us_hour : option string;
  us_minute : option string;
  us_second : option string;
  us_ampm : option string
}.

(** [(?::(\d{2}))?]. *)
Definition optSeconds (s : string) : option string * string :=
  match expect ":" s with
  | Some r =>
      match takeDigits 2 r with
      | Some (ds, r') => (Some ds, r')
      | None => (None, s)
      end
  | None => (None, s)
  end.

(** [(?:\s*(AM|PM))?$]. *)
Definition optAmPmEnd (s : string) : option (option string) :=
  match s with
  | EmptyString => Some None
  | _ =>
      let r := trimStart s in
      if ciEq r "AM" || ciEq r "PM" then Some (Some r) else None
  end.

(** [/^(\d{1,2})[\/\-](\d{1,2})[\/\-](\d{4})
       (?:\s+(\d{1,2}):(\d{2})(?::(\d{2}))?(?:\s*(AM|PM))?)?$/i]. *)
Definition usDateRegex (s : string) : option USDateGroups :=
  let? (mo, r) := takeDigits12 s in
  let? r := separator r in
  let? (d, r) := takeDigits12 r in
  let? r := separator r in
  let? (y, r) := takeDigits 4 r in
  match r with
  | EmptyString => Some (mkUS mo d y None None None None)
  | _ =>
      let? r := spaces1 r in
      let? (hh, r) := takeDigits12 r in
      let? r := expect ":" r in
      let? (mi, r) := takeDigits 2 r in
      let (sec, r) := optSeconds r in
      let? ap := optAmPmEnd r in
      Some (mkUS mo d y (Some hh) (Some mi) sec ap)
  end.

(** The double-quote character of the error messages. *)
Definition quote : string := String (ascii_of_nat 34) EmptyString.

(** [parseInt] on a run of decimal digits. *)
Definition parseInt (s : string) : Z := digitsValue s.

Definition orZero (g : option string) : string :=
  match g with
  | Some s => if String.eqb s EmptyString then "0" else s
  | None => "0"
  end.

(** *** parseStringDate *)

(** The branch for the relative expressions: [now] is advanced in local
    time by [amount] units. *)
Definition advance (h : Host) (now amount : Z) (unit : string) : option Z :=
  if String.eqb unit "minute" || String.eqb unit "minutes" then
    setMinutes h now (getMinutes h now + amount)
  else if String.eqb unit "hour" || String.eqb unit "hours" then
    setHours h now (getHours h now + amount)
  else if String.eqb unit "day" || String.eqb unit "days" then
    setDate h now (getDate h now + amount)
  else if String.eqb unit "week" || String.eqb unit "weeks" then
    setDate h now (getDate h now + amount * 7)
  else Some now.

(** The AM/PM adjustment of the hour. *)
Definition adjustHour (hour : Z) (ampm : option string) : Z :=
  match ampm with
  | Some ap =>
      if negb (String.eqb ap EmptyString) then
        if String.eqb (toUpperCase ap) "PM" && negb (hour =? 12) then hour + 12
        else if String.eqb (toUpperCase ap) "AM" && (hour =? 12) then 0
        else hour
      else hour
  | None => hour
  end.

Definition usDateValue (h : Host) (g : USDateGroups) : option Z :=
  let month := parseInt (us_month g) - 1 in
  let day := parseInt (us_day g) in
  let year := parseInt (us_year g) in
  let hour := parseInt (orZero (us_hour g)) in
  let minute := parseInt (orZero (us_minute g)) in
  let second := parseInt (orZero (us_second g)) in
  fromComponents h year month day (adjustHour hour (us_ampm g)) minute second.

(** The result is a [Date]: [None] is the invalid date. *)
Definition parseStringDate (h : Host) (dateStr : string) : Eff (option Z) :=
  let trimmed := trim dateStr in
  if isoRegex trimmed then ret (parse h trimmed)
  else if ciEq trimmed "today" then
    (now <- newDate h ;; ret (Some now))%eff
  else if ciEq trimmed "tomorrow" then
    (now <- newDate h ;; ret (setDate h now (getDate h now + 1)))%eff
  else if ciEq trimmed "yesterday" then
    (now <- newDate h ;; ret (setDate h now (getDate h now - 1)))%eff
  else
    match relativeRegex trimmed with
    | Some (amount, unit) =>
        (now <- newDate h ;;
         ret (advance h now (parseInt amount) (toLowerCase unit)))%eff
    | None =>
        match usDateRegex trimmed with
        | Some g => ret (usDateValue h g)
        | None =>
            if isoDateRegex trimmed then
              ret (parse h (trimmed ++ "T00:00:00"))
            else
              match parse h trimmed with
              | Some t => ret (Some t)
              | None =>
                  throw (newError ("Unable to parse date format: " ++ quote
                                   ++ dateStr ++ quote))
              end
        end
    end.

(** [new Date(number)]. *)
Definition dateOfNumber (q : Q) : option Z :=
  TimeClip (Z.quot (Qnum q) (Z.pos (Qden q))).

(** [date.toISOString()], which throws on the invalid date. *)
Definition dateToISOString (d : option Z) : Eff string :=
  match d with
  | Some t => ret (toISOString t)
  | None => throw (newRangeError "Invalid time value")
  end.

Record GoogleCalendarDateTime : Type := mkGDT {
  dateTime : string;
  timeZone : string
}.

Definition formatDateTimeForGoogle (h : Host) (input : JSVal)
    (tz : option string) : Eff GoogleCalendarDateTime :=
  if negb (truthy input) then throw (newError "Date input is required")
  else
    tryCatch
      (date <- match input with
               | JNumber q => ret (dateOfNumber q)
               | JString s => parseStringDate h s
               | _ => throw (newError ("Unsupported date type: "
                                       ++ typeof input))
               end ;;
       match date with
       | None => throw (newError ("Invalid date: " ++ toStr h input))
       | Some t =>
           dateTimeString <- dateToISOString (Some t) ;;
           ret (mkGDT dateTimeString
                  (match tz with
                   | Some z => if String.eqb z EmptyString then timeZoneName h else z
                   | None => timeZoneName h
                   end))
       end)%eff
      (fun error =>
         throw (newError ("Failed to format date " ++ quote ++ toStr h input
                          ++ quote ++ ": " ++ err_message error))).

Definition normalizeDateTime (h : Host) (input : JSVal) (paramName : string)
  : Eff string :=
  tryCatch
    (formatted <- formatDateTimeForGoogle h input None ;;
     ret (dateTime formatted))%eff
    (fun error => throw (newError (paramName ++ ": " ++ err_message error))).

Definition createGoogleDateTime (h : Host) (input : JSVal)
  : Eff GoogleCalendarDateTime :=
  formatDateTimeForGoogle h input None.

Definition isValidGoogleDateTimeFormat (h : Host) (dt : string) : bool :=
  if negb (isoRegex dt) then false
  else match parse h dt with Some _ => true | None => false end.

(** *** Canonical timestamps

    The strings [YYYY-MM-DDTHH:MM:SS[.sss][Z|+-HH:MM]], written from their
    fields, and the fields that denote a date and a time of the calendar. *)

Definition zoneString (z : IsoZone) : string :=
  match z with
  | ZoneNone => EmptyString
  | ZoneZ => "Z"
  | ZoneOffset neg hh mm =>
      (if neg then "-" else "+") ++ pad 2 hh ++ ":" ++ pad 2 mm
  end.

Definition fracString (f : option Z) : string :=
  match f with
  | Some ms => "." ++ pad 3 ms
  | None => EmptyString
  end.

Definition canonical (f : IsoDateTime) : string :=
  pad 4 (iso_year f) ++ "-" ++ pad 2 (iso_month f) ++ "-"
  ++ pad 2 (iso_day f) ++ "T" ++ pad 2 (iso_hour f) ++ ":"
  ++ pad 2 (iso_minute f) ++ ":" ++ pad 2 (iso_second f)
  ++ fracString (iso_frac f) ++ zoneString (iso_zone f).

Definition validFrac (f : option Z) : Prop :=
  match f with Some ms => 0 <= ms <= 999 | None => True end.

Definition validOffset (z : IsoZone) : Prop :=
  match z with
  | ZoneOffset _ hh mm => 0 <= hh <= 23 /\ 0 <= mm <= 59
  | _ => True
  end.

Definition validFields (f : IsoDateTime) : Prop :=
  0 <= iso_year f <= 9999
  /\ 1 <= iso_month f <= 12
  /\ 1 <= iso_day f <= DaysInMonth (iso_year f) (iso_month f - 1)
  /\ 0 <= iso_hour f <= 23
  /\ 0 <= iso_minute f <= 59
  /\ 0 <= iso_second f <= 59
  /\ validFrac (iso_frac f)
  /\ validOffset (iso_zone f).

(** The fields of a time value, as [toISOString] prints them. *)
Definition fieldsOf (t : Z) : IsoDateTime :=
  mkIso (YearFromTime t) (MonthFromTime t + 1) (DateFromTime t)
    (HourFromTime t) (MinFromTime t) (SecFromTime t) (Some (msFromTime t))
    ZoneZ.

(** The error that [normalizeDateTime] throws for a value that
    [formatDateTimeForGoogle] could not format. *)
Definition failure (h : Host) (paramName : string) (input : JSVal)
    (reason : string) : JSError :=
  newError (paramName ++ ": Failed to format date " ++ quote ++ toStr h input
            ++ quote ++ ": " ++ reason).

(** A string that does not end with white space. *)
Fixpoint endsClean (s : string) : bool :=
  match s with
  | EmptyString => true
  | String c EmptyString => negb (isSpace c)
  | String _ r => endsClean r
  end.

End DateFormat.

(** ** google-tools.ts *)

Module GoogleTools.
Import JS JSDate Effects DateFormat.

#[local] Open Scope eff_scope.

(** [v.k], which throws a TypeError on [undefined] and [null]. *)
Definition getProp (v : JSVal) (k : string) : Eff JSVal :=
  if nullish v then
    throw (newTypeError ("Cannot read properties of "
             ++ (match v with JNull => "null" | _ => "undefined" end)
             ++ " (reading '" ++ k ++ "')"))
  else ret (prop v k).

(** The elements of a value used as an array ([filter], [map]). *)
Definition asArray (v : JSVal) (method : string) : Eff (list JSVal) :=
  match v with
  | JArray items => ret items
  | _ => throw (newTypeError (method ++ " is not a function"))
  end.

Fixpoint mapM {A B : Type} (f : A -> Eff B) (l : list A) : Eff (list B) :=
  match l with
  | [] => ret []
  | x :: r => y <- f x ;; ys <- mapM f r ;; ret (y :: ys)
  end.

Fixpoint filterM {A : Type} (f : A -> Eff bool) (l : list A) : Eff (list A) :=
  match l with
  | [] => ret []
  | x :: r => b <- f x ;; ys <- filterM f r ;; ret (if b then x :: ys else ys)
  end.

(** [response.data.items || []] of a list operation. *)
Definition itemsOf (data : JSVal) : Eff JSVal :=
  items <- getProp data "items" ;; ret (orElse items (JArray [])).

Definition getEventsInTimeRange (h : Host) (b : Backend)
    (options : list (string * JSVal)) : Eff JSVal :=
  now <- newDate h ;;
  let params :=
    assign [("calendarId", JString "primary");
            ("maxResults", numZ 10);
            ("timeMin", JString (toISOString now));
            ("singleEvents", JBool true);
            ("orderBy", JString "startTime")] options in
  data <- callService b (CallEventsList params) ;;
  itemsOf data.

Definition createEvent (b : Backend) (event : JSVal)
    (options : list (string * JSVal)) : Eff JSVal :=
  let params :=
    assign (assign [("calendarId", JString "primary");
                    ("sendNotifications", JBool true);
                    ("sendUpdates", JString "all")] options)
      [("requestBody", event)] in
  tryCatch (callService b (CallEventsInsert params))
    (fun error =>
       throw (newError ("Failed to create event: " ++ errorToString error))).

Definition updateEvent (b : Backend) (eventId : JSVal) (event : JSVal)
    (options : list (string * JSVal)) : Eff JSVal :=
  let params :=
    assign (assign [("calendarId", JString "primary");
                    ("sendNotifications", JBool true);
                    ("sendUpdates", JString "all")] options)
      [("eventId", eventId); ("requestBody", event)] in
  tryCatch (callService b (CallEventsUpdate params))
    (fun error =>
       throw (newError ("Failed to update event: " ++ errorToString error))).

Definition deleteEvent (b : Backend) (eventId : JSVal)
    (options : list (string * JSVal)) : Eff unit :=
  let params :=
    assign (assign [("calendarId", JString "primary");
                    ("sendNotifications", JBool true)] options)
      [("eventId", eventId)] in
  tryCatch (_ <- callService b (CallEventsDelete params) ;; ret tt)
    (fun error =>
       throw (newError ("Failed to delete event: " ++ errorToString error))).

Definition getCalendars (b : Backend) (options : list (string * JSVal))
  : Eff JSVal :=
  tryCatch (data <- callService b (CallCalendarList options) ;; itemsOf data)
    (fun error =>
       throw (newError ("Failed to fetch calendars: " ++ errorToString error))).

(** [new Date(v)] for a string or a number. *)
Definition dateOf (h : Host) (v : JSVal) : option Z :=
  match v with
  | JString s => parse h s
  | JNumber q => dateOfNumber q
  | _ => None
  end.

(** [a < b] on dates: false when either is the invalid date. *)
Definition dateLt (a b : option Z) : bool :=
  match a, b with
  | Some x, Some y => x <? y
  | _, _ => false
  end.

(** [event.start?.dateTime || event.start?.date]. *)
Definition eventInstant (event : JSVal) (side : string) : Eff JSVal :=
  s <- getProp event side ;;
  ret (orElse (if nullish s then JUndefined else prop s "dateTime")
              (if nullish s then JUndefined else prop s "date")).

(** The predicate of the filter in [checkForConflicts]. *)
Definition conflictsWith (h : Host) (startTime endTime : string)
    (event : JSVal) : Eff bool :=
  eventStart <- eventInstant event "start" ;;
  eventEnd <- eventInstant event "end" ;;
  if negb (truthy eventStart) || negb (truthy eventEnd) then ret false
  else
    let start := parse h startTime in
    let end_ := parse h endTime in
    let eStart := dateOf h eventStart in
    let eEnd := dateOf h eventEnd in
    ret (dateLt start eEnd && dateLt eStart end_).

Definition defaulted (v : JSVal) (d : JSVal) : JSVal :=
  match v with JUndefined => d | _ => v end.

Definition checkForConflicts (h : Host) (b : Backend)
    (startTime endTime : string) (calendarId : JSVal) : Eff (list JSVal) :=
  let calendarId := defaulted calendarId (JString "primary") in
  conflicts <- getEventsInTimeRange h b
                 [("timeMin", JString startTime);
                  ("timeMax", JString endTime);
                  ("calendarId", calendarId);
                  ("maxResults", numZ 100)] ;;
  items <- asArray conflicts "conflicts.filter" ;;
  filterM (conflictsWith h startTime endTime) items.

(** [attendees?.map(email => ({ email }))]. *)
Definition attendeeObjects (attendees : JSVal) : Eff JSVal :=
  if nullish attendees then ret JUndefined
  else
    items <- asArray attendees "attendees.map" ;;
    ret (JArray (map (fun email => JObject [("email", email)]) items)).

Definition googleDateTime (dt tz : string) : JSVal :=
  JObject [("dateTime", JString dt); ("timeZone", JString tz)].

Definition createQuickEvent (h : Host) (b : Backend) (title : JSVal)
    (startDateTime : string) (durationMinutes : Q)
    (options : list (string * JSVal)) : Eff JSVal :=
  let startDate := parse h startDateTime in
  let endDate :=
    match startDate with
    | Some t => dateOfNumber (inject_Z t + durationMinutes * inject_Z 60000)%Q
    | None => None
    end in
  startString <- dateToISOString startDate ;;
  endString <- dateToISOString endDate ;;
  attendees <- attendeeObjects (lookup "attendees" options) ;;
  let event :=
    JObject [("summary", title);
             ("description", lookup "description" options);
             ("location", lookup "location" options);
             ("start", googleDateTime startString (timeZoneName h));
             ("end", googleDateTime endString (timeZoneName h));
             ("attendees", attendees)] in
  createEvent b event [("calendarId", lookup "calendarId" options)].

(** *** findFreeTimeSlots *)

Record BusySlot : Type := mkBusy {
  busy_start : option Z;
  busy_end : option Z
}.

(** The comparator [a.start.getTime() - b.start.getTime()]: it is positive
    exactly when [a] starts after [b]; NaN counts as zero. *)
Definition startsAfter (a b : BusySlot) : bool :=
  match busy_start a, busy_start b with
  | Some x, Some y => y <? x
  | _, _ => false
  end.

Fixpoint insertSlot (x : BusySlot) (l : list BusySlot) : list BusySlot :=
  match l with
  | [] => [x]
  | y :: r => if startsAfter x y then y :: insertSlot x r else x :: y :: r
  end.

(** [Array.prototype.sort], a stable sort, by the comparator above. *)
Definition sortSlots (l : list BusySlot) : list BusySlot :=
  fold_right insertSlot [] l.

(** [Math.min] and [Math.max] on time values, NaN when either is. *)
Definition timeMin2 (a b : option Z) : option Z :=
  match a, b with Some x, Some y => Some (Z.min x y) | _, _ => None end.

Definition timeMax2 (a b : option Z) : option Z :=
  match a, b with Some x, Some y => Some (Z.max x y) | _, _ => None end.

(** [y - x >= d]: false when a term is NaN. *)
Definition spanAtLeast (x y : option Z) (d : option Z) : bool :=
  match x, y, d with
  | Some x, Some y, Some d => d <=? y - x
  | _, _, _ => false
  end.

(** A free slot as the pair of instants that are printed when it is
    pushed; a slot is only pushed after [spanAtLeast] held, so both
    instants are valid dates and [toISOString] does not throw. *)
Definition FreeSlot : Type := (Z * Z)%type.

Definition pushSlot (x y : option Z) (acc : list FreeSlot) : list FreeSlot :=
  match x, y with
  | Some a, Some c => acc ++ [(a, c)]
  | _, _ => acc
  end.

(** The loop over the sorted busy slots: [currentTime] and [freeSlots] are
    threaded. *)
Fixpoint sweep (end_ : option Z) (slotDuration : option Z)
    (busySlots : list BusySlot) (currentTime : option Z)
    (freeSlots : list FreeSlot) : option Z * list FreeSlot :=
  match busySlots with
  | [] => (currentTime, freeSlots)
  | busySlot :: rest =>
      let freeSlots' :=
        if dateLt currentTime (busy_start busySlot) then
          let freeEnd := TimeClipO (timeMin2 (busy_start busySlot) end_) in
          if spanAtLeast currentTime freeEnd slotDuration
          then pushSlot currentTime freeEnd freeSlots
          else freeSlots
        else freeSlots in
      sweep end_ slotDuration rest
        (TimeClipO (timeMax2 currentTime (busy_end busySlot))) freeSlots'
  end.

Definition freeSlotsOf (start end_ : option Z) (slotDuration : option Z)
    (busySlots : list BusySlot) : list FreeSlot :=
  let (currentTime, freeSlots) :=
    sweep end_ slotDuration (sortSlots busySlots) start [] in
  if dateLt currentTime end_ then
    if spanAtLeast currentTime end_ slotDuration
    then pushSlot currentTime end_ freeSlots
    else freeSlots
  else freeSlots.

(** [slotDurationMinutes * 60000], with the default 60 for [undefined]:
    the least whole number of milliseconds that is not below it ([None] when
    it is not a number). *)
Definition slotDurationMs (slotDurationMinutes : JSVal) : option Z :=
  match slotDurationMinutes with
  | JUndefined => Some (60 * 60000)
  | JNull => Some 0
  | JNumber q => Some (Qceiling (q * inject_Z 60000))
  | JBool bo => Some (if bo then 60000 else 0)
  | _ => None
  end.

(** [event.start?.dateTime && event.end?.dateTime]. *)
Definition isTimed (event : JSVal) : Eff bool :=
  s <- getProp event "start" ;;
  if negb (truthy (if nullish s then JUndefined else prop s "dateTime"))
  then ret false
  else
    e <- getProp event "end" ;;
    ret (truthy (if nullish e then JUndefined else prop e "dateTime")).

Definition busyOf (h : Host) (event : JSVal) : BusySlot :=
  mkBusy (dateOf h (prop (prop event "start") "dateTime"))
         (dateOf h (prop (prop event "end") "dateTime")).

Definition slotStrings (s : FreeSlot) : string * string :=
  (toISOString (fst s), toISOString (snd s)).

Definition findFreeTimeSlots (h : Host) (b : Backend)
    (startDate endDate : string) (slotDurationMinutes : JSVal)
    (calendarId : JSVal) : Eff (list (string * string)) :=
  let calendarId := defaulted calendarId (JString "primary") in
  events <- getEventsInTimeRange h b
              [("timeMin", JString startDate);
               ("timeMax", JString endDate);
               ("calendarId", calendarId);
               ("maxResults", numZ 100)] ;;
  items <- asArray events "events.filter" ;;
  timed <- filterM isTimed items ;;
  let busySlots := map (busyOf h) timed in
  ret (map slotStrings
         (freeSlotsOf (parse h startDate) (parse h endDate)
            (slotDurationMs slotDurationMinutes) busySlots)).

End GoogleTools.

(** ** tools.ts *)

Module Tools.
Import JS JSDate Effects DateFormat GoogleTools.

#[local] Open Scope eff_scope.

Record ToolCall : Type := mkToolCall {
  id : string;
  name : string;
  input : JSVal
}.

(** The tool-result message handed back to the completion service. *)
Record Message : Type := mkMessage {
  role : string;
  tool_call_id : string;
  content : string
}.

(** The credentials handle of the calendar service. *)
Inductive OAuth2Client : Type := oauth2Client (token : string).

(** Presentation: how the logger renders an event and how the host renders
    a local date. *)
Record Presenter : Type := mkPresenter {
  formatCalendarEvent : JSVal -> JSError + string;
  toLocaleString : option Z -> string
}.

Definition nl : string := String (ascii_of_nat 10) EmptyString.

(** The names of the tools that [handleToolCall] dispatches on. *)
Definition toolNames : list string :=
  ["bash"; "get_events_in_time_range"; "create_event"; "create_quick_event";
   "update_event"; "delete_event"; "check_conflicts"; "find_free_time";
   "get_calendars"].

(** *** Validators *)

Definition numLt (a b : Q) : bool := negb (Qle_bool b a).

Definition validateInteger (h : Host) (value : JSVal) (paramName : string)
    (min max : option Z) : Eff unit :=
  if nullish value then ret tt
  else if negb (isInteger value) then
    throw (newError (paramName ++ " must be an integer. Received: "
                     ++ typeof value ++ " " ++ quote ++ toStr h value ++ quote))
  else
    match value with
    | JNumber q =>
        match min with
        | Some m =>
            if numLt q (inject_Z m) then
              throw (newError (paramName ++ " must be at least " ++ intString m
                               ++ ". Received: " ++ toStr h value))
            else ret tt
        | None => ret tt
        end ;;;
        match max with
        | Some m =>
            if numLt (inject_Z m) q then
              throw (newError (paramName ++ " must be at most " ++ intString m
                               ++ ". Received: " ++ toStr h value))
            else ret tt
        | None => ret tt
        end
    | _ => ret tt
    end.

Definition isString (v : JSVal) : bool :=
  match v with JString _ => true | _ => false end.

Definition validateString (h : Host) (value : JSVal) (paramName : string)
  : Eff unit :=
  if negb (nullish value) && negb (isString value) then
    throw (newError (paramName ++ " must be a string. Received: "
                     ++ typeof value ++ " " ++ quote ++ toStr h value ++ quote))
  else ret tt.

(** [[^\s@]+]: the longest run of characters that are neither white space
    nor [@]. *)
Fixpoint spanWord (s : string) : string * string :=
  match s with
  | String c r =>
      if isSpace c || Ascii.eqb c "@" then (EmptyString, s)
      else let (w, rest) := spanWord r in (String c w, rest)
  | EmptyString => (EmptyString, EmptyString)
  end.

(** A dot with at least one character on each side. *)
Fixpoint hasInnerDot (seenBefore : bool) (s : string) : bool :=
  match s with
  | String c r =>
      (Ascii.eqb c "." && seenBefore && negb (String.eqb r EmptyString))
      || hasInnerDot true r
  | EmptyString => false
  end.

(** [/^[^\s@]+@[^\s@]+\.[^\s@]+$/]. *)
Definition emailRegex (s : string) : bool :=
  let (local_, r) := spanWord s in
  if String.eqb local_ EmptyString then false
  else
    match r with
    | String c r' =>
        if Ascii.eqb c "@" then
          let (domain, rest) := spanWord r' in
          String.eqb rest EmptyString && hasInnerDot false domain
        else false
    | EmptyString => false
    end.

Fixpoint validateEmails (h : Host) (paramName : string) (i : nat)
    (emails : list JSVal) : Eff unit :=
  match emails with
  | [] => ret tt
  | e :: rest =>
      match e with
      | JString s =>
          if emailRegex s then validateEmails h paramName (S i) rest
          else throw (newError (paramName ++ "[" ++ natString i
                                ++ "] must be a valid email address. Received: "
                                ++ quote ++ s ++ quote))
      | _ =>
          throw (newError (paramName ++ "[" ++ natString i
                           ++ "] must be a string email address. Received: "
                           ++ typeof e ++ " " ++ quote ++ toStr h e ++ quote))
      end
  end.

Definition validateEmailArray (h : Host) (emails : JSVal) (paramName : string)
  : Eff unit :=
  if nullish emails then ret tt
  else
    match emails with
    | JArray items => validateEmails h paramName 0 items
    | _ => throw (newError (paramName
                            ++ " must be an array of email addresses. Received: "
                            ++ typeof emails))
    end.

(** *** formatGoogleApiError *)

Definition someTruthy (s : option string) : option string :=
  match s with
  | Some m => if String.eqb m EmptyString then None else Some m
  | None => None
  end.

Definition firstString (a b : option string) (d : string) : string :=
  match someTruthy a with
  | Some m => m
  | None => match someTruthy b with Some m => m | None => d end
  end.

Definition firstCode (cs : list (option ErrCode)) : option ErrCode :=
  match filter codeTruthy cs with
  | c :: _ => c
  | [] => None
  end.

Definition codeString (c : option ErrCode) : string :=
  match c with
  | Some (CodeNum n) => intString n
  | Some (CodeStr s) => s
  | None => "unknown"
  end.

(** [error?.cause || error?.response?.data?.error || error?.response?.data
    || error]. *)
Definition errorDetailsOf (error : JSError) : ErrorDetails :=
  match err_cause error with
  | Some d => d
  | None =>
      match err_response error with
      | Some r =>
          match resp_data r with
          | Some dt =>
              match data_error dt with
              | Some d => d
              | None => data_self dt
              end
          | None => err_self error
          end
      | None => err_self error
      end
  end.

Definition reasonMessage (reason : string) : option string :=
  if String.eqb reason "invalid" then
    Some ("Invalid parameter value. Please check your date format (use ISO 8601 like "
          ++ quote ++ "2024-01-15T14:30:00" ++ quote ++ ") and other parameters")
  else if String.eqb reason "badRequest" then
    Some ("Bad request. Please check your date/time format (use ISO 8601 like "
          ++ quote ++ "2024-01-15T14:30:00" ++ quote ++ ") and parameter types")
  else if String.eqb reason "notFound" then
    Some "Resource not found. The calendar or event may not exist or may have been deleted"
  else if String.eqb reason "forbidden" then
    Some "Access denied. You may not have permission to access this calendar"
  else if String.eqb reason "unauthorized" then
    Some "Authentication failed. Please re-authenticate with Google Calendar"
  else None.

Definition statusMessage (code : option ErrCode) (message : string) : string :=
  if codeIs code 400 then
    if includes "time" (toLowerCase message)
       || includes "date" (toLowerCase message) then
      "Invalid date/time format. Please use ISO 8601 format like " ++ quote
      ++ "2024-01-15T14:30:00" ++ quote ++ " or " ++ quote
      ++ "2024-01-15T14:30:00Z" ++ quote
    else if includes "calendar" (toLowerCase message) then
      "Invalid calendar ID. Use " ++ quote ++ "primary" ++ quote
      ++ " for your main calendar or get valid IDs with get_calendars"
    else if includes "event" (toLowerCase message) then
      "Invalid event ID. Get valid event IDs from get_events_in_time_range"
    else
      "Bad request: " ++ message
      ++ ". Please check your parameters (especially date formats - use ISO 8601 like "
      ++ quote ++ "2024-01-15T14:30:00" ++ quote ++ ")"
  else if codeIs code 401 then
    "Authentication failed. Please re-authenticate with Google Calendar"
  else if codeIs code 403 then
    "Permission denied. Check that you have calendar access permissions"
  else if codeIs code 404 then
    "Resource not found. The calendar or event may have been deleted"
  else
    "Google Calendar API error (" ++ codeString code ++ "): " ++ message.

Definition formatGoogleApiError (error : JSError) : string :=
  let errorDetails := errorDetailsOf error in
  let message :=
    firstString (det_message errorDetails)
      (det_error_description errorDetails) "Unknown error" in
  let code :=
    firstCode [det_code errorDetails; det_status errorDetails;
               det_code (err_self error); det_status (err_self error)] in
  match det_errors errorDetails with
  | Some (first :: _) =>
      let message :=
        match someTruthy (item_message first) with
        | Some m => m
        | None => message
        end in
      match someTruthy (item_reason first) with
      | Some reason =>
          match reasonMessage reason with
          | Some text => text
          | None => statusMessage code message
          end
      | None => statusMessage code message
      end
  | _ => statusMessage code message
  end.

(** The test of the catch block for an error of the calendar service. *)
Definition isGoogleApiError (error : JSError) : bool :=
  match det_code (err_self error) with Some _ => true | None => false end
  || match err_response error with Some _ => true | None => false end
  || match err_cause error with Some _ => true | None => false end
  || String.eqb (err_ctor error) "GaxiosError"
  || match someTruthy (det_message (err_self error)) with
     | Some m => includes "googleapis" m
     | None => false
     end.

(** *** Result formatting *)

Fixpoint numbered (f : JSVal -> Eff string) (i : nat) (l : list JSVal)
  : Eff (list string) :=
  match l with
  | [] => ret []
  | x :: r =>
      s <- f x ;;
      rest <- numbered f (S i) r ;;
      ret ((natString (S i) ++ ". " ++ s) :: rest)
  end.

Definition formatCalendarEvents (p : Presenter) (events : list JSVal)
  : Eff string :=
  match events with
  | [] => ret "No events found in the specified time range."
  | _ =>
      lines <- numbered (fun e => lift (formatCalendarEvent p e)) 0 events ;;
      ret (String.concat (nl ++ nl) lines)
  end.

Definition formatSingleCalendarEvent (p : Presenter) (event : JSVal)
  : Eff string :=
  lift (formatCalendarEvent p event).

(** *** handleToolCall *)

Definition requireAuth (auth : option OAuth2Client) : Eff unit :=
  match auth with
  | Some _ => ret tt
  | None => throw (newError "Google Calendar authentication required")
  end.

(** [a >= b] on dates: false when either is the invalid date. *)
Definition dateGe (a b : option Z) : bool :=
  match a, b with
  | Some x, Some y => y <=? x
  | _, _ => false
  end.

Definition googleDateTimeValue (g : GoogleCalendarDateTime) : JSVal :=
  googleDateTime (dateTime g) (timeZone g).

Definition executeBash (b : Backend) (command : JSVal) : Eff string :=
  callShell b command.

Definition getEventsCase (h : Host) (b : Backend) (p : Presenter)
    (auth : option OAuth2Client) (input : JSVal) : Eff string :=
  requireAuth auth ;;;
  maxResults <- getProp input "maxResults" ;;
  validateInteger h maxResults "maxResults" (Some 1) (Some 100) ;;;
  validateString h (prop input "calendarId") "calendarId" ;;;
  let normalizedInput := ownProps input in
  normalizedInput <-
    (if truthy (prop input "timeMin") then
       s <- normalizeDateTime h (prop input "timeMin") "timeMin" ;;
       ret (setField "timeMin" (JString s) normalizedInput)
     else ret normalizedInput) ;;
  normalizedInput <-
    (if truthy (prop input "timeMax") then
       s <- normalizeDateTime h (prop input "timeMax") "timeMax" ;;
       ret (setField "timeMax" (JString s) normalizedInput)
     else ret normalizedInput) ;;
  events <- getEventsInTimeRange h b normalizedInput ;;
  items <- asArray events "events.map" ;;
  formatCalendarEvents p items.

Definition createEventCase (h : Host) (b : Backend) (p : Presenter)
    (auth : option OAuth2Client) (input : JSVal) : Eff string :=
  requireAuth auth ;;;
  title <- getProp input "title" ;;
  let startDateTime := prop input "startDateTime" in
  let endDateTime := prop input "endDateTime" in
  let description := prop input "description" in
  let location := prop input "location" in
  let attendees := prop input "attendees" in
  let calendarId := prop input "calendarId" in
  validateString h title "title" ;;;
  when (negb (truthy title))
    (throw (newError "title is required and cannot be empty")) ;;;
  normalizedStartDateTime <- normalizeDateTime h startDateTime "startDateTime" ;;
  normalizedEndDateTime <- normalizeDateTime h endDateTime "endDateTime" ;;
  validateString h description "description" ;;;
  validateString h location "location" ;;;
  validateString h calendarId "calendarId" ;;;
  validateEmailArray h attendees "attendees" ;;;
  when (dateGe (parse h normalizedStartDateTime)
               (parse h normalizedEndDateTime))
    (throw (newError "startDateTime must be before endDateTime")) ;;;
  startGoogleDateTime <- createGoogleDateTime h startDateTime ;;
  endGoogleDateTime <- createGoogleDateTime h endDateTime ;;
  attendeeList <- attendeeObjects attendees ;;
  let event :=
    JObject [("summary", title);
             ("description", description);
             ("location", location);
             ("start", googleDateTimeValue startGoogleDateTime);
             ("end", googleDateTimeValue endGoogleDateTime);
             ("attendees", attendeeList)] in
  createdEvent <- createEvent b event [("calendarId", calendarId)] ;;
  text <- formatSingleCalendarEvent p createdEvent ;;
  ret ("Event created successfully!" ++ nl ++ nl ++ text).

Definition createQuickEventCase (h : Host) (b : Backend) (p : Presenter)
    (auth : option OAuth2Client) (input : JSVal) : Eff string :=
  requireAuth auth ;;;
  title <- getProp input "title" ;;
  validateString h title "title" ;;;
  when (negb (truthy title))
    (throw (newError "title is required and cannot be empty")) ;;;
  normalizedQuickStartDateTime <-
    normalizeDateTime h (prop input "startDateTime") "startDateTime" ;;
  validateInteger h (prop input "durationMinutes") "durationMinutes"
    (Some 1) None ;;;
  validateString h (prop input "description") "description" ;;;
  validateString h (prop input "location") "location" ;;;
  validateString h (prop input "calendarId") "calendarId" ;;;
  validateEmailArray h (prop input "attendees") "attendees" ;;;
  let durationMinutes :=
    match orElse (prop input "durationMinutes") (numZ 60) with
    | JNumber q => q
    | _ => inject_Z 60
    end in
  quickEvent <- createQuickEvent h b title normalizedQuickStartDateTime
                  durationMinutes
                  [("description", prop input "description");
                   ("location", prop input "location");
                   ("attendees", prop input "attendees");
                   ("calendarId", prop input "calendarId")] ;;
  text <- formatSingleCalendarEvent p quickEvent ;;
  ret ("Quick event created successfully!" ++ nl ++ nl ++ text).

(** [if (v) o[k] = f(v)] while the update object is being filled. *)
Definition setWhen (c : bool) (k : string) (v : Eff JSVal)
    (o : list (string * JSVal)) : Eff (list (string * JSVal)) :=
  if c then x <- v ;; ret (setField k x o) else ret o.

Definition updateEventCase (h : Host) (b : Backend) (p : Presenter)
    (auth : option OAuth2Client) (input : JSVal) : Eff string :=
  requireAuth auth ;;;
  eventId <- getProp input "eventId" ;;
  let updateData := removeField "eventId" (ownProps input) in
  validateString h eventId "eventId" ;;;
  when (negb (truthy eventId))
    (throw (newError "eventId is required and cannot be empty")) ;;;
  normalizedUpdateStartDateTime <-
    (if truthy (lookup "startDateTime" updateData) then
       s <- normalizeDateTime h (lookup "startDateTime" updateData)
              "startDateTime" ;;
       ret (Some s)
     else ret None) ;;
  normalizedUpdateEndDateTime <-
    (if truthy (lookup "endDateTime" updateData) then
       s <- normalizeDateTime h (lookup "endDateTime" updateData)
              "endDateTime" ;;
       ret (Some s)
     else ret None) ;;
  validateString h (lookup "title" updateData) "title" ;;;
  validateString h (lookup "description" updateData) "description" ;;;
  validateString h (lookup "location" updateData) "location" ;;;
  validateEmailArray h (lookup "attendees" updateData) "attendees" ;;;
  when (match someTruthy normalizedUpdateStartDateTime,
              someTruthy normalizedUpdateEndDateTime with
        | Some s, Some e => dateGe (parse h s) (parse h e)
        | _, _ => false
        end)
    (throw (newError "startDateTime must be before endDateTime")) ;;;
  let field k := lookup k updateData in
  eventUpdate <- setWhen (truthy (field "title")) "summary"
                   (ret (field "title")) [] ;;
  eventUpdate <- setWhen (truthy (field "description")) "description"
                   (ret (field "description")) eventUpdate ;;
  eventUpdate <- setWhen (truthy (field "location")) "location"
                   (ret (field "location")) eventUpdate ;;
  eventUpdate <- setWhen (truthy (field "startDateTime")) "start"
                   (g <- createGoogleDateTime h (field "startDateTime") ;;
                    ret (googleDateTimeValue g)) eventUpdate ;;
  eventUpdate <- setWhen (truthy (field "endDateTime")) "end"
                   (g <- createGoogleDateTime h (field "endDateTime") ;;
                    ret (googleDateTimeValue g)) eventUpdate ;;
  eventUpdate <- setWhen (truthy (field "attendees")) "attendees"
                   (attendeeObjects (field "attendees")) eventUpdate ;;
  updatedEvent <- updateEvent b eventId (JObject eventUpdate) [] ;;
  text <- formatSingleCalendarEvent p updatedEvent ;;
  ret ("Event updated successfully!" ++ nl ++ nl ++ text).

Definition deleteEventCase (h : Host) (b : Backend)
    (auth : option OAuth2Client) (input : JSVal) : Eff string :=
  requireAuth auth ;;;
  eventId <- getProp input "eventId" ;;
  validateString h eventId "eventId" ;;;
  when (negb (truthy eventId))
    (throw (newError "eventId is required and cannot be empty")) ;;;
  validateString h (prop input "calendarId") "calendarId" ;;;
  deleteEvent b eventId [("calendarId", prop input "calendarId")] ;;;
  ret "Event deleted successfully!".

Definition checkConflictsCase (h : Host) (b : Backend) (p : Presenter)
    (auth : option OAuth2Client) (input : JSVal) : Eff string :=
  requireAuth auth ;;;
  startTime <- getProp input "startTime" ;;
  normalizedConflictStartTime <- normalizeDateTime h startTime "startTime" ;;
  normalizedConflictEndTime <-
    normalizeDateTime h (prop input "endTime") "endTime" ;;
  validateString h (prop input "calendarId") "calendarId" ;;;
  when (dateGe (parse h normalizedConflictStartTime)
               (parse h normalizedConflictEndTime))
    (throw (newError "startTime must be before endTime")) ;;;
  conflicts <- checkForConflicts h b normalizedConflictStartTime
                 normalizedConflictEndTime (prop input "calendarId") ;;
  match conflicts with
  | [] => ret "No conflicts found in the specified time range."
  | _ =>
      text <- formatCalendarEvents p conflicts ;;
      ret ("Found " ++ natString (List.length conflicts) ++ " conflicts:"
           ++ nl ++ nl ++ text)
  end.

(** The clock symbol that precedes a free slot, as UTF-8. *)
Definition clockSymbol : string :=
  string_of_list_ascii (map ascii_of_nat [240; 159; 149; 146]%nat).

Fixpoint numberedSlots (h : Host) (p : Presenter) (i : nat)
    (slots : list (string * string)) : list string :=
  match slots with
  | [] => []
  | (s, e) :: rest =>
      (natString (S i) ++ ". " ++ clockSymbol ++ " "
       ++ toLocaleString p (parse h s) ++ " - " ++ toLocaleString p (parse h e))
      :: numberedSlots h p (S i) rest
  end.

Definition findFreeTimeCase (h : Host) (b : Backend) (p : Presenter)
    (auth : option OAuth2Client) (input : JSVal) : Eff string :=
  requireAuth auth ;;;
  startDate <- getProp input "startDate" ;;
  normalizedFreeStartDate <- normalizeDateTime h startDate "startDate" ;;
  normalizedFreeEndDate <-
    normalizeDateTime h (prop input "endDate") "endDate" ;;
  validateInteger h (prop input "slotDurationMinutes") "slotDurationMinutes"
    (Some 1) None ;;;
  validateString h (prop input "calendarId") "calendarId" ;;;
  when (dateGe (parse h normalizedFreeStartDate)
               (parse h normalizedFreeEndDate))
    (throw (newError "startDate must be before endDate")) ;;;
  freeSlots <- findFreeTimeSlots h b normalizedFreeStartDate
                 normalizedFreeEndDate (prop input "slotDurationMinutes")
                 (prop input "calendarId") ;;
  match freeSlots with
  | [] => ret "No free time slots found in the specified range."
  | _ =>
      ret ("Found " ++ natString (List.length freeSlots)
           ++ " free time slots:" ++ nl ++ nl
           ++ String.concat nl (numberedSlots h p 0 freeSlots))
  end.

(** The symbols of the calendar listing, as UTF-8. *)
Definition calendarSymbol : string :=
  string_of_list_ascii (map ascii_of_nat [240; 159; 147; 133]%nat).
Definition idSymbol : string :=
  string_of_list_ascii (map ascii_of_nat [240; 159; 134; 148]%nat).
Definition memoSymbol : string :=
  string_of_list_ascii (map ascii_of_nat [240; 159; 147; 157]%nat).

Definition formatCalendar (h : Host) (cal : JSVal) : Eff string :=
  summary <- getProp cal "summary" ;;
  ret (calendarSymbol ++ " "
       ++ toStr h (orElse summary (JString "Untitled Calendar")) ++ nl
       ++ "   " ++ idSymbol ++ " ID: " ++ toStr h (prop cal "id") ++ nl
       ++ "   " ++ memoSymbol ++ " "
       ++ toStr h (orElse (prop cal "description")
                     (JString "No description"))).

Definition getCalendarsCase (h : Host) (b : Backend)
    (auth : option OAuth2Client) : Eff string :=
  requireAuth auth ;;;
  calendars <- getCalendars b [] ;;
  items <- asArray calendars "calendars.map" ;;
  lines <- numbered (formatCalendar h) 0 items ;;
  ret ("Available calendars:" ++ nl ++ nl ++ String.concat (nl ++ nl) lines).

(** The [switch] on the tool name: the body of the [try] block. *)
Definition dispatch (h : Host) (b : Backend) (p : Presenter)
    (toolCall : ToolCall) (auth : option OAuth2Client) : Eff string :=
  let input := input toolCall in
  let name := name toolCall in
  if String.eqb name "bash" then
    command <- getProp input "command" ;; executeBash b command
  else if String.eqb name "get_events_in_time_range" then
    getEventsCase h b p auth input
  else if String.eqb name "create_event" then
    createEventCase h b p auth input
  else if String.eqb name "create_quick_event" then
    createQuickEventCase h b p auth input
  else if String.eqb name "update_event" then
    updateEventCase h b p auth input
  else if String.eqb name "delete_event" then
    deleteEventCase h b auth input
  else if String.eqb name "check_conflicts" then
    checkConflictsCase h b p auth input
  else if String.eqb name "find_free_time" then
    findFreeTimeCase h b p auth input
  else if String.eqb name "get_calendars" then
    getCalendarsCase h b auth
  else throw (newError ("Unsupported tool: " ++ name)).

Definition handleToolCall (h : Host) (b : Backend) (p : Presenter)
    (toolCall : ToolCall) (auth : option OAuth2Client) : Eff Message :=
  tryCatch
    (result <- dispatch h b p toolCall auth ;;
     ret (mkMessage "tool" (id toolCall) result))
    (fun error =>
       let errorMsg :=
         if isGoogleApiError error then
           "Error executing " ++ name toolCall ++ ": "
           ++ formatGoogleApiError error
         else
           "Error executing " ++ name toolCall ++ ": " ++ err_message error in
       ret (mkMessage "tool" (id toolCall) errorMsg)).

End Tools.

(** ** agent.ts: the streaming delta aggregator of [LLM.call] *)

Module Agent.
Import JS Tools.

(** One element of [delta.tool_calls]. *)
Record ToolCallDelta : Type := mkDelta {
  index : option Z;
  delta_id : option string;
  function_name : option string;
  function_arguments : option string
}.

(** One chunk of the stream: [choices[0].delta] and
    [choices[0].finish_reason]. *)
Record Chunk : Type := mkChunk {
  delta_content : option string;
  delta_tool_calls : option (list ToolCallDelta);
  finish_reason : option string
}.

(** [currentToolCall]. *)
Record Pending : Type := mkPending {
  pending_index : Z;
  pending_id : string;
  pending_name : string;
  pending_arguments : string
}.

Record State : Type := mkState {
  outputText : string;
  toolCalls : list ToolCall;
  currentToolCall : option Pending;
  streamed : list string;
  errors : list string
}.

Definition initial : State := mkState EmptyString [] None [] [].

(** [s || ''] *)
Definition orEmpty (s : option string) : string :=
  match s with Some x => x | None => EmptyString end.

Section Aggregator.

(** [JSON.parse]: the parsed value, or the rendering of the SyntaxError it
    throws. *)
Variable jsonParse : string -> string + JSVal.

(** The [try { toolCalls.push(...) } catch (e) { logger.error(...) }] that
    finalizes a pending call. *)
Definition finalize (c : Pending) (st : State) : State :=
  match jsonParse (pending_arguments c) with
  | inr v =>
      mkState (outputText st)
        (toolCalls st
         ++ [mkToolCall (pending_id c) (pending_name c) v])
        (currentToolCall st) (streamed st) (errors st)
  | inl e =>
      mkState (outputText st) (toolCalls st) (currentToolCall st)
        (streamed st)
        (errors st ++ ["Failed to parse tool call arguments: " ++ e])
  end.

Definition setCurrent (c : option Pending) (st : State) : State :=
  mkState (outputText st) (toolCalls st) c (streamed st) (errors st).

(** The body of [for (const toolCallDelta of delta.tool_calls)]. *)
Definition stepDelta (st : State) (d : ToolCallDelta) : State :=
  match index d with
  | None => st
  | Some i =>
      let opened :=
        mkPending i (orEmpty (delta_id d)) (orEmpty (function_name d))
          (orEmpty (function_arguments d)) in
      match currentToolCall st with
      | None => setCurrent (Some opened) st
      | Some c =>
          if negb (i =? pending_index c) then
            setCurrent (Some opened) (finalize c st)
          else
            setCurrent
              (Some (mkPending (pending_index c)
                       (pending_id c ++ orEmpty (delta_id d))
                       (pending_name c ++ orEmpty (function_name d))
                       (pending_arguments c
                        ++ orEmpty (function_arguments d))))
              st
      end
  end.

Definition stepContent (st : State) (content : option string) : State :=
  match content with
  | Some text =>
      if String.eqb text EmptyString then st
      else mkState (outputText st ++ text) (toolCalls st)
             (currentToolCall st) (streamed st ++ [text]) (errors st)
  | None => st
  end.

Definition stepChunk (st : State) (chunk : Chunk) : State :=
  let st := stepContent st (delta_content chunk) in
  match delta_tool_calls chunk with
  | Some deltas => fold_left stepDelta deltas st
  | None => st
  end.

Definition finishes (chunk : Chunk) : bool :=
  match finish_reason chunk with
  | Some r => String.eqb r "stop" || String.eqb r "tool_calls"
  | None => false
  end.

(** [for await (const chunk of stream) { ...; if (finished) break; }]. *)
Fixpoint consume (st : State) (stream : list Chunk) : State :=
  match stream with
  | [] => st
  | chunk :: rest =>
      let st := stepChunk st chunk in
      if finishes chunk then st else consume st rest
  end.

(** The "Finalize last tool call if any" step after the loop. *)
Definition finalizeLast (st : State) : State :=
  match currentToolCall st with
  | Some c => finalize c st
  | None => st
  end.

(** The stream handling of [LLM.call]: its result is
    [[outputText, toolCalls]] of the final state. *)
Definition call (stream : list Chunk) : State :=
  finalizeLast (consume initial stream).

End Aggregator.

End Agent.

(** ** A reference JSON reader

    [JSON.parse] is a builtin and the aggregator is parametric in it; the
    examples run with this reader of the JSON texts made of objects, arrays,
    strings without escapes, integers and the three literals. *)

Module Json.
Import JS.

Definition skipWs (s : string) : string := trimStart s.

(** Characters of a string up to the closing quote. *)
Fixpoint readString (s : string) : option (string * string) :=
  match s with
  | EmptyString => None
  | String c r =>
      if Ascii.eqb c (ascii_of_nat 34) then Some (EmptyString, r)
      else if Ascii.eqb c (ascii_of_nat 92) then None
      else let? (t, rest) := readString r in Some (String c t, rest)
  end.

Definition readLiteral (lit : string) (v : JSVal) (s : string)
  : option (JSVal * string) :=
  if String.prefix lit s
  then Some (v, String.substring (String.length lit)
                  (String.length s - String.length lit) s)
  else None.

Definition readNumber (s : string) : option (JSVal * string) :=
  match s with
  | String c r =>
      if Ascii.eqb c "-" then
        let (ds, rest) := DateFormat.spanDigits r in
        if String.eqb ds EmptyString then None
        else Some (numZ (- JSDate.digitsValue ds), rest)
      else
        let (ds, rest) := DateFormat.spanDigits s in
        if String.eqb ds EmptyString then None
        else Some (numZ (JSDate.digitsValue ds), rest)
  | EmptyString => None
  end.

(** Values, then the tails of arrays and objects after their first
    element; [fuel] bounds the nesting and the number of elements. *)
Fixpoint readValue (fuel : nat) (s : string) : option (JSVal * string) :=
  match fuel with
  | O => None
  | S fuel' =>
      let readItems :=
        fix readItems (n : nat) (acc : list JSVal) (s : string)
          : option (JSVal * string) :=
          match n with
          | O => None
          | S n' =>
              let? (v, r) := readValue fuel' s in
              match skipWs r with
              | String c r' =>
                  if Ascii.eqb c "," then readItems n' (acc ++ [v])%list r'
                  else if Ascii.eqb c "]" then Some (JArray (acc ++ [v])%list, r')
                  else None
              | EmptyString => None
              end
          end in
      let readMembers :=
        fix readMembers (n : nat) (acc : list (string * JSVal)) (s : string)
          : option (JSVal * string) :=
          match n with
          | O => None
          | S n' =>
              match skipWs s with
              | String q r0 =>
                  if Ascii.eqb q (ascii_of_nat 34) then
                    let? (k, r1) := readString r0 in
                    match skipWs r1 with
                    | String c r2 =>
                        if Ascii.eqb c ":" then
                          let? (v, r3) := readValue fuel' r2 in
                          match skipWs r3 with
                          | String c' r4 =>
                              if Ascii.eqb c' "," then
                                readMembers n' (setField k v acc) r4
                              else if Ascii.eqb c' "}" then
                                Some (JObject (setField k v acc), r4)
                              else None
                          | EmptyString => None
                          end
                        else None
                    | EmptyString => None
                    end
                  else None
              | EmptyString => None
              end
          end in
      match skipWs s with
      | EmptyString => None
      | String c r =>
          if Ascii.eqb c "{" then
            match skipWs r with
            | String c' r' =>
                if Ascii.eqb c' "}" then Some (JObject [], r')
                else readMembers fuel' [] r
            | EmptyString => None
            end
          else if Ascii.eqb c "[" then
            match skipWs r with
            | String c' r' =>
                if Ascii.eqb c' "]" then Some (JArray [], r')
                else readItems fuel' [] r
            | EmptyString => None
            end
          else if Ascii.eqb c (ascii_of_nat 34) then
            let? (t, rest) := readString r in Some (JString t, rest)
          else if Ascii.eqb c "t" then readLiteral "true" (JBool true) (String c r)
          else if Ascii.eqb c "f" then readLiteral "false" (JBool false) (String c r)
          else if Ascii.eqb c "n" then readLiteral "null" JNull (String c r)
          else readNumber (String c r)
      end
  end.

Definition parse (s : string) : string + JSVal :=
  match readValue (S (String.length s)) s with
  | Some (v, rest) =>
      match skipWs rest with
      | EmptyString => inr v
      | _ => inl "SyntaxError: Unexpected non-whitespace character after JSON"
      end
  | None => inl "SyntaxError: Unexpected token or end of JSON input"
  end.

End Json.

(** ** The aggregator, as runs of fragments

    A second description of what [Agent.call] returns, to be compared with
    the loop above: the fragments that the loop reads are cut into maximal
    runs of consecutive fragments with the same slot index, and every run
    whose joined argument text parses is one completed request. *)

Module AgentSpec.
Import JS Tools Agent.

(** The chunks that the loop reads: up to and including the first one that
    carries a finishing reason. *)
Fixpoint consumed (stream : list Chunk) : list Chunk :=
  match stream with
  | [] => []
  | chunk :: rest =>
      if finishes chunk then [chunk] else chunk :: consumed rest
  end.

(** A fragment with a slot index, as the slot it would open. *)
Definition fragment (d : ToolCallDelta) : list Pending :=
  match index d with
  | Some i =>
      [mkPending i (orEmpty (delta_id d)) (orEmpty (function_name d))
         (orEmpty (function_arguments d))]
  | None => []
  end.

Definition chunkFragments (chunk : Chunk) : list Pending :=
  match delta_tool_calls chunk with
  | Some deltas => flat_map fragment deltas
  | None => []
  end.

Definition fragments (stream : list Chunk) : list Pending :=
  flat_map chunkFragments (consumed stream).

(** Concatenation of two pieces of the same slot, in arrival order. *)
Definition join (a b : Pending) : Pending :=
  mkPending (pending_index a) (pending_id a ++ pending_id b)
    (pending_name a ++ pending_name b)
    (pending_arguments a ++ pending_arguments b).

(** Maximal runs of consecutive fragments with the same slot index, each
    joined into one piece. *)
Fixpoint groupRuns (l : list Pending) : list Pending :=
  match l with
  | [] => []
  | p :: r =>
      match groupRuns r with
      | q :: rs =>
          if pending_index p =? pending_index q then join p q :: rs
          else p :: q :: rs
      | [] => [p]
      end
  end.

Section Requests.

Variable jsonParse : string -> string + JSVal.

(** The request of a run, when its argument text parses. *)
Definition completed (c : Pending) : list ToolCall :=
  match jsonParse (pending_arguments c) with
  | inr v => [mkToolCall (pending_id c) (pending_name c) v]
  | inl _ => []
  end.

Definition requests (runs : list Pending) : list ToolCall :=
  flat_map completed runs.

(** The report of a run whose argument text does not parse. *)
Definition reported (c : Pending) : list string :=
  match jsonParse (pending_arguments c) with
  | inr _ => []
  | inl e => ["Failed to parse tool call arguments: " ++ e]
  end.

End Requests.

(** The slot that is still open in a state, as a list. *)
Definition pendingList (st : State) : list Pending :=
  match currentToolCall st with Some c => [c] | None => [] end.

(** All the fragments of one slot, whatever lies between them. *)
Definition slotFragments (i : Z) (l : list Pending) : list Pending :=
  filter (fun p => pending_index p =? i) l.

Definition joinAll (i : Z) (l : list Pending) : Pending :=
  fold_left join l (mkPending i EmptyString EmptyString EmptyString).

End AgentSpec.

(** ** Effects of a computation

    What a computation may do to the world: nothing at all, or nothing but
    reading the clock. *)

Module EffectSpec.
Import JS Effects Tools.

Definition pureEff {A : Type} (c : Eff A) : Prop :=
  forall w, snd (c w) = w.

Definition quiet {A : Type} (c : Eff A) : Prop :=
  forall w, trace (snd (c w)) = trace w.

(** The outcome of a dispatch that threw and made no call, from the world
    [w0]. *)
Definition rejected {A : Type} (w0 : World) (r : (JSError + A) * World)
  : Prop :=
  exists e w', r = (inl e, w') /\ trace w' = trace w0.

(** A value that [validateString] accepts. *)
Definition okString (v : JSVal) : Prop := nullish v = true \/ isString v = true.

(** A value that [validateEmailArray] accepts. *)
Definition okEmails (v : JSVal) : Prop :=
  nullish v = true
  \/ exists items, v = JArray items
       /\ Forall (fun e => exists s, e = JString s /\ emailRegex s = true)
            items.

(** A property name that is not an array index. *)
Definition namedKey (k : string) : Prop :=
  match k with
  | String c _ => JSDate.isDigit c = false
  | EmptyString => True
  end.

(** The property names of an object are distinct. *)
Definition distinctKeys (v : JSVal) : Prop :=
  match v with
  | JObject fields => NoDup (map fst fields)
  | _ => True
  end.

(** A value printed by [toISOString]. *)
Definition produced (v : JSVal) : Prop :=
  exists t, v = JString (JSDate.toISOString t).

(** [start.dateTime] and [end.dateTime] of the request body. *)
Definition bodyStamp (params : list (string * JSVal)) (side : string)
  : JSVal :=
  prop (prop (lookup "requestBody" params) side) "dateTime".

(** The timestamps of a request are printed by [toISOString]; a bound of a
    list query may also be a falsy value when [lenient], and a side of an
    update may be absent. *)
Definition goodCall (lenient : bool) (c : BackendCall) : Prop :=
  match c with
  | CallEventsList params =>
      (produced (lookup "timeMin" params)
       \/ (lenient = true /\ truthy (lookup "timeMin" params) = false))
      /\ (produced (lookup "timeMax" params)
          \/ (lenient = true /\ truthy (lookup "timeMax" params) = false))
  | CallEventsInsert params =>
      produced (bodyStamp params "start") /\ produced (bodyStamp params "end")
  | CallEventsUpdate params =>
      (produced (bodyStamp params "start")
       \/ prop (lookup "requestBody" params) "start" = JUndefined)
      /\ (produced (bodyStamp params "end")
          \/ prop (lookup "requestBody" params) "end" = JUndefined)
  | _ => True
  end.

(** The sides of the update object while it is being filled. *)
Definition sidesOk (o : list (string * JSVal)) : Prop :=
  (produced (prop (lookup "start" o) "dateTime")
   \/ lookup "start" o = JUndefined)
  /\ (produced (prop (lookup "end" o) "dateTime")
      \/ lookup "end" o = JUndefined).

(** A bound of the list query, in the options that the tool passes. *)
Definition boundOk (k : string) (o : list (string * JSVal)) : Prop :=
  produced (lookup k o) \/ truthy (lookup k o) = false.

(** Every call that [c] adds to the trace satisfies [Q], and every value
    that [c] returns satisfies [P]. *)
Definition emits {A : Type} (Q : BackendCall -> Prop) (c : Eff A)
    (P : A -> Prop) : Prop :=
  forall w,
    (exists new, trace (snd (c w)) = (trace w ++ new)%list /\ Forall Q new)
    /\ (forall x, fst (c w) = inr x -> P x).

(** A value that the normalizer rejects whatever the clock reads. *)
Definition unnormalizable (h : JSDate.Host) (v : JSVal) (k : string) : Prop :=
  forall w, exists e w', DateFormat.normalizeDateTime h v k w = (inl e, w').

(** The date and time arguments of each tool, and whether the tool
    normalizes them even when they are falsy. *)
Definition timestampArgs (name : string) : list (string * bool) :=
  if String.eqb name "get_events_in_time_range" then
    [("timeMin", false); ("timeMax", false)]
  else if String.eqb name "create_event" then
    [("startDateTime", true); ("endDateTime", true)]
  else if String.eqb name "create_quick_event" then
    [("startDateTime", true)]
  else if String.eqb name "update_event" then
    [("startDateTime", false); ("endDateTime", false)]
  else if String.eqb name "check_conflicts" then
    [("startTime", true); ("endTime", true)]
  else if String.eqb name "find_free_time" then
    [("startDate", true); ("endDate", true)]
  else [].

End EffectSpec.

(** ** Intervals of time

    The vocabulary in which the two interval computations are specified:
    the instants of an event, the instants that a list of busy intervals
    covers, and the spans of time that it leaves free. *)

Module IntervalSpec.
Import JS JSDate Effects GoogleTools.

(** [event.start?.dateTime || event.start?.date], for either side. *)
Definition instantOf (event : JSVal) (side : string) : JSVal :=
  orElse (prop (prop event side) "dateTime") (prop (prop event side) "date").

(** The event has a start and an end value, at the instants [es] and
    [ee]. *)
Definition eventInterval (h : Host) (event : JSVal) (es ee : Z) : Prop :=
  truthy (instantOf event "start") = true
  /\ truthy (instantOf event "end") = true
  /\ dateOf h (instantOf event "start") = Some es
  /\ dateOf h (instantOf event "end") = Some ee.

(** The test of the filter, on the two instants of an event. *)
Definition overlaps (h : Host) (startTime endTime : string) (event : JSVal)
  : bool :=
  truthy (instantOf event "start") && truthy (instantOf event "end")
  && dateLt (parse h startTime) (dateOf h (instantOf event "end"))
  && dateLt (dateOf h (instantOf event "start")) (parse h endTime).

(** A busy interval [[s, e)] as the slot that the sweep reads. *)
Definition busySlot (i : Z * Z) : BusySlot :=
  mkBusy (Some (fst i)) (Some (snd i)).

Definition isBusy (busy : list (Z * Z)) (x : Z) : Prop :=
  exists s e, In (s, e) busy /\ s <= x < e.

(** No instant of [[a, b)] is busy. *)
Definition freeSpan (busy : list (Z * Z)) (a b : Z) : Prop :=
  forall x, a <= x < b -> ~ isBusy busy x.

(** Slots in increasing order, each ending before the next starts. *)
Fixpoint separated (slots : list FreeSlot) : Prop :=
  match slots with
  | [] => True
  | (_, b) :: rest =>
      match rest with
      | [] => True
      | (a', _) :: _ => b <= a' /\ separated rest
      end
  end.

Definition validTime (t : Z) : Prop := Z.abs t <= maxTime.

Definition validInterval (i : Z * Z) : Prop :=
  validTime (fst i) /\ validTime (snd i).

(** The order in which the busy intervals are swept. *)
Definition byStart (x y : Z * Z) : Prop := fst x <= fst y.

(** The step after the loop, on the state that the loop leaves. *)
Definition lastGap (end_ dur : Z) (st : option Z * list FreeSlot)
  : list FreeSlot :=
  let (currentTime, freeSlots) := st in
  if dateLt currentTime (Some end_) then
    if spanAtLeast currentTime (Some end_) (Some dur)
    then pushSlot currentTime (Some end_) freeSlots
    else freeSlots
  else freeSlots.

(** The sweep on intervals of valid times: the gaps that are at least
    [dur] long, from [cur] on. *)
Fixpoint gaps (end_ dur : Z) (busy : list (Z * Z)) (cur : Z)
  : list FreeSlot :=
  match busy with
  | [] =>
      if (cur <? end_) && (dur <=? end_ - cur) then [(cur, end_)] else []
  | (s, e) :: rest =>
      (if (cur <? s) && (dur <=? Z.min s end_ - cur)
       then [(cur, Z.min s end_)] else [])
      ++ gaps end_ dur rest (Z.max cur e)
  end.

(** Insertion of an interval by its start, after the intervals that do
    not start later. *)
Fixpoint insertByStart (x : Z * Z) (l : list (Z * Z)) : list (Z * Z) :=
  match l with
  | [] => [x]
  | y :: r => if fst y <? fst x then y :: insertByStart x r else x :: y :: r
  end.

Definition sortByStart (l : list (Z * Z)) : list (Z * Z) :=
  fold_right insertByStart [] l.

End IntervalSpec.

(** ** The hosts and collaborators of the examples *)

Module Examples.
Import JS JSDate Effects DateFormat Tools Agent.

(** A host in the UTC zone whose clock stands at 2023-11-14T22:13:20Z. *)
Definition utcHost : Host :=
  mkHost (fun _ _ => 0) (fun _ => None) (fun _ => 1700000000000) "UTC"
    (fun _ => "NaN").

(** A host five hours behind UTC. *)
Definition westHost : Host :=
  mkHost (fun _ _ => -18000000) (fun _ => None) (fun _ => 1700000000000)
    "America/Bogota" (fun _ => "NaN").

Definition start : World := mkWorld 0 [].

(** A calendar that holds the given events and accepts every write. *)
Definition calendarOf (events : list JSVal) : Backend :=
  mkBackend (fun _ => inr "STDOUT:")
    (fun c =>
       match c with
       | CallEventsList _ | CallCalendarList _ =>
           inr (JObject [("items", JArray events)])
       | _ => inr (JObject [("id", JString "event_1")])
       end).

Definition presenter : Presenter :=
  mkPresenter (fun e => inr (toStr utcHost (prop e "summary")))
    (fun t => match t with Some v => toISOString v | None => "Invalid Date" end).

Definition user : option OAuth2Client := Some (oauth2Client "token").

Definition timedEvent (summary startTime endTime : string) : JSVal :=
  JObject [("summary", JString summary);
           ("start", JObject [("dateTime", JString startTime)]);
           ("end", JObject [("dateTime", JString endTime)])].

Definition q : string := String (ascii_of_nat 34) EmptyString.

Definition frag (i : Z) (callId fn : option string) (text : string)
  : ToolCallDelta :=
  mkDelta (Some i) callId fn (Some text).

Definition chunkOf (d : ToolCallDelta) : Chunk := mkChunk None (Some [d]) None.

(** One call split across three fragments, then a second call. *)
Definition sequentialStream : list Chunk :=
  [chunkOf (frag 0 (Some "call_a") (Some "bash") ("{" ++ q ++ "command" ++ q));
   chunkOf (frag 0 None None (":" ++ q ++ "ls"));
   chunkOf (frag 0 None None (q ++ "}"));
   chunkOf (frag 1 (Some "call_b") (Some "get_calendars") "{");
   mkChunk None (Some [frag 1 None None "}"]) (Some "tool_calls")].

(** The same fragments, with the second call starting between the
    fragments of the first. *)
Definition interleavedStream : list Chunk :=
  [chunkOf (frag 0 (Some "call_a") (Some "bash") ("{" ++ q ++ "command" ++ q));
   chunkOf (frag 1 (Some "call_b") (Some "get_calendars") "{");
   chunkOf (frag 0 None None (":" ++ q ++ "ls"));
   chunkOf (frag 0 None None (q ++ "}"));
   mkChunk None (Some [frag 1 None None "}"]) (Some "tool_calls")].

(** A stream that stops while the arguments of its second call are
    incomplete. *)
Definition truncatedStream : list Chunk :=
  [chunkOf (frag 0 (Some "call_a") (Some "get_calendars") "{}");
   mkChunk None (Some [frag 1 (Some "call_b") (Some "bash") "{"])
     (Some "stop");
   chunkOf (frag 1 None None "}")].

End Examples.

(** ** Vocabulary of further properties *)

Module ExtraSpec.
Import JS JSDate Effects DateFormat Tools.

(** The length in milliseconds of the units of a relative expression
    such as "in 2 hours". *)
Definition unitMs (unit : string) : Z :=
  if String.eqb unit "minute" || String.eqb unit "minutes" then msPerMinute
  else if String.eqb unit "hour" || String.eqb unit "hours" then msPerHour
  else if String.eqb unit "day" || String.eqb unit "days" then msPerDay
  else if String.eqb unit "week" || String.eqb unit "weeks" then 7 * msPerDay
  else 0.

(** The world after one reading of the clock. *)
Definition afterClock (w : World) : World := mkWorld (S (tick w)) (trace w).

(** A string without white space. *)
Fixpoint noSpace (s : string) : bool :=
  match s with
  | EmptyString => true
  | String c r => negb (isSpace c) && noSpace r
  end.

(** The text that [handleToolCall] reports for an [Error] with the message
    [msg]: a message that contains "googleapis" is taken for an error of the
    calendar service. *)
Definition reportOf (msg : string) : string :=
  if includes "googleapis" msg
  then "Google Calendar API error (unknown): " ++ msg
  else msg.

Definition errorMessage (toolCall : ToolCall) (msg : string) : Message :=
  mkMessage "tool" (id toolCall)
    ("Error executing " ++ name toolCall ++ ": " ++ reportOf msg).

(** A value that [validateInteger] accepts with the lower bound [lo] and
    no upper bound. *)
Definition okInteger (lo : Z) (v : JSVal) : Prop :=
  nullish v = true \/ exists n, v = numZ n /\ lo <= n.

(** The properties with a truthy value. *)
Definition supplied (fields : list (string * JSVal)) : list (string * JSVal) :=
  filter (fun kv => truthy (snd kv)) fields.

(** The attendees of a request body, from a list of addresses. *)
Definition attendeeList (attendees : JSVal) : JSVal :=
  match attendees with
  | JArray items => JArray (map (fun email => JObject [("email", email)]) items)
  | _ => JUndefined
  end.

(** An event with a start time and an end time (not an all-day event). *)
Definition hasTimes (event : JSVal) : bool :=
  truthy (prop (prop event "start") "dateTime")
  && truthy (prop (prop event "end") "dateTime").

(** Characters that are neither white space nor [@], and the strings made
    of them. *)
Definition wordChar (c : ascii) : bool := negb (isSpace c || Ascii.eqb c "@").

Fixpoint word (s : string) : bool :=
  match s with
  | EmptyString => true
  | String c r => wordChar c && word r
  end.

(** The strings [local@a.b] whose three parts are not empty and hold no
    white space and no [@] (the parts may hold dots). *)
Definition emailShape (s : string) : Prop :=
  exists local a b,
    s = (local ++ "@" ++ a ++ "." ++ b)%string
    /\ word local = true /\ word a = true /\ word b = true
    /\ local <> EmptyString /\ a <> EmptyString /\ b <> EmptyString.

(** An element that [validateEmailArray] accepts. *)
Definition validEmail (e : JSVal) : Prop :=
  exists s, e = JString s /\ emailRegex s = true.

(** A value that [validateInteger] accepts with the bounds [lo] and [hi]. *)
Definition okIntegerIn (lo hi : Z) (v : JSVal) : Prop :=
  nullish v = true \/ exists n, v = numZ n /\ lo <= n <= hi.

(** A string in which the character [x] does not occur. *)
Fixpoint lacks (x : ascii) (s : string) : bool :=
  match s with
  | EmptyString => true
  | String c r => negb (Ascii.eqb c x) && lacks x r
  end.

(** The parameters of a list request before the options of the caller are
    written over them. *)
Definition listDefaults (now : Z) : list (string * JSVal) :=
  [("calendarId", JString "primary");
   ("maxResults", numZ 10);
   ("timeMin", JString (JSDate.toISOString now));
   ("singleEvents", JBool true);
   ("orderBy", JString "startTime")].

(** The pieces of text of a list, one after the other. *)
Definition joinText (l : list string) : string :=
  fold_right (fun a b => (a ++ b)%string) EmptyString l.

(** The text that a chunk carries, when it carries some. *)
Definition chunkText (chunk : Agent.Chunk) : list string :=
  match Agent.delta_content chunk with
  | Some text => if String.eqb text EmptyString then [] else [text]
  | None => []
  end.

(** The tools that work on the calendar. *)
Definition calendarTools : list string :=
  ["get_events_in_time_range"; "create_event"; "create_quick_event";
   "update_event"; "delete_event"; "check_conflicts"; "find_free_time";
   "get_calendars"].

End ExtraSpec.

(** ** More of the string builtins *)

Module JSText.
Import JS.

Definition newline : ascii := ascii_of_nat 10.

(** [s.split('\n')]: never empty; the empty string gives one empty line. *)
Fixpoint split (s : string) : list string :=
  match s with
  | EmptyString => [EmptyString]
  | String c r =>
      if Ascii.eqb c newline then EmptyString :: split r
      else
        match split r with
        | line :: lines => String c line :: lines
        | [] => [String c EmptyString]
        end
  end.

(** [lines.join('\n')]. *)
Definition join (lines : list string) : string :=
  String.concat (String newline EmptyString) lines.

(** [s.endsWith('\n')]. *)
Fixpoint endsWithNewline (s : string) : bool :=
  match s with
  | EmptyString => false
  | String c EmptyString => Ascii.eqb c newline
  | String _ r => endsWithNewline r
  end.

(** [s.split('@')[0]]: what precedes the first [@]. *)
Fixpoint beforeAt (s : string) : string :=
  match s with
  | EmptyString => EmptyString
  | String c r => if Ascii.eqb c "@" then EmptyString else String c (beforeAt r)
  end.

End JSText.

(** ** logger.ts: the display of a tool result

    The colours of [chalk] and the symbol of the tool are presentation:
    the header of a tool, the style of the content and the styled notice
    are given. *)

Module Logger.
Import JSText.

Record Styles : Type := mkStyles {
  header : string -> string;
  content : string -> string;
  notice : string
}.

Definition maxLength : nat := 300.
Definition maxLines : nat := 5.

(** The truncation by length. *)
Definition clip (result : string) : string :=
  if Nat.ltb maxLength (String.length result)
  then (String.substring 0 maxLength result ++ "...")%string
  else result.

(** [displayResult] after both truncations. *)
Definition displayResult (result : string) : string :=
  let lines := split (clip result) in
  if Nat.ltb maxLines (List.length lines)
  then (join (firstn maxLines lines) ++ String newline "...")%string
  else clip result.

Definition truncated (result : string) : bool :=
  Nat.ltb maxLength (String.length result)
  || Nat.ltb maxLines (List.length (split (clip result))).

(** The lines that [toolResult] writes to the console. *)
Definition toolResult (st : Styles) (toolName result : string) : list string :=
  ([header st toolName; content st (displayResult result)]
   ++ (if truncated result then [notice st] else [])
   ++ [EmptyString])%list.

End Logger.

(** ** cli-helpers.ts: the API key in the [.env] file *)

Module EnvFile.
Import JSText.

Definition keyPrefix : string := "ECHO_API_KEY=".

(** [line && line.startsWith('ECHO_API_KEY=')]. *)
Definition isKeyLine (line : string) : bool := String.prefix keyPrefix line.

(** The loop that replaces the first line of the key; [None] when no line
    is one. *)
Fixpoint replaceFirst (apiKey : string) (lines : list string)
  : option (list string) :=
  match lines with
  | [] => None
  | line :: rest =>
      if isKeyLine line then Some ((keyPrefix ++ apiKey)%string :: rest)
      else
        match replaceFirst apiKey rest with
        | Some rest' => Some (line :: rest')
        | None => None
        end
  end.

(** The content that [writeApiKeyToEnv] writes, from the content of the
    file when it exists. *)
Definition writeApiKeyToEnv (apiKey : string) (file : option string) : string :=
  let envContent := match file with Some c => c | None => EmptyString end in
  let lines := split envContent in
  match replaceFirst apiKey lines with
  | Some lines' => join lines'
  | None =>
      let lines :=
        if negb (String.eqb envContent EmptyString)
           && negb (endsWithNewline envContent)
        then (lines ++ [EmptyString])%list else lines in
      join (lines ++ [(keyPrefix ++ apiKey)%string])%list
  end.

(** A string that holds no line break. *)
Fixpoint oneLine (s : string) : bool :=
  match s with
  | EmptyString => true
  | String c r => negb (Ascii.eqb c newline) && oneLine r
  end.

End EnvFile.

(** * Properties *)

#[local] Open Scope string_scope.
#[local] Open Scope list_scope.
#[local] Open Scope Z_scope.

(** * Strings of digits *)

Module DigitFacts.
Import JSDate.

#[local] Open Scope string_scope.

Lemma app_assoc_s (a b c : string) : ((a ++ b) ++ c = a ++ (b ++ c))%string.
Proof. induction a as [|x a IH]; simpl; [reflexivity | now rewrite IH]. Qed.

Lemma app_nil_s (a : string) : (a ++ EmptyString = a)%string.
Proof. induction a as [|x a IH]; simpl; [reflexivity | now rewrite IH]. Qed.

Lemma length_app_s (a b : string) :
  String.length (a ++ b) = (String.length a + String.length b)%nat.
Proof. induction a as [|x a IH]; simpl; [reflexivity | now rewrite IH]. Qed.

Lemma digit_cases (d : Z) :
  0 <= d <= 9 ->
  d = 0 \/ d = 1 \/ d = 2 \/ d = 3 \/ d = 4 \/ d = 5 \/ d = 6 \/ d = 7
  \/ d = 8 \/ d = 9.
Proof. lia. Qed.

Lemma digitChar_ok (d : Z) :
  0 <= d <= 9 -> isDigit (digitChar d) = true /\ digitVal (digitChar d) = d.
Proof.
  intros H. destruct (digit_cases d H) as [->|[->|[->|[->|[->|[->|[->|[->|[->| ->]]]]]]]]];
    split; reflexivity.
Qed.

Lemma digitChar_mod (n : Z) :
  isDigit (digitChar (n mod 10)) = true
  /\ digitVal (digitChar (n mod 10)) = n mod 10.
Proof. apply digitChar_ok. pose proof (Z.mod_pos_bound n 10). lia. Qed.

Lemma allDigits_app (a b : string) :
  allDigits (a ++ b) = allDigits a && allDigits b.
Proof.
  induction a as [|x a IH]; simpl; [reflexivity|].
  now rewrite IH, andb_assoc.
Qed.

Lemma allDigits_pad (w : nat) : forall n, allDigits (pad w n) = true.
Proof.
  induction w as [|w IH]; intros n; [reflexivity|].
  simpl. rewrite allDigits_app, IH. simpl.
  now rewrite (proj1 (digitChar_mod n)).
Qed.

Lemma length_pad (w : nat) : forall n, String.length (pad w n) = w.
Proof.
  induction w as [|w IH]; intros n; [reflexivity|].
  simpl. rewrite length_app_s, IH. simpl. lia.
Qed.

Lemma digitsValueFrom_app (a b : string) :
  forall acc, digitsValueFrom acc (a ++ b)
              = digitsValueFrom (digitsValueFrom acc a) b.
Proof. induction a as [|x a IH]; intros acc; simpl; [reflexivity | apply IH]. Qed.

Lemma digitsValueFrom_pad (w : nat) :
  forall n acc, 0 <= n ->
  digitsValueFrom acc (pad w n) = acc * 10 ^ Z.of_nat w + n mod 10 ^ Z.of_nat w.
Proof.
  induction w as [|w IH]; intros n acc N.
  - simpl. rewrite Z.mod_1_r. lia.
  - cbn [pad]. rewrite digitsValueFrom_app, IH by (apply Z.div_pos; lia).
    cbn [digitsValueFrom]. rewrite (proj2 (digitChar_mod n)).
    rewrite Nat2Z.inj_succ, Z.pow_succ_r by lia.
    set (p := 10 ^ Z.of_nat w).
    assert (P : 0 < p) by (apply Z.pow_pos_nonneg; lia).
    rewrite Z.rem_mul_r by lia.
    lia.
Qed.

Lemma digitsValue_pad (w : nat) (n : Z) :
  0 <= n < 10 ^ Z.of_nat w -> digitsValue (pad w n) = n.
Proof.
  intros N. unfold digitsValue. rewrite digitsValueFrom_pad by lia.
  rewrite Z.mod_small by lia. lia.
Qed.

Lemma takeDigits_app (ds : string) :
  forall rest, allDigits ds = true ->
  takeDigits (String.length ds) (ds ++ rest) = Some (ds, rest).
Proof.
  induction ds as [|c ds IH]; intros rest A; [reflexivity|].
  simpl in A. apply andb_true_iff in A as [C A].
  simpl. now rewrite C, IH.
Qed.

Lemma takeDigits_pad (w : nat) (n : Z) (rest : string) :
  takeDigits w (pad w n ++ rest) = Some (pad w n, rest).
Proof.
  rewrite <- (length_pad w n) at 1. apply takeDigits_app, allDigits_pad.
Qed.

(** What [takeDigits] returns. *)
Lemma takeDigits_spec (w : nat) :
  forall s ds rest, takeDigits w s = Some (ds, rest) ->
  s = (ds ++ rest)%string /\ allDigits ds = true /\ String.length ds = w.
Proof.
  induction w as [|w IH]; intros s ds rest H.
  - simpl in H. inversion H; subst. now repeat split.
  - simpl in H. destruct s as [|c r]; [discriminate|].
    destruct (isDigit c) eqn:C; [|discriminate].
    destruct (takeDigits w r) as [[ds' rest']|] eqn:T; [|discriminate].
    inversion H; subst. destruct (IH _ _ _ T) as (-> & A & L).
    simpl. rewrite C, A, L. now repeat split.
Qed.

Lemma pad_head (w : nat) (n : Z) :
  exists c r, pad (S w) n = String c r /\ isDigit c = true.
Proof.
  pose proof (allDigits_pad (S w) n) as A.
  pose proof (length_pad (S w) n) as L.
  destruct (pad (S w) n) as [|c r]; [discriminate|].
  simpl in A. apply andb_true_iff in A as [C _]. eauto.
Qed.

Lemma isDigit_not_sign (c : ascii) :
  isDigit c = true -> Ascii.eqb c "+" = false /\ Ascii.eqb c "-" = false.
Proof.
  intros D. split.
  - destruct (Ascii.eqb_spec c "+") as [->|]; [discriminate|reflexivity].
  - destruct (Ascii.eqb_spec c "-") as [->|]; [discriminate|reflexivity].
Qed.

End DigitFacts.

(** * Time values *)

Module JSDateFacts.
Import JSDate DigitFacts.

Lemma isLeap_spec (y : Z) :
  isLeap y = true <-> (y mod 4 = 0 /\ y mod 100 <> 0) \/ y mod 400 = 0.
Proof.
  unfold isLeap.
  rewrite orb_true_iff, andb_true_iff, negb_true_iff, !Z.eqb_eq, Z.eqb_neq.
  tauto.
Qed.

Lemma DayFromYear_succ (y : Z) :
  DayFromYear (y + 1) = DayFromYear y + DaysInYear y.
Proof.
  unfold DayFromYear, DaysInYear.
  destruct (isLeap y) eqn:L.
  - apply isLeap_spec in L. Z.div_mod_to_equations; lia.
  - assert (N : ~ ((y mod 4 = 0 /\ y mod 100 <> 0) \/ y mod 400 = 0)).
    { rewrite <- isLeap_spec. congruence. }
    Z.div_mod_to_equations; lia.
Qed.

Lemma YearFromDay_spec (d : Z) :
  DayFromYear (YearFromDay d) <= d < DayFromYear (YearFromDay d + 1).
Proof.
  unfold YearFromDay.
  set (y := 1970 + 400 * d / 146097).
  assert (L : DayFromYear (y - 1) <= d) by (subst y; unfold DayFromYear; Z.div_mod_to_equations; lia).
  assert (U : d < DayFromYear (y + 1 + 1)) by (subst y; unfold DayFromYear; Z.div_mod_to_equations; lia).
  destruct (d <? DayFromYear y) eqn:A.
  - apply Z.ltb_lt in A. replace (y - 1 + 1) with y by lia. lia.
  - apply Z.ltb_ge in A. destruct (DayFromYear (y + 1) <=? d) eqn:B.
    + apply Z.leb_le in B. lia.
    + apply Z.leb_gt in B. lia.
Qed.

Lemma DayFromYear_mono (y1 y2 : Z) :
  y1 <= y2 -> DayFromYear y1 <= DayFromYear y2.
Proof. unfold DayFromYear. intros H. Z.div_mod_to_equations; lia. Qed.

Lemma YearFromDay_unique (y d : Z) :
  DayFromYear y <= d < DayFromYear (y + 1) -> YearFromDay d = y.
Proof.
  intros H. pose proof (YearFromDay_spec d) as S.
  destruct (Z.lt_trichotomy (YearFromDay d) y) as [L|[E|G]]; [|exact E|].
  - pose proof (DayFromYear_mono (YearFromDay d + 1) y ltac:(lia)). lia.
  - pose proof (DayFromYear_mono (y + 1) (YearFromDay d) ltac:(lia)). lia.
Qed.

Lemma DaysInYear_cases (y : Z) :
  DaysInYear y = 365 + (if isLeap y then 1 else 0).
Proof. unfold DaysInYear. now destruct (isLeap y). Qed.

Ltac split_ltb :=
  repeat match goal with
  | |- context [?a <? ?b] => destruct (Z.ltb_spec a b); try lia
  | |- context [?a <=? ?b] => destruct (Z.leb_spec a b); try lia
  | |- context [?a =? ?b] => destruct (Z.eqb_spec a b); try lia
  end.

Lemma monthStart_table (leap : Z) :
  monthStart leap 0 = 0 /\ monthStart leap 1 = 31
  /\ monthStart leap 2 = 59 + leap /\ monthStart leap 3 = 90 + leap
  /\ monthStart leap 4 = 120 + leap /\ monthStart leap 5 = 151 + leap
  /\ monthStart leap 6 = 181 + leap /\ monthStart leap 7 = 212 + leap
  /\ monthStart leap 8 = 243 + leap /\ monthStart leap 9 = 273 + leap
  /\ monthStart leap 10 = 304 + leap /\ monthStart leap 11 = 334 + leap
  /\ monthStart leap 12 = 365 + leap.
Proof. repeat split; reflexivity. Qed.

Ltac month_table leap :=
  change (0 + 1) with 1; change (1 + 1) with 2; change (2 + 1) with 3;
  change (3 + 1) with 4; change (4 + 1) with 5; change (5 + 1) with 6;
  change (6 + 1) with 7; change (7 + 1) with 8; change (8 + 1) with 9;
  change (9 + 1) with 10; change (10 + 1) with 11; change (11 + 1) with 12;
  destruct (monthStart_table leap)
    as (T0 & T1 & T2 & T3 & T4 & T5 & T6 & T7 & T8 & T9 & T10 & T11 & T12);
  rewrite ?T0, ?T1, ?T2, ?T3, ?T4, ?T5, ?T6, ?T7, ?T8, ?T9, ?T10, ?T11, ?T12.

Ltac month_cases m :=
  let C := fresh "C" in
  assert (C : m = 0 \/ m = 1 \/ m = 2 \/ m = 3 \/ m = 4 \/ m = 5 \/ m = 6
              \/ m = 7 \/ m = 8 \/ m = 9 \/ m = 10 \/ m = 11) by lia;
  repeat (destruct C as [C|C]; [subst m|]); [..|subst m].

Lemma leapOf_range (y : Z) : 0 <= leapOf y <= 1.
Proof. unfold leapOf. destruct (isLeap y); lia. Qed.

Lemma monthOfDay_range (leap d : Z) : 0 <= monthOfDay leap d <= 11.
Proof. unfold monthOfDay. split_ltb. Qed.

Lemma monthOfDay_bounds (leap d : Z) :
  0 <= leap <= 1 -> 0 <= d < 365 + leap ->
  monthStart leap (monthOfDay leap d) <= d
  < monthStart leap (monthOfDay leap d + 1).
Proof.
  intros L D. unfold monthOfDay.
  repeat match goal with
  | |- context [?a <? ?b] => destruct (Z.ltb_spec a b)
  end; month_table leap; lia.
Qed.

Lemma monthOfDay_start (leap m d : Z) :
  0 <= leap <= 1 -> 0 <= m <= 11 ->
  monthStart leap m <= d < monthStart leap (m + 1) ->
  monthOfDay leap d = m.
Proof.
  intros L M. month_cases m; month_table leap; intros D;
    unfold monthOfDay; split_ltb.
Qed.

Lemma DaysInMonth_range (y m : Z) :
  0 <= m <= 11 -> 28 <= DaysInMonth y m <= 31.
Proof.
  intros M. unfold DaysInMonth.
  pose proof (leapOf_range y) as L.
  month_cases m; month_table (leapOf y); lia.
Qed.

Lemma monthStart_year (leap m : Z) :
  0 <= leap <= 1 -> 0 <= m <= 12 -> 0 <= monthStart leap m <= 365 + leap.
Proof. intros L M. unfold monthStart. split_ltb. Qed.

Lemma monthStart_mono (leap m : Z) :
  0 <= leap <= 1 -> 0 <= m <= 11 ->
  monthStart leap m < monthStart leap (m + 1).
Proof. intros L M. month_cases m; month_table leap; lia. Qed.

(** The day number of a calendar date lies in its year. *)
Lemma MakeDay_in_year (y m d : Z) :
  0 <= m <= 11 -> 1 <= d <= DaysInMonth y m ->
  MakeDay y m d = DayFromYear y + (monthStart (leapOf y) m + d - 1)
  /\ monthStart (leapOf y) m <= monthStart (leapOf y) m + d - 1
     < monthStart (leapOf y) (m + 1)
  /\ DayFromYear y <= MakeDay y m d < DayFromYear (y + 1).
Proof.
  intros M D. unfold MakeDay.
  replace (m / 12) with 0 by (Z.div_mod_to_equations; lia).
  replace (m mod 12) with m by (Z.div_mod_to_equations; lia).
  rewrite Z.add_0_r.
  unfold DaysInMonth in D.
  pose proof (leapOf_range y) as L.
  pose proof (monthStart_year (leapOf y) m L ltac:(lia)).
  pose proof (monthStart_year (leapOf y) (m + 1) L ltac:(lia)).
  rewrite DayFromYear_succ, DaysInYear_cases. fold (leapOf y).
  repeat split; lia.
Qed.

Lemma Day_MakeDate (day time : Z) :
  0 <= time < msPerDay -> Day (MakeDate day time) = day.
Proof.
  intros T. unfold Day, MakeDate, msPerDay in *. Z.div_mod_to_equations; lia.
Qed.

Lemma TimeWithinDay_MakeDate (day time : Z) :
  0 <= time < msPerDay -> TimeWithinDay (MakeDate day time) = time.
Proof.
  intros T. unfold TimeWithinDay, MakeDate, msPerDay in *.
  Z.div_mod_to_equations; lia.
Qed.

Lemma MakeTime_range (h mi s ms : Z) :
  0 <= h <= 23 -> 0 <= mi <= 59 -> 0 <= s <= 59 -> 0 <= ms <= 999 ->
  0 <= MakeTime h mi s ms < msPerDay.
Proof.
  unfold MakeTime, msPerDay, msPerHour, msPerMinute, msPerSecond. lia.
Qed.

(** The fields of a date built from a valid calendar date and time. *)
Lemma fields_of_MakeDate (y m d h mi s ms : Z) :
  0 <= m <= 11 -> 1 <= d <= DaysInMonth y m ->
  0 <= h <= 23 -> 0 <= mi <= 59 -> 0 <= s <= 59 -> 0 <= ms <= 999 ->
  let t := MakeDate (MakeDay y m d) (MakeTime h mi s ms) in
  YearFromTime t = y /\ MonthFromTime t = m /\ DateFromTime t = d
  /\ HourFromTime t = h /\ MinFromTime t = mi /\ SecFromTime t = s
  /\ msFromTime t = ms.
Proof.
  intros M D H MI S MS t.
  pose proof (MakeTime_range h mi s ms H MI S MS) as T.
  destruct (MakeDay_in_year y m d M D) as (E & B & Y).
  assert (Dt : Day t = MakeDay y m d) by (apply Day_MakeDate; exact T).
  assert (Yt : YearFromTime t = y).
  { unfold YearFromTime. rewrite Dt. now apply YearFromDay_unique. }
  assert (Wt : DayWithinYear t = monthStart (leapOf y) m + d - 1).
  { unfold DayWithinYear. rewrite Dt, Yt. lia. }
  assert (Lt : InLeapYear t = leapOf y).
  { unfold InLeapYear. now rewrite Yt. }
  assert (Mt : MonthFromTime t = m).
  { unfold MonthFromTime. rewrite Lt, Wt.
    apply monthOfDay_start; [apply leapOf_range | exact M | exact B]. }
  split; [exact Yt|]. split; [exact Mt|].
  split; [unfold DateFromTime; rewrite Wt, Lt, Mt; lia|].
  unfold HourFromTime, MinFromTime, SecFromTime, msFromTime.
  subst t. unfold MakeDate.
  unfold MakeTime, msPerDay, msPerHour, msPerMinute, msPerSecond in *.
  repeat split; Z.div_mod_to_equations; lia.
Qed.

(** Conversely, a time value is rebuilt from its fields. *)
Lemma InLeapYear_leapOf (t : Z) : InLeapYear t = leapOf (YearFromTime t).
Proof. reflexivity. Qed.

Lemma DaysInMonth_leapOf (y m : Z) :
  DaysInMonth y m = monthStart (leapOf y) (m + 1) - monthStart (leapOf y) m.
Proof. reflexivity. Qed.

Lemma DayWithinYear_range (t : Z) :
  0 <= DayWithinYear t < 365 + leapOf (YearFromTime t).
Proof.
  pose proof (YearFromDay_spec (Day t)) as Y.
  rewrite DayFromYear_succ, DaysInYear_cases in Y.
  unfold DayWithinYear, YearFromTime, leapOf. lia.
Qed.

Lemma fields_range (t : Z) :
  0 <= MonthFromTime t <= 11
  /\ 1 <= DateFromTime t <= DaysInMonth (YearFromTime t) (MonthFromTime t)
  /\ 0 <= HourFromTime t <= 23 /\ 0 <= MinFromTime t <= 59
  /\ 0 <= SecFromTime t <= 59 /\ 0 <= msFromTime t <= 999.
Proof.
  pose proof (leapOf_range (YearFromTime t)) as L.
  pose proof (monthOfDay_bounds _ _ L (DayWithinYear_range t)) as B.
  split; [apply monthOfDay_range|].
  split.
  - rewrite DaysInMonth_leapOf. unfold DateFromTime, MonthFromTime.
    rewrite InLeapYear_leapOf. lia.
  - unfold HourFromTime, MinFromTime, SecFromTime, msFromTime,
      msPerHour, msPerMinute, msPerSecond.
    repeat split; Z.div_mod_to_equations; lia.
Qed.

Lemma MakeDate_of_fields (t : Z) :
  MakeDate (MakeDay (YearFromTime t) (MonthFromTime t) (DateFromTime t))
    (MakeTime (HourFromTime t) (MinFromTime t) (SecFromTime t) (msFromTime t))
  = t.
Proof.
  destruct (fields_range t) as (M & D & _).
  destruct (MakeDay_in_year _ _ _ M D) as (E & _ & _).
  rewrite E. unfold DateFromTime, MonthFromTime.
  rewrite InLeapYear_leapOf.
  replace (DayFromYear (YearFromTime t)
           + (monthStart (leapOf (YearFromTime t))
                (monthOfDay (leapOf (YearFromTime t)) (DayWithinYear t))
              + (DayWithinYear t
                 - monthStart (leapOf (YearFromTime t))
                     (monthOfDay (leapOf (YearFromTime t)) (DayWithinYear t))
                 + 1) - 1))
    with (Day t) by (unfold DayWithinYear; lia).
  unfold MakeDate, MakeTime, Day, HourFromTime, MinFromTime, SecFromTime,
    msFromTime, msPerDay, msPerHour, msPerMinute, msPerSecond.
  Z.div_mod_to_equations; lia.
Qed.

(** Years of the time values that [TimeClip] keeps. *)
Lemma YearFromTime_clip (t : Z) :
  Z.abs t <= maxTime -> -271821 <= YearFromTime t <= 275760.
Proof.
  intros A. pose proof (YearFromDay_spec (Day t)) as S.
  fold (YearFromTime t) in S.
  assert (B : -100000000 <= Day t <= 100000000)
    by (unfold Day, msPerDay, maxTime in *; Z.div_mod_to_equations; lia).
  split.
  - destruct (Z.le_gt_cases (-271821) (YearFromTime t)) as [G|G]; [exact G|].
    pose proof (DayFromYear_mono (YearFromTime t + 1) (-271821) ltac:(lia)) as Mo.
    assert (DayFromYear (-271821) <= -100000001) by (vm_compute; discriminate).
    lia.
  - destruct (Z.le_gt_cases (YearFromTime t) 275760) as [G|G]; [exact G|].
    pose proof (DayFromYear_mono 275761 (YearFromTime t) ltac:(lia)) as Mo.
    assert (100000001 <= DayFromYear 275761) by (vm_compute; discriminate).
    lia.
Qed.

(** ** Parsing what [toISOString] prints *)

#[local] Open Scope string_scope.
#[local] Open Scope Z_scope.

Lemma parseYear_yearString (y : Z) (rest : string) :
  -999999 <= y <= 999999 ->
  parseYear (yearString y ++ rest) = Some (y, rest).
Proof.
  intros R. unfold yearString.
  destruct ((0 <=? y) && (y <=? 9999)) eqn:C.
  - apply andb_true_iff in C as [C1 C2].
    apply Z.leb_le in C1. apply Z.leb_le in C2.
    destruct (pad_head 3 y) as (c & r & E & D).
    destruct (isDigit_not_sign c D) as (P & M).
    pose proof (takeDigits_pad 4 y rest) as T. rewrite E in *.
    cbn [append] in *. unfold parseYear. rewrite P, M, T.
    rewrite <- E, digitsValue_pad; [reflexivity|simpl; lia].
  - assert (O : y < 0 \/ 9999 < y).
    { apply andb_false_iff in C as [C|C];
        [apply Z.leb_gt in C | apply Z.leb_gt in C]; lia. }
    rewrite app_assoc_s.
    destruct (y <? 0) eqn:N.
    + apply Z.ltb_lt in N. cbn [append parseYear].
      change (Ascii.eqb "-" "+") with false. change (Ascii.eqb "-" "-") with true.
      cbn match. rewrite takeDigits_pad, digitsValue_pad by (simpl; lia).
      destruct (Z.eqb_spec (Z.abs y) 0); [lia|]. f_equal. f_equal. lia.
    + apply Z.ltb_ge in N. cbn [append parseYear].
      change (Ascii.eqb "+" "+") with true.
      cbn match. rewrite takeDigits_pad, digitsValue_pad by (simpl; lia).
      f_equal. f_equal. lia.
Qed.

Lemma parseYMD_print (y mo d : Z) (rest : string) :
  -999999 <= y <= 999999 -> 0 <= mo <= 99 -> 0 <= d <= 99 ->
  parseYMD (yearString y ++ "-" ++ pad 2 mo ++ "-" ++ pad 2 d ++ rest)
  = Some (y, mo, d, rest).
Proof.
  intros Y M D. unfold parseYMD.
  rewrite parseYear_yearString by exact Y.
  cbn [append expect]. change (Ascii.eqb "-" "-") with true. cbn match.
  rewrite takeDigits_pad. cbn [append expect].
  change (Ascii.eqb "-" "-") with true. cbn match.
  rewrite takeDigits_pad.
  now rewrite !digitsValue_pad by (simpl; lia).
Qed.

Lemma parseHMS_print (h mi s ms : Z) (rest : string) :
  0 <= h <= 99 -> 0 <= mi <= 99 -> 0 <= s <= 99 -> 0 <= ms <= 999 ->
  parseHMS (pad 2 h ++ ":" ++ pad 2 mi ++ ":" ++ pad 2 s ++ "."
            ++ pad 3 ms ++ rest)
  = Some (h, mi, s, Some ms, rest).
Proof.
  intros H M S MS. unfold parseHMS.
  rewrite takeDigits_pad. cbn [append expect].
  change (Ascii.eqb ":" ":") with true. cbn match.
  rewrite takeDigits_pad. cbn [append expect].
  change (Ascii.eqb ":" ":") with true. cbn match.
  rewrite takeDigits_pad. cbn [append parseFrac].
  change (Ascii.eqb "." ".") with true. cbn match.
  rewrite takeDigits_pad.
  now rewrite !digitsValue_pad by (simpl; lia).
Qed.

Lemma toISOString_shape (t : Z) :
  toISOString t
  = yearString (YearFromTime t) ++ "-" ++ pad 2 (MonthFromTime t + 1) ++ "-"
    ++ pad 2 (DateFromTime t) ++ "T" ++ pad 2 (HourFromTime t) ++ ":"
    ++ pad 2 (MinFromTime t) ++ ":" ++ pad 2 (SecFromTime t) ++ "."
    ++ pad 3 (msFromTime t) ++ "Z".
Proof. reflexivity. Qed.

Lemma parseISODateTime_toISOString (t : Z) :
  Z.abs t <= maxTime ->
  parseISODateTime (toISOString t)
  = Some (mkIso (YearFromTime t) (MonthFromTime t + 1) (DateFromTime t)
            (HourFromTime t) (MinFromTime t) (SecFromTime t)
            (Some (msFromTime t)) ZoneZ).
Proof.
  intros A. pose proof (YearFromTime_clip t A) as Y.
  destruct (fields_range t) as (M & D & H & MI & S & MS).
  pose proof (DaysInMonth_range (YearFromTime t) (MonthFromTime t) M) as DM.
  rewrite toISOString_shape. unfold parseISODateTime.
  rewrite parseYMD_print by lia.
  cbn [append expect]. change (Ascii.eqb "T" "T") with true. cbn match.
  change (String ":" (pad 2 (MinFromTime t) ++ String ":"
            (pad 2 (SecFromTime t) ++ String "." (pad 3 (msFromTime t) ++ "Z"))))
    with (":" ++ pad 2 (MinFromTime t) ++ ":" ++ pad 2 (SecFromTime t) ++ "."
          ++ pad 3 (msFromTime t) ++ "Z").
  rewrite parseHMS_print by lia. reflexivity.
Qed.

(** [Date.parse(x.toISOString())] is the time value of [x]. *)
Lemma parse_toISOString (h : Host) (t : Z) :
  Z.abs t <= maxTime -> parse h (toISOString t) = Some t.
Proof.
  intros A. unfold parse, parseValue.
  rewrite parseISODateTime_toISOString by exact A.
  destruct (fields_range t) as (M & D & H & MI & S & MS).
  assert (V : validIso (mkIso (YearFromTime t) (MonthFromTime t + 1)
                          (DateFromTime t) (HourFromTime t) (MinFromTime t)
                          (SecFromTime t) (Some (msFromTime t)) ZoneZ) = true).
  { unfold validIso, validDate. cbn [iso_year iso_month iso_day iso_hour
      iso_minute iso_second iso_zone validZone].
    replace (MonthFromTime t + 1 - 1) with (MonthFromTime t) by lia.
    repeat (apply andb_true_iff; split); try apply Z.leb_le; try lia; reflexivity. }
  rewrite V. unfold isoTimeValue, isoLocalValue.
  cbn [iso_year iso_month iso_day iso_hour iso_minute iso_second iso_frac iso_zone].
  replace (MonthFromTime t + 1 - 1) with (MonthFromTime t) by lia.
  rewrite MakeDate_of_fields. unfold TimeClipO, TimeClip.
  destruct (Z.leb_spec (Z.abs t) maxTime); [reflexivity | lia].
Qed.

Lemma toISOString_injective (a b : Z) :
  Z.abs a <= maxTime -> Z.abs b <= maxTime ->
  toISOString a = toISOString b -> a = b.
Proof.
  intros A B E.
  pose (h := mkHost (fun _ _ => 0) (fun _ => None) (fun _ => 0) EmptyString
               (fun _ => EmptyString)).
  pose proof (parse_toISOString h a A) as Pa.
  pose proof (parse_toISOString h b B) as Pb.
  rewrite E in Pa. congruence.
Qed.

Lemma TimeClip_Some (t u : Z) : TimeClip t = Some u -> u = t /\ Z.abs t <= maxTime.
Proof.
  unfold TimeClip. destruct (Z.leb_spec (Z.abs t) maxTime); [|discriminate].
  intros E; inversion E; subst; now split.
Qed.

Lemma parse_clipped (h : Host) (s : string) (t : Z) :
  parse h s = Some t -> Z.abs t <= maxTime.
Proof.
  unfold parse, TimeClipO. destruct (parseValue h s) as [v|]; [|discriminate].
  intros E. apply TimeClip_Some in E as [-> A]. exact A.
Qed.

End JSDateFacts.

#[local] Open Scope list_scope.
#[local] Open Scope string_scope.
#[local] Open Scope Z_scope.

(** * The normalizer *)

Module DateFormatFacts.
Import JS JSDate Effects DateFormat DigitFacts JSDateFacts.

Lemma isDigit_not_space (c : ascii) : isDigit c = true -> isSpace c = false.
Proof.
  unfold isDigit, isSpace. intros D.
  apply andb_true_iff in D as [A B].
  apply Z.leb_le in A. apply Z.leb_le in B.
  destruct (Nat.leb_spec 9 (nat_of_ascii c)), (Nat.leb_spec (nat_of_ascii c) 13),
    (Nat.eqb_spec (nat_of_ascii c) 32), (Nat.eqb_spec (nat_of_ascii c) 160);
    simpl; try reflexivity; lia.
Qed.

Lemma trimEnd_clean (s : string) : endsClean s = true -> trimEnd s = s.
Proof.
  induction s as [|c r IH]; [reflexivity|].
  intros E. destruct r as [|c' r'].
  - simpl in *. now destruct (isSpace c).
  - change (endsClean (String c (String c' r'))) with (endsClean (String c' r')) in E.
    specialize (IH E). cbn [trimEnd] in *. now rewrite IH.
Qed.

Lemma endsClean_app (a b : string) :
  b <> EmptyString -> endsClean (a ++ b) = endsClean b.
Proof.
  intros N. induction a as [|c a IH]; [reflexivity|].
  cbn [append]. destruct (a ++ b) as [|c' r] eqn:E.
  - destruct a; [simpl in E; contradiction | discriminate].
  - exact IH.
Qed.

Lemma endsClean_pad (w : nat) (n : Z) : endsClean (pad (S w) n) = true.
Proof.
  cbn [pad]. rewrite endsClean_app by discriminate.
  simpl. now rewrite (isDigit_not_space _ (proj1 (digitChar_mod n))).
Qed.

Lemma pad_nonempty (w : nat) (n : Z) : pad (S w) n <> EmptyString.
Proof. destruct (pad_head w n) as (c & r & -> & _). discriminate. Qed.

Lemma trim_clean (c : ascii) (r : string) :
  isSpace c = false -> endsClean (String c r) = true ->
  trim (String c r) = String c r.
Proof.
  intros S E. unfold trim. cbn [trimStart]. rewrite S. now apply trimEnd_clean.
Qed.

(** ** Canonical timestamps are recognised *)

Lemma parseZone_zoneString (z : IsoZone) :
  validOffset z -> parseZone (zoneString z) = Some z.
Proof.
  destruct z as [| |neg hh mm]; [reflexivity..|].
  intros [H M]. unfold zoneString.
  destruct neg; cbn [append parseZone];
    [change (Ascii.eqb "-" "Z") with false; change (Ascii.eqb "-" "+") with false;
     change (Ascii.eqb "-" "-") with true
    |change (Ascii.eqb "+" "Z") with false; change (Ascii.eqb "+" "+") with true;
     change (Ascii.eqb "+" "-") with false];
    cbn [orb]; cbn match; rewrite takeDigits_pad; cbn [append expect];
    change (Ascii.eqb ":" ":") with true; cbn match;
    rewrite <- (app_nil_s (pad 2 mm)); rewrite takeDigits_pad;
    now rewrite !digitsValue_pad by (simpl; lia).
Qed.

Lemma optZoneEnd_zoneString (z : IsoZone) : optZoneEnd (zoneString z) = true.
Proof.
  destruct z as [| |neg hh mm]; [reflexivity..|].
  unfold zoneString.
  destruct neg; cbn [append optZoneEnd];
    [change (Ascii.eqb "-" "Z") with false; change (Ascii.eqb "-" "+") with false;
     change (Ascii.eqb "-" "-") with true
    |change (Ascii.eqb "+" "Z") with false; change (Ascii.eqb "+" "+") with true];
    cbn [orb]; cbn match; rewrite takeDigits_pad; cbn [append expect];
    change (Ascii.eqb ":" ":") with true; cbn match;
    rewrite <- (app_nil_s (pad 2 mm)); rewrite takeDigits_pad; reflexivity.
Qed.

Lemma zoneString_no_dot (z : IsoZone) : expect "." (zoneString z) = None.
Proof. destruct z as [| |[] hh mm]; reflexivity. Qed.

Lemma zoneString_head (z : IsoZone) :
  zoneString z = EmptyString
  \/ exists c r, zoneString z = String c r /\ Ascii.eqb c "." = false.
Proof.
  destruct z as [| |[] hh mm]; [now left|right..]; eexists; eexists;
    (split; [reflexivity|reflexivity]).
Qed.

Lemma parseFrac_print (fr : option Z) (z : IsoZone) :
  validFrac fr ->
  parseFrac (fracString fr ++ zoneString z) = Some (fr, zoneString z).
Proof.
  destruct fr as [ms|]; intros V.
  - unfold fracString. rewrite app_assoc_s. cbn [append parseFrac].
    change (Ascii.eqb "." ".") with true. cbn match.
    rewrite takeDigits_pad. simpl in V.
    now rewrite digitsValue_pad by (simpl; lia).
  - cbn [fracString append].
    destruct (zoneString_head z) as [->|(c & r & -> & E)]; [reflexivity|].
    unfold parseFrac. now rewrite E.
Qed.

Lemma optFraction_print (fr : option Z) (z : IsoZone) :
  optFraction (fracString fr ++ zoneString z) = zoneString z.
Proof.
  destruct fr as [ms|].
  - unfold fracString. rewrite app_assoc_s. cbn [append]. unfold optFraction.
    cbn [expect]. change (Ascii.eqb "." ".") with true. cbn match.
    now rewrite takeDigits_pad.
  - cbn [fracString append]. unfold optFraction.
    now rewrite zoneString_no_dot.
Qed.

Lemma parseISODateTime_canonical (f : IsoDateTime) :
  validFields f -> parseISODateTime (canonical f) = Some f.
Proof.
  destruct f as [y mo d hh mi ss fr z].
  unfold validFields, canonical.
  cbn [iso_year iso_month iso_day iso_hour iso_minute iso_second iso_frac iso_zone].
  intros (Y & M & D & H & MI & S & F & Z0).
  pose proof (DaysInMonth_range y (mo - 1) ltac:(lia)) as DM.
  unfold parseISODateTime.
  replace (pad 4 y) with (yearString y)
    by (unfold yearString;
        destruct (Z.leb_spec 0 y), (Z.leb_spec y 9999); (reflexivity || lia)).
  rewrite parseYMD_print by lia.
  cbn [append expect]. change (Ascii.eqb "T" "T") with true. cbn match.
  unfold parseHMS.
  rewrite takeDigits_pad. cbn [append expect].
  change (Ascii.eqb ":" ":") with true. cbn match.
  rewrite takeDigits_pad. cbn [append expect].
  change (Ascii.eqb ":" ":") with true. cbn match.
  rewrite takeDigits_pad, parseFrac_print by exact F.
  rewrite parseZone_zoneString by exact Z0.
  now rewrite !digitsValue_pad by (simpl; lia).
Qed.

Lemma isoRegex_canonical (f : IsoDateTime) : isoRegex (canonical f) = true.
Proof.
  unfold canonical, isoRegex.
  rewrite takeDigits_pad. cbn [append expect].
  change (Ascii.eqb "-" "-") with true. cbn match.
  rewrite takeDigits_pad. cbn [append expect].
  change (Ascii.eqb "-" "-") with true. cbn match.
  rewrite takeDigits_pad. cbn [append expect].
  change (Ascii.eqb "T" "T") with true. cbn match.
  rewrite takeDigits_pad. cbn [append expect].
  change (Ascii.eqb ":" ":") with true. cbn match.
  rewrite takeDigits_pad. cbn [append expect].
  change (Ascii.eqb ":" ":") with true. cbn match.
  rewrite takeDigits_pad, optFraction_print.
  apply optZoneEnd_zoneString.
Qed.

Lemma canonical_clean (f : IsoDateTime) :
  exists c r, canonical f = String c r /\ isSpace c = false
              /\ endsClean (String c r) = true.
Proof.
  destruct (pad_head 3 (iso_year f)) as (c & r & E & D).
  exists c. eexists. unfold canonical. rewrite E. cbn [append].
  split; [reflexivity|]. split; [now apply isDigit_not_space|].
  change (String c (r ++ String "-" ?x)) with (String c r ++ String "-" x).
  match goal with |- endsClean (?a ++ ?b) = true =>
    change (a ++ b) with (String c r ++ "-" ++ pad 2 (iso_month f) ++ "-"
      ++ pad 2 (iso_day f) ++ "T" ++ pad 2 (iso_hour f) ++ ":"
      ++ pad 2 (iso_minute f) ++ ":" ++ pad 2 (iso_second f)
      ++ fracString (iso_frac f) ++ zoneString (iso_zone f))
  end.
  rewrite <- !app_assoc_s.
  destruct (iso_zone f) as [| |neg hh mm].
  - cbn [zoneString]. rewrite app_nil_s.
    destruct (iso_frac f) as [ms|].
    + unfold fracString. rewrite <- !app_assoc_s.
      rewrite endsClean_app by apply pad_nonempty. apply endsClean_pad.
    + cbn [fracString]. rewrite app_nil_s.
      rewrite endsClean_app by apply pad_nonempty. apply endsClean_pad.
  - cbn [zoneString]. now rewrite endsClean_app by discriminate.
  - unfold zoneString. rewrite <- !app_assoc_s.
    rewrite endsClean_app by apply pad_nonempty. apply endsClean_pad.
Qed.

Lemma trim_canonical (f : IsoDateTime) : trim (canonical f) = canonical f.
Proof.
  destruct (canonical_clean f) as (c & r & -> & S & E). now apply trim_clean.
Qed.

(** ** Runs of [normalizeDateTime] on a string *)

Lemma normalizeDateTime_string (h : Host) (s paramName : string) (w : World) :
  s <> EmptyString ->
  normalizeDateTime h (JString s) paramName w
  = match parseStringDate h s w with
    | (inr (Some t), w') => (inr (toISOString t), w')
    | (inr None, w') =>
        (inl (failure h paramName (JString s) ("Invalid date: " ++ s)), w')
    | (inl e, w') =>
        (inl (failure h paramName (JString s) (err_message e)), w')
    end.
Proof.
  intros N. unfold normalizeDateTime, formatDateTimeForGoogle, tryCatch, bind.
  assert (T : truthy (JString s) = true).
  { simpl. destruct s; [contradiction|reflexivity]. }
  rewrite T. cbn [negb].
  destruct (parseStringDate h s w) as [[e|[t|]] w']; reflexivity.
Qed.

Lemma parseStringDate_iso (h : Host) (s : string) (w : World) :
  isoRegex (trim s) = true ->
  parseStringDate h s w = (inr (parse h (trim s)), w).
Proof. intros I. unfold parseStringDate. now rewrite I. Qed.

Lemma yearString_small (y : Z) : 0 <= y <= 9999 -> yearString y = pad 4 y.
Proof.
  intros Y. unfold yearString.
  destruct (Z.leb_spec 0 y), (Z.leb_spec y 9999); (reflexivity || lia).
Qed.

Lemma toISOString_canonical (t : Z) :
  0 <= YearFromTime t <= 9999 -> toISOString t = canonical (fieldsOf t).
Proof.
  intros Y. unfold toISOString, canonical, fieldsOf.
  cbn [iso_year iso_month iso_day iso_hour iso_minute iso_second iso_frac
       iso_zone fracString zoneString].
  rewrite yearString_small by exact Y.
  reflexivity.
Qed.

(** A string that starts with a sign is left to [Date.parse]. *)
Lemma parseStringDate_signed (h : Host) (c : ascii) (r : string) (w : World) :
  c = "+"%char \/ c = "-"%char ->
  endsClean (String c r) = true ->
  parseStringDate h (String c r) w
  = match parse h (String c r) with
    | Some t => (inr (Some t), w)
    | None =>
        (inl (newError ("Unable to parse date format: " ++ quote
                        ++ String c r ++ quote)), w)
    end.
Proof.
  intros C E. unfold parseStringDate.
  rewrite trim_clean by (first [exact E | destruct C as [->| ->]; reflexivity]).
  assert (G : forall x : string,
             (x = String "+" r \/ x = String "-" r) ->
             isoRegex x = false /\ ciEq x "today" = false
             /\ ciEq x "tomorrow" = false /\ ciEq x "yesterday" = false
             /\ relativeRegex x = None /\ usDateRegex x = None
             /\ isoDateRegex x = false).
  { intros x [-> | ->]; destruct r as [|c2 r']; repeat split; reflexivity. }
  destruct (G (String c r)) as (G1 & G2 & G3 & G4 & G5 & G6 & G7);
    [destruct C as [->| ->]; tauto|].
  rewrite G1, G2, G3, G4, G5, G6, G7.
  destruct (parse h (String c r)); reflexivity.
Qed.

Lemma toISOString_endsClean (t : Z) : endsClean (toISOString t) = true.
Proof.
  assert (E : toISOString t
              = (yearString (YearFromTime t) ++ "-"
                 ++ pad 2 (MonthFromTime t + 1) ++ "-"
                 ++ pad 2 (DateFromTime t) ++ "T" ++ pad 2 (HourFromTime t)
                 ++ ":" ++ pad 2 (MinFromTime t) ++ ":"
                 ++ pad 2 (SecFromTime t) ++ "." ++ pad 3 (msFromTime t))
                ++ "Z").
  { unfold toISOString. now rewrite !app_assoc_s. }
  rewrite E. now rewrite endsClean_app by discriminate.
Qed.

Lemma toISOString_expanded (t : Z) :
  ~ 0 <= YearFromTime t <= 9999 ->
  exists c r, toISOString t = String c r
              /\ (c = "+"%char \/ c = "-"%char)
              /\ endsClean (String c r) = true.
Proof.
  intros Y. pose proof (toISOString_endsClean t) as K.
  unfold toISOString, yearString in *.
  destruct (Z.leb_spec 0 (YearFromTime t)), (Z.leb_spec (YearFromTime t) 9999);
    try lia; cbn [andb] in *;
    (destruct (YearFromTime t <? 0);
     [exists "-"%char | exists "+"%char]; eexists;
     (split; [cbn [append]; reflexivity|]); (split; [tauto|]); exact K).
Qed.

Lemma toISOString_nonempty (t : Z) : toISOString t <> EmptyString.
Proof.
  unfold toISOString, yearString.
  destruct ((0 <=? YearFromTime t) && (YearFromTime t <=? 9999)).
  - destruct (pad_head 3 (YearFromTime t)) as (c & r & -> & _). discriminate.
  - destruct (YearFromTime t <? 0); discriminate.
Qed.

(** Normalizing what the normalizer returned gives it back. *)
Lemma normalizeDateTime_toISOString (h : Host) (t : Z) (paramName : string)
    (w : World) :
  Z.abs t <= maxTime ->
  normalizeDateTime h (JString (toISOString t)) paramName w
  = (inr (toISOString t), w).
Proof.
  intros A. rewrite normalizeDateTime_string by apply toISOString_nonempty.
  destruct (Z_le_dec 0 (YearFromTime t)) as [Y0|Y0];
    [destruct (Z_le_dec (YearFromTime t) 9999) as [Y1|Y1]|].
  - rewrite parseStringDate_iso;
      rewrite (toISOString_canonical t) by lia; rewrite trim_canonical;
      [|apply isoRegex_canonical].
    rewrite <- (toISOString_canonical t) by lia.
    now rewrite parse_toISOString.
  - destruct (toISOString_expanded t ltac:(lia)) as (c & r & E & C & K).
    rewrite E, parseStringDate_signed by assumption.
    rewrite <- E. now rewrite parse_toISOString.
  - destruct (toISOString_expanded t ltac:(lia)) as (c & r & E & C & K).
    rewrite E, parseStringDate_signed by assumption.
    rewrite <- E. now rewrite parse_toISOString.
Qed.

(** ** The instant of a canonical timestamp *)

Lemma isoLocalValue_bound (f : IsoDateTime) :
  validFields f -> Z.abs (isoLocalValue f) <= 300000000000000.
Proof.
  destruct f as [y mo d hh mi ss fr z]. unfold validFields, isoLocalValue.
  cbn [iso_year iso_month iso_day iso_hour iso_minute iso_second iso_frac iso_zone].
  intros (Y & M & D & H & MI & S & F & _).
  destruct (MakeDay_in_year y (mo - 1) d ltac:(lia) D) as (_ & _ & B).
  pose proof (DayFromYear_mono 0 y ltac:(lia)) as L.
  pose proof (DayFromYear_mono (y + 1) 10000 ltac:(lia)) as U.
  change (DayFromYear 0) with (-719528) in L.
  change (DayFromYear 10000) with 2932897 in U.
  assert (T : 0 <= MakeTime hh mi ss (match fr with Some ms => ms | None => 0 end)
              < msPerDay).
  { apply MakeTime_range; try lia. destruct fr; simpl in F; lia. }
  unfold MakeDate, msPerDay in *. lia.
Qed.

Lemma isoTimeValue_clipped (h : Host) (f : IsoDateTime) :
  validFields f ->
  (forall t, Z.abs (LocalTZA h t false) <= msPerDay) ->
  Z.abs (isoTimeValue h f) <= maxTime.
Proof.
  intros V TZ. pose proof (isoLocalValue_bound f V) as B.
  unfold isoTimeValue. destruct (iso_zone f) as [| |neg hh mm] eqn:Zn.
  - unfold UTC. specialize (TZ (isoLocalValue f)).
    unfold msPerDay, maxTime in *. lia.
  - unfold maxTime. lia.
  - destruct V as (_ & _ & _ & _ & _ & _ & _ & O). rewrite Zn in O. simpl in O.
    unfold msPerMinute, maxTime. destruct neg; lia.
Qed.

Lemma validIso_of_fields (f : IsoDateTime) : validFields f -> validIso f = true.
Proof.
  destruct f as [y mo d hh mi ss fr z]. unfold validFields, validIso, validDate.
  cbn [iso_year iso_month iso_day iso_hour iso_minute iso_second iso_frac iso_zone].
  intros (Y & M & D & H & MI & S & F & O).
  repeat (apply andb_true_iff; split); try (apply Z.leb_le; lia).
  destruct z as [| |neg a b]; [reflexivity..|].
  simpl in *. apply andb_true_iff; split; apply Z.leb_le; lia.
Qed.

Lemma parse_canonical (h : Host) (f : IsoDateTime) :
  validFields f ->
  (forall t, Z.abs (LocalTZA h t false) <= msPerDay) ->
  parse h (canonical f) = Some (isoTimeValue h f).
Proof.
  intros V TZ. unfold parse, parseValue.
  rewrite parseISODateTime_canonical, validIso_of_fields by exact V.
  unfold TimeClipO, TimeClip.
  pose proof (isoTimeValue_clipped h f V TZ).
  destruct (Z.leb_spec (Z.abs (isoTimeValue h f)) maxTime); [reflexivity|lia].
Qed.

Lemma canonical_nonempty (f : IsoDateTime) : canonical f <> EmptyString.
Proof. destruct (canonical_clean f) as (c & r & -> & _). discriminate. Qed.

Lemma toISOString_utc_fields (h : Host) (f : IsoDateTime) (ms : Z) :
  validFields f -> iso_frac f = Some ms -> iso_zone f = ZoneZ ->
  toISOString (isoTimeValue h f) = canonical f.
Proof.
  destruct f as [y mo d hh mi ss fr z]. unfold validFields.
  cbn [iso_year iso_month iso_day iso_hour iso_minute iso_second iso_frac iso_zone].
  intros (Y & M & D & H & MI & S & F & _) -> ->. simpl in F.
  unfold isoTimeValue, isoLocalValue.
  cbn [iso_year iso_month iso_day iso_hour iso_minute iso_second iso_frac iso_zone].
  destruct (fields_of_MakeDate y (mo - 1) d hh mi ss ms
              ltac:(lia) D H MI S F) as (Ey & Em & Ed & Eh & Emi & Es & Ems).
  unfold toISOString. rewrite Ey, Em, Ed, Eh, Emi, Es, Ems.
  rewrite yearString_small by exact Y.
  replace (mo - 1 + 1) with mo by lia.
  unfold canonical.
  cbn [iso_year iso_month iso_day iso_hour iso_minute iso_second iso_frac
       iso_zone fracString zoneString].
  reflexivity.
Qed.

End DateFormatFacts.

Module USDateFacts.
Import JS JSDate Effects DateFormat DigitFacts JSDateFacts DateFormatFacts.

Lemma isDigit_bounds (c : ascii) :
  isDigit c = true -> (48 <= nat_of_ascii c <= 57)%nat.
Proof.
  unfold isDigit. intros D. apply andb_true_iff in D as [A B].
  apply Z.leb_le in A. apply Z.leb_le in B. lia.
Qed.

Lemma lowerChar_digit (c : ascii) : isDigit c = true -> lowerChar c = c.
Proof.
  intros D. apply isDigit_bounds in D. unfold lowerChar.
  destruct (Nat.leb_spec 65 (nat_of_ascii c)); [lia|reflexivity].
Qed.

Lemma digit_not_char (c x : ascii) :
  isDigit c = true -> isDigit x = false -> Ascii.eqb c x = false.
Proof.
  intros D X. destruct (Ascii.eqb_spec c x) as [->|]; [congruence|reflexivity].
Qed.

Lemma separator_not_digit (c : ascii) (r r' : string) :
  separator (String c r) = Some r' -> isDigit c = false.
Proof.
  unfold separator.
  destruct (Ascii.eqb_spec c "/") as [->|]; [reflexivity|].
  destruct (Ascii.eqb_spec c "-") as [->|]; [reflexivity|discriminate].
Qed.

(** A string that the US date expression matches starts with one or two
    digits and a separator. *)
Lemma usDateRegex_head (t : string) (g : USDateGroups) :
  usDateRegex t = Some g ->
  exists c1 c2 r, t = String c1 (String c2 r) /\ isDigit c1 = true
    /\ (isDigit c2 = false
        \/ exists c3 r', r = String c3 r' /\ isDigit c3 = false).
Proof.
  unfold usDateRegex, takeDigits12. intros H.
  destruct t as [|c1 [|c2 r]].
  - discriminate.
  - simpl in H. destruct (isDigit c1); discriminate.
  - exists c1, c2, r. split; [reflexivity|].
    cbn [takeDigits] in H.
    destruct (isDigit c1) eqn:D1; [|discriminate]. split; [reflexivity|].
    destruct (isDigit c2) eqn:D2; [|now left]. right.
    destruct r as [|c3 r']; [discriminate|].
    exists c3, r'. split; [reflexivity|].
    destruct (separator (String c3 r')) as [r''|] eqn:S; [|discriminate].
    now apply separator_not_digit in S.
Qed.

Lemma usDateRegex_first (t : string) (g : USDateGroups) :
  usDateRegex t = Some g ->
  isoRegex t = false /\ ciEq t "today" = false /\ ciEq t "tomorrow" = false
  /\ ciEq t "yesterday" = false /\ relativeRegex t = None.
Proof.
  intros H. destruct (usDateRegex_head t g H) as (c1 & c2 & r & -> & D1 & D).
  assert (L : lowerChar c1 = c1) by now apply lowerChar_digit.
  split.
  - unfold isoRegex. cbn [takeDigits]. rewrite D1.
    destruct D as [D2|(c3 & r' & -> & D3)].
    + now rewrite D2.
    + destruct (isDigit c2); [|reflexivity]. now rewrite D3.
  - assert (T : forall x r0, isDigit x = false ->
                 String.eqb (String c1 (toLowerCase (String c2 r)))
                   (String x r0) = false).
    { intros x r0 X. cbn [String.eqb]. now rewrite (digit_not_char c1 x D1 X). }
    unfold ciEq, relativeRegex. cbn [toLowerCase]. rewrite L.
    rewrite !T by reflexivity.
    repeat split; try reflexivity.
    unfold ciEq. cbn [toLowerCase String.eqb]. rewrite L.
    now rewrite (digit_not_char c1 (lowerChar "i") D1 eq_refl).
Qed.

Lemma usDateRegex_nonempty (s : string) (g : USDateGroups) :
  usDateRegex (trim s) = Some g -> s <> EmptyString.
Proof. intros H ->. discriminate H. Qed.

Lemma parseStringDate_us (h : Host) (s : string) (g : USDateGroups) (w : World) :
  usDateRegex (trim s) = Some g ->
  parseStringDate h s w = (inr (usDateValue h g), w).
Proof.
  intros H. unfold parseStringDate.
  destruct (usDateRegex_first _ _ H) as (-> & -> & -> & -> & ->).
  now rewrite H.
Qed.

(** The AM/PM adjustment. *)
Lemma adjustHour_cases (hour : Z) :
  adjustHour hour None = hour
  /\ (forall ap, toUpperCase ap = "PM" ->
        adjustHour hour (Some ap) = if hour =? 12 then 12 else hour + 12)
  /\ (forall ap, toUpperCase ap = "AM" ->
        adjustHour hour (Some ap) = if hour =? 12 then 0 else hour).
Proof.
  split; [reflexivity|]. split; intros ap U; unfold adjustHour; rewrite U;
    (destruct ap as [|c r]; [discriminate U|]); cbn [String.eqb negb];
    destruct (hour =? 12) eqn:E; try reflexivity.
  apply Z.eqb_eq in E. now subst.
Qed.

End USDateFacts.

Section NormalizerClaims.
Import JS JSDate Effects DateFormat DigitFacts JSDateFacts DateFormatFacts
  USDateFacts.

(** C2 (amended).  For every canonical ISO 8601 timestamp with valid
    calendar fields (with or without fractional seconds, with [Z], a numeric
    offset or no zone), on a host whose zone offset is at most a day:
    [isValidGoogleDateTimeFormat] returns true, and [normalizeDateTime]
    returns the same instant printed in UTC with milliseconds and [Z]; this
    is the input itself when the input already has that form, and
    normalizing the result again returns it unchanged. *)
Theorem canonical_timestamp_normalization :
  forall (h : Host) (f : IsoDateTime) (paramName : string) (w : World),
    validFields f ->
    (forall t, Z.abs (LocalTZA h t false) <= msPerDay) ->
    isoRegex (canonical f) = true
    /\ isValidGoogleDateTimeFormat h (canonical f) = true
    /\ normalizeDateTime h (JString (canonical f)) paramName w
       = (inr (toISOString (isoTimeValue h f)), w)
    /\ normalizeDateTime h (JString (toISOString (isoTimeValue h f)))
         paramName w
       = (inr (toISOString (isoTimeValue h f)), w)
    /\ (forall ms, iso_frac f = Some ms -> iso_zone f = ZoneZ ->
          toISOString (isoTimeValue h f) = canonical f).
Proof.
  intros h f paramName w V TZ.
  pose proof (isoRegex_canonical f) as R.
  pose proof (parse_canonical h f V TZ) as P.
  split; [exact R|]. split.
  - unfold isValidGoogleDateTimeFormat. now rewrite R, P.
  - split.
    + rewrite normalizeDateTime_string by apply canonical_nonempty.
      rewrite parseStringDate_iso; rewrite trim_canonical; [|exact R].
      now rewrite P.
    + split.
      * apply normalizeDateTime_toISOString.
        now apply isoTimeValue_clipped.
      * intros ms F Z0. now apply (toISOString_utc_fields h f ms).
Qed.

Lemma canonical_timestamp_normalization_witness :
  normalizeDateTime Examples.westHost (JString "2024-01-15T14:30:00")
    "startDateTime" Examples.start
  = (inr "2024-01-15T19:30:00.000Z", Examples.start).
Proof.
  refine (proj1 (proj2 (proj2
            (canonical_timestamp_normalization Examples.westHost
               (mkIso 2024 1 15 14 30 0 None ZoneNone)
               "startDateTime" Examples.start _ _)))).
  - unfold validFields. simpl. repeat split; try lia; vm_compute; discriminate.
  - intros t. vm_compute. discriminate.
Defined.

(** C2, as stated, fails: a canonical timestamp is not returned unchanged
    unless it is already in UTC with milliseconds. *)
Lemma canonical_timestamp_is_rewritten :
  validFields (mkIso 2024 1 15 14 30 0 None ZoneZ)
  /\ canonical (mkIso 2024 1 15 14 30 0 None ZoneZ) = "2024-01-15T14:30:00Z"
  /\ normalizeDateTime Examples.utcHost (JString "2024-01-15T14:30:00Z")
       "startDateTime" Examples.start
     = (inr "2024-01-15T14:30:00.000Z", Examples.start)
  /\ "2024-01-15T14:30:00.000Z" <> "2024-01-15T14:30:00Z".
Proof.
  split.
  - unfold validFields. simpl. repeat split; try lia; vm_compute; discriminate.
  - repeat split; try reflexivity. discriminate.
Qed.




End NormalizerClaims.

#[local] Open Scope string_scope.
#[local] Open Scope list_scope.
#[local] Open Scope Z_scope.

(** * The streaming delta aggregator *)

Module AgentFacts.
Import JS Tools Agent AgentSpec.

Lemma string_app_assoc (a b c : string) : ((a ++ b) ++ c = a ++ (b ++ c))%string.
Proof. induction a as [|x a IH]; simpl; [reflexivity | now rewrite IH]. Qed.

Lemma string_app_nil_r (a : string) : (a ++ EmptyString = a)%string.
Proof. induction a as [|x a IH]; simpl; [reflexivity | now rewrite IH]. Qed.

Lemma join_assoc (a b c : Pending) : join (join a b) c = join a (join b c).
Proof. unfold join; simpl; now rewrite !string_app_assoc. Qed.

Lemma groupRuns_cons (p : Pending) (r : list Pending) :
  groupRuns (p :: r) =
  match groupRuns r with
  | q :: rs =>
      if pending_index p =? pending_index q then join p q :: rs
      else p :: q :: rs
  | [] => [p]
  end.
Proof. reflexivity. Qed.

Lemma groupRuns_head (q : Pending) (l : list Pending) :
  exists q' rs, groupRuns (q :: l) = q' :: rs
                /\ pending_index q' = pending_index q.
Proof.
  rewrite groupRuns_cons. destruct (groupRuns l) as [|q0 rs].
  - now exists q, [].
  - destruct (pending_index q =? pending_index q0).
    + now exists (join q q0), rs.
    + now exists q, (q0 :: rs).
Qed.

Lemma groupRuns_same (p q : Pending) (l : list Pending) :
  pending_index p = pending_index q ->
  groupRuns (p :: q :: l) = groupRuns (join p q :: l).
Proof.
  intros E. rewrite (groupRuns_cons p), (groupRuns_cons q), (groupRuns_cons (join p q)).
  destruct (groupRuns l) as [|q' rs].
  - now rewrite E, Z.eqb_refl.
  - cbn [join pending_index].
    destruct (pending_index q =? pending_index q') eqn:Q.
    + cbn [join pending_index]. rewrite E, Z.eqb_refl, Q. now rewrite join_assoc.
    + now rewrite E, Z.eqb_refl, Q.
Qed.

Lemma groupRuns_other (p q : Pending) (l : list Pending) :
  pending_index p <> pending_index q ->
  groupRuns (p :: q :: l) = p :: groupRuns (q :: l).
Proof.
  intros N. rewrite (groupRuns_cons p).
  destruct (groupRuns_head q l) as (q' & rs & -> & E).
  rewrite E. apply Z.eqb_neq in N. now rewrite N.
Qed.

Section Loop.

Variable jsonParse : string -> string + JSVal.

#[local] Abbreviation finalize := (Agent.finalize jsonParse).
#[local] Abbreviation stepDelta := (Agent.stepDelta jsonParse).
#[local] Abbreviation stepChunk := (Agent.stepChunk jsonParse).
#[local] Abbreviation finalizeLast := (Agent.finalizeLast jsonParse).

Lemma toolCalls_finalize (c : Pending) (st : State) :
  toolCalls (finalize c st) = (toolCalls st ++ completed jsonParse c)%list.
Proof.
  unfold finalize, completed.
  destruct (jsonParse (pending_arguments c)); simpl;
    [now rewrite app_nil_r | reflexivity].
Qed.

Lemma errors_finalize (c : Pending) (st : State) :
  errors (finalize c st) = (errors st ++ reported jsonParse c)%list.
Proof.
  unfold finalize, reported.
  destruct (jsonParse (pending_arguments c)); simpl;
    [reflexivity | now rewrite app_nil_r].
Qed.

Lemma current_finalize (c : Pending) (st : State) :
  currentToolCall (finalize c st) = currentToolCall st.
Proof. unfold finalize. now destruct (jsonParse (pending_arguments c)). Qed.

Lemma outputText_finalize (c : Pending) (st : State) :
  outputText (finalize c st) = outputText st.
Proof. unfold finalize. now destruct (jsonParse (pending_arguments c)). Qed.

(** One fragment: what it adds to the completed calls and what is pending
    afterwards. *)
Lemma stepDelta_runs (st : State) (d : ToolCallDelta) (rest : list Pending) :
  (toolCalls (stepDelta st d)
   ++ requests jsonParse (groupRuns (pendingList (stepDelta st d) ++ rest)))%list
  = (toolCalls st
     ++ requests jsonParse
          (groupRuns (pendingList st ++ fragment d ++ rest)))%list.
Proof.
  unfold stepDelta, fragment, pendingList.
  destruct (index d) as [i|]; [|reflexivity].
  destruct (currentToolCall st) as [c|] eqn:C; [|reflexivity].
  destruct (i =? pending_index c) eqn:E; cbn [negb].
  - apply Z.eqb_eq in E. cbn [setCurrent currentToolCall toolCalls app].
    rewrite groupRuns_same by (simpl; congruence). reflexivity.
  - apply Z.eqb_neq in E. cbn [setCurrent currentToolCall toolCalls app].
    rewrite toolCalls_finalize.
    rewrite groupRuns_other by (simpl; congruence).
    unfold requests. cbn [flat_map]. now rewrite <- app_assoc.
Qed.

Lemma fold_stepDelta_runs (deltas : list ToolCallDelta) :
  forall (st : State) (rest : list Pending),
  (toolCalls (fold_left stepDelta deltas st)
   ++ requests jsonParse
        (groupRuns (pendingList (fold_left stepDelta deltas st) ++ rest)))%list
  = (toolCalls st
     ++ requests jsonParse
          (groupRuns (pendingList st ++ flat_map fragment deltas ++ rest)))%list.
Proof.
  induction deltas as [|d ds IH]; intros st rest; [reflexivity|].
  cbn [fold_left flat_map]. rewrite IH, stepDelta_runs.
  now rewrite <- app_assoc.
Qed.

Lemma stepContent_calls (st : State) (content : option string) :
  toolCalls (stepContent st content) = toolCalls st
  /\ currentToolCall (stepContent st content) = currentToolCall st
  /\ errors (stepContent st content) = errors st.
Proof.
  unfold stepContent. destruct content as [t|]; [|easy].
  now destruct (String.eqb t EmptyString).
Qed.

Lemma stepChunk_runs (st : State) (chunk : Chunk) (rest : list Pending) :
  (toolCalls (stepChunk st chunk)
   ++ requests jsonParse (groupRuns (pendingList (stepChunk st chunk) ++ rest)))%list
  = (toolCalls st
     ++ requests jsonParse
          (groupRuns (pendingList st ++ chunkFragments chunk ++ rest)))%list.
Proof.
  unfold stepChunk, chunkFragments.
  destruct (stepContent_calls st (delta_content chunk)) as (T & C & _).
  destruct (delta_tool_calls chunk) as [ds|].
  - rewrite fold_stepDelta_runs. unfold pendingList. now rewrite T, C.
  - unfold pendingList. now rewrite T, C.
Qed.

Lemma consume_fold (stream : list Chunk) :
  forall st, consume jsonParse st stream = fold_left stepChunk (consumed stream) st.
Proof.
  induction stream as [|c r IH]; intros st; [reflexivity|].
  simpl. destruct (finishes c); [reflexivity | apply IH].
Qed.

Lemma fold_stepChunk_runs (chunks : list Chunk) :
  forall (st : State) (rest : list Pending),
  (toolCalls (fold_left stepChunk chunks st)
   ++ requests jsonParse
        (groupRuns (pendingList (fold_left stepChunk chunks st) ++ rest)))%list
  = (toolCalls st
     ++ requests jsonParse
          (groupRuns (pendingList st ++ flat_map chunkFragments chunks ++ rest)))%list.
Proof.
  induction chunks as [|c cs IH]; intros st rest; [reflexivity|].
  cbn [fold_left flat_map]. rewrite IH, stepChunk_runs.
  now rewrite <- app_assoc.
Qed.

Lemma toolCalls_finalizeLast (st : State) :
  toolCalls (finalizeLast st)
  = (toolCalls st ++ requests jsonParse (groupRuns (pendingList st)))%list.
Proof.
  unfold finalizeLast, pendingList. destruct (currentToolCall st) as [c|].
  - rewrite toolCalls_finalize. unfold requests. simpl. now rewrite app_nil_r.
  - simpl. now rewrite app_nil_r.
Qed.

Lemma call_requests (stream : list Chunk) :
  toolCalls (call jsonParse stream)
  = requests jsonParse (groupRuns (fragments stream)).
Proof.
  unfold call. rewrite toolCalls_finalizeLast, consume_fold.
  pose proof (fold_stepChunk_runs (consumed stream) initial []) as H.
  rewrite !app_nil_r in H. exact H.
Qed.

Lemma outputText_finalizeLast (st : State) :
  outputText (finalizeLast st) = outputText st.
Proof.
  unfold Agent.finalizeLast. destruct (currentToolCall st);
    [apply outputText_finalize | reflexivity].
Qed.

Lemma errors_finalizeLast (st : State) :
  errors (finalizeLast st)
  = (errors st ++ flat_map (reported jsonParse) (pendingList st))%list.
Proof.
  unfold Agent.finalizeLast, pendingList. destruct (currentToolCall st) as [c|].
  - rewrite errors_finalize. simpl. now rewrite app_nil_r.
  - simpl. now rewrite app_nil_r.
Qed.

(** The list of completed calls only grows. *)
Lemma stepDelta_grows (st : State) (d : ToolCallDelta) :
  exists more, toolCalls (stepDelta st d) = (toolCalls st ++ more)%list.
Proof.
  unfold Agent.stepDelta. destruct (index d) as [i|].
  - destruct (currentToolCall st) as [c|].
    + destruct (negb (i =? pending_index c)); cbn [setCurrent toolCalls].
      * rewrite toolCalls_finalize. eauto.
      * exists []. now rewrite app_nil_r.
    + exists []. simpl. now rewrite app_nil_r.
  - exists []. now rewrite app_nil_r.
Qed.

Lemma fold_stepDelta_grows (ds : list ToolCallDelta) :
  forall st, exists more,
    toolCalls (fold_left stepDelta ds st) = (toolCalls st ++ more)%list.
Proof.
  induction ds as [|d ds IH]; intros st.
  - exists []. simpl. now rewrite app_nil_r.
  - cbn [fold_left]. destruct (IH (stepDelta st d)) as (m1 & ->).
    destruct (stepDelta_grows st d) as (m2 & ->).
    exists (m2 ++ m1)%list. now rewrite app_assoc.
Qed.

Lemma stepChunk_grows (st : State) (c : Chunk) :
  exists more, toolCalls (stepChunk st c) = (toolCalls st ++ more)%list.
Proof.
  unfold Agent.stepChunk.
  destruct (stepContent_calls st (delta_content c)) as (T & _ & _).
  destruct (delta_tool_calls c) as [ds|].
  - destruct (fold_stepDelta_grows ds (stepContent st (delta_content c)))
      as (m & ->). rewrite T. eauto.
  - rewrite T. exists []. now rewrite app_nil_r.
Qed.

Lemma fold_stepChunk_grows (cs : list Chunk) :
  forall st, exists more,
    toolCalls (fold_left stepChunk cs st) = (toolCalls st ++ more)%list.
Proof.
  induction cs as [|c cs IH]; intros st.
  - exists []. simpl. now rewrite app_nil_r.
  - cbn [fold_left]. destruct (IH (stepChunk st c)) as (m1 & ->).
    destruct (stepChunk_grows st c) as (m2 & ->).
    exists (m2 ++ m1)%list. now rewrite app_assoc.
Qed.

End Loop.

(** Runs of one slot. *)
Lemma groupRuns_one_slot (l : list Pending) :
  forall p, Forall (fun q => pending_index q = pending_index p) l ->
  groupRuns (p :: l) = [fold_left join l p].
Proof.
  induction l as [|q l IH]; intros p F; [reflexivity|].
  inversion F as [|? ? E F']; subst.
  rewrite groupRuns_same by congruence.
  cbn [fold_left]. apply IH.
  eapply Forall_impl; [|exact F']. now intros a ->.
Qed.

Lemma groupRuns_then_other (l : list Pending) :
  forall p q m,
  Forall (fun x => pending_index x = pending_index p) l ->
  pending_index q <> pending_index p ->
  groupRuns (p :: l ++ q :: m) = fold_left join l p :: groupRuns (q :: m).
Proof.
  induction l as [|x l IH]; intros p q m F N.
  - simpl app. rewrite groupRuns_other by congruence. reflexivity.
  - inversion F as [|? ? E F']; subst.
    change (p :: (x :: l) ++ q :: m) with (p :: x :: (l ++ q :: m)).
    rewrite groupRuns_same by congruence.
    cbn [fold_left]. apply IH; [|exact N].
    eapply Forall_impl; [|exact F']. now intros a ->.
Qed.

Lemma fold_join_index (l : list Pending) :
  forall p, pending_index (fold_left join l p) = pending_index p.
Proof. induction l as [|x l IH]; intros p; [reflexivity|]. simpl. now rewrite IH. Qed.

Lemma joinAll_cons (i : Z) (p : Pending) (l : list Pending) :
  pending_index p = i -> joinAll i (p :: l) = fold_left join l p.
Proof.
  intros <-. unfold joinAll. cbn [fold_left]. f_equal. now destruct p.
Qed.

Lemma groupRuns_two_slots (i j : Z) (a b : list Pending) :
  i <> j -> a <> [] -> b <> [] ->
  Forall (fun p => pending_index p = i) a ->
  Forall (fun p => pending_index p = j) b ->
  groupRuns (a ++ b) = [joinAll i a; joinAll j b].
Proof.
  intros N A B Fa Fb.
  destruct a as [|p a]; [contradiction|]. destruct b as [|q b]; [contradiction|].
  inversion Fa as [|? ? Ep Fa']; inversion Fb as [|? ? Eq Fb']; subst.
  change ((p :: a) ++ q :: b) with (p :: a ++ q :: b).
  rewrite groupRuns_then_other; [|assumption|congruence].
  rewrite groupRuns_one_slot by assumption.
  now rewrite !joinAll_cons.
Qed.

End AgentFacts.

Section AggregatorClaims.
Import JS Tools Agent AgentSpec AgentFacts.

(** C1 (amended).  The completed requests are, in order, the maximal runs of
    consecutive fragments with one slot index whose joined argument text
    parses: the input of each is the parse of the concatenation of all the
    argument fragments of its run, in arrival order.  In particular, when the
    fragments of one call (any number of them, so also three or more) are
    followed by the fragments of a second call under another slot index, and
    both argument texts parse, exactly those two requests are produced. *)
Theorem aggregator_completes_runs :
  forall (jsonParse : string -> string + JSVal) (stream : list Chunk),
    toolCalls (call jsonParse stream)
    = requests jsonParse (groupRuns (fragments stream))
    /\ (forall (i j : Z) (a b : list Pending) (va vb : JSVal),
          i <> j -> a <> [] -> b <> [] ->
          Forall (fun p => pending_index p = i) a ->
          Forall (fun p => pending_index p = j) b ->
          fragments stream = a ++ b ->
          jsonParse (pending_arguments (joinAll i a)) = inr va ->
          jsonParse (pending_arguments (joinAll j b)) = inr vb ->
          toolCalls (call jsonParse stream)
          = [mkToolCall (pending_id (joinAll i a))
               (pending_name (joinAll i a)) va;
             mkToolCall (pending_id (joinAll j b))
               (pending_name (joinAll j b)) vb]).
Proof.
  intros jsonParse stream. split; [apply call_requests|].
  intros i j a b va vb N A B Fa Fb E Pa Pb.
  rewrite call_requests, E, (groupRuns_two_slots i j) by assumption.
  unfold requests, completed. cbn [flat_map]. now rewrite Pa, Pb.
Qed.

End AggregatorClaims.

Section AggregatorExamples.
Import JS Tools Agent AgentSpec AgentFacts Examples.

Lemma aggregator_completes_runs_witness :
  toolCalls (call Json.parse sequentialStream)
  = [mkToolCall "call_a" "bash" (JObject [("command", JString "ls")]);
     mkToolCall "call_b" "get_calendars" (JObject [])].
Proof.
  exact (proj2 (aggregator_completes_runs Json.parse sequentialStream)
           0 1 (firstn 3 (fragments sequentialStream))
           (skipn 3 (fragments sequentialStream))
           (JObject [("command", JString "ls")]) (JObject [])
           ltac:(lia) ltac:(discriminate) ltac:(discriminate)
           ltac:(repeat constructor) ltac:(repeat constructor)
           eq_refl eq_refl eq_refl).
Defined.

(** C1, as stated, fails: both argument texts are complete JSON once all
    the fragments of their slots are concatenated, yet no request at all is
    completed when the fragments of the two slots alternate. *)
Lemma interleaved_stream_completes_nothing :
  Json.parse (pending_arguments
                (joinAll 0 (slotFragments 0 (fragments interleavedStream))))
  = inr (JObject [("command", JString "ls")])
  /\ Json.parse (pending_arguments
                   (joinAll 1 (slotFragments 1 (fragments interleavedStream))))
     = inr (JObject [])
  /\ List.length (slotFragments 0 (fragments interleavedStream)) = 3%nat
  /\ toolCalls (call Json.parse interleavedStream) = [].
Proof. repeat split; vm_compute; reflexivity. Qed.

(** C9.  The loop stops at the first chunk that carries the reason [stop] or
    [tool_calls], or at the end of the stream; the slot that is open then is
    finalized by parsing its accumulated text.  The calls completed earlier
    are all returned, whatever the outcome of that parse; when it fails the
    failure is reported, and only that call is missing. *)
Theorem stream_end_finalizes_pending :
  forall (jsonParse : string -> string + JSVal) (stream : list Chunk),
    let st := fold_left (stepChunk jsonParse) (consumed stream) initial in
    let final := call jsonParse stream in
    outputText final = outputText st
    /\ toolCalls final
       = toolCalls st ++ flat_map (completed jsonParse) (pendingList st)
    /\ errors final
       = errors st ++ flat_map (reported jsonParse) (pendingList st)
    /\ (forall n : nat, exists later,
          toolCalls final
          = toolCalls (fold_left (stepChunk jsonParse)
                         (firstn n (consumed stream)) initial) ++ later)
    /\ (forall (c : Pending) (e : string),
          currentToolCall st = Some c ->
          jsonParse (pending_arguments c) = inl e ->
          toolCalls final = toolCalls st
          /\ errors final
             = errors st ++ ["Failed to parse tool call arguments: " ++ e]%string).
Proof.
  intros jsonParse stream st final.
  assert (F : final = finalizeLast jsonParse st).
  { unfold final, call, st. now rewrite consume_fold. }
  assert (T : toolCalls final
              = toolCalls st ++ flat_map (completed jsonParse) (pendingList st)).
  { rewrite F. unfold finalizeLast, pendingList.
    destruct (currentToolCall st) as [c|].
    - rewrite toolCalls_finalize. simpl. now rewrite app_nil_r.
    - simpl. now rewrite app_nil_r. }
  assert (R : errors final
              = errors st ++ flat_map (reported jsonParse) (pendingList st)).
  { rewrite F. apply errors_finalizeLast. }
  split; [rewrite F; apply outputText_finalizeLast|].
  split; [exact T|]. split; [exact R|]. split.
  - intros n. rewrite T.
    assert (G : exists more,
               toolCalls st
               = toolCalls (fold_left (stepChunk jsonParse)
                              (firstn n (consumed stream)) initial) ++ more).
    { subst st.
      replace (fold_left (stepChunk jsonParse) (consumed stream) initial)
        with (fold_left (stepChunk jsonParse) (skipn n (consumed stream))
                (fold_left (stepChunk jsonParse) (firstn n (consumed stream))
                   initial))
        by (now rewrite <- fold_left_app, firstn_skipn).
      apply fold_stepChunk_grows. }
    destruct G as (more & ->). rewrite <- app_assoc. eauto.
  - intros c e C P. rewrite T, R. unfold pendingList. rewrite C.
    unfold completed, reported. cbn [flat_map]. rewrite P.
    simpl. now rewrite app_nil_r.
Qed.

Lemma stream_end_finalizes_pending_witness :
  toolCalls (call Json.parse truncatedStream)
  = [mkToolCall "call_a" "get_calendars" (JObject [])]
  /\ errors (call Json.parse truncatedStream)
     = ["Failed to parse tool call arguments: SyntaxError: Unexpected token or end of JSON input"%string].
Proof.
  exact (proj2 (proj2 (proj2 (proj2
           (stream_end_finalizes_pending Json.parse truncatedStream))))
           (mkPending 1 "call_b" "bash" "{")
           "SyntaxError: Unexpected token or end of JSON input"%string
           eq_refl eq_refl).
Defined.

End AggregatorExamples.

(** * The dispatcher *)

Module ToolsFacts.
Import JS JSDate Effects DateFormat GoogleTools Tools.

Lemma dispatch_unsupported (h : Host) (b : Backend) (p : Presenter)
    (tc : ToolCall) (auth : option OAuth2Client) :
  ~ In (name tc) toolNames ->
  dispatch h b p tc auth = throw (newError ("Unsupported tool: " ++ name tc)).
Proof.
  intros N. unfold dispatch.
  repeat match goal with
  | |- context [String.eqb (name tc) ?s] =>
      destruct (String.eqb_spec (name tc) s) as [E|_];
      [exfalso; apply N; rewrite E; unfold toolNames; simpl; tauto|]
  end.
  reflexivity.
Qed.

Lemma includes_unsupported (n : string) :
  includes "googleapis" ("Unsupported tool: " ++ n) = includes "googleapis" n.
Proof. reflexivity. Qed.

(** ** Computations that leave the world alone *)

Import EffectSpec.

Lemma bind_run {A B : Type} (c : Eff A) (k : A -> Eff B) (w : World) :
  bind c k w
  = match c w with
    | (inr x, w') => k x w'
    | (inl e, w') => (inl e, w')
    end.
Proof. reflexivity. Qed.

Lemma bind_known {A B : Type} (c : Eff A) (k : A -> Eff B) (w w1 : World)
    (x : A) :
  c w = (inr x, w1) -> bind c k w = k x w1.
Proof. intros E. unfold bind. now rewrite E. Qed.

Lemma pure_ret {A : Type} (x : A) : pureEff (ret x).
Proof. now intros w. Qed.

Lemma pure_throw {A : Type} (e : JSError) : pureEff (@throw A e).
Proof. now intros w. Qed.

Lemma pure_lift {A : Type} (r : JSError + A) : pureEff (lift r).
Proof. now intros w. Qed.

Lemma pure_bind {A B : Type} (c : Eff A) (k : A -> Eff B) :
  pureEff c -> (forall x, pureEff (k x)) -> pureEff (bind c k).
Proof.
  intros Pc Pk w. unfold bind. specialize (Pc w).
  destruct (c w) as [[e|x] w']; simpl in *; subst; [reflexivity|apply Pk].
Qed.

Lemma pure_when (c : bool) (body : Eff unit) : pureEff body -> pureEff (when c body).
Proof. destruct c; [auto|intros _; apply pure_ret]. Qed.

Lemma pure_getProp (v : JSVal) (k : string) : pureEff (getProp v k).
Proof. unfold getProp. destruct (nullish v); [apply pure_throw|apply pure_ret]. Qed.

Lemma pure_requireAuth (auth : option OAuth2Client) : pureEff (requireAuth auth).
Proof. destruct auth; [apply pure_ret|apply pure_throw]. Qed.

Lemma pure_validateString (h : Host) (v : JSVal) (n : string) :
  pureEff (validateString h v n).
Proof.
  unfold validateString.
  destruct (negb (nullish v) && negb (isString v));
    [apply pure_throw|apply pure_ret].
Qed.

Lemma pure_validateInteger (h : Host) (v : JSVal) (n : string)
    (lo hi : option Z) :
  pureEff (validateInteger h v n lo hi).
Proof.
  unfold validateInteger. destruct (nullish v); [apply pure_ret|].
  destruct (negb (isInteger v)); [apply pure_throw|].
  destruct v; try apply pure_ret.
  apply pure_bind.
  - destruct lo as [m|]; [|apply pure_ret].
    destruct (numLt q (inject_Z m)); [apply pure_throw|apply pure_ret].
  - intros _. destruct hi as [m|]; [|apply pure_ret].
    destruct (numLt (inject_Z m) q); [apply pure_throw|apply pure_ret].
Qed.

Lemma pure_validateEmails (h : Host) (n : string) (emails : list JSVal) :
  forall i, pureEff (validateEmails h n i emails).
Proof.
  induction emails as [|e r IH]; intros i; [apply pure_ret|].
  cbn [validateEmails]. destruct e; try apply pure_throw.
  destruct (emailRegex s); [apply IH|apply pure_throw].
Qed.

Lemma pure_validateEmailArray (h : Host) (v : JSVal) (n : string) :
  pureEff (validateEmailArray h v n).
Proof.
  unfold validateEmailArray. destruct (nullish v); [apply pure_ret|].
  destruct v; try apply pure_throw. apply pure_validateEmails.
Qed.

Lemma pure_asArray (v : JSVal) (m : string) : pureEff (asArray v m).
Proof. destruct v; try apply pure_throw. apply pure_ret. Qed.

Lemma pure_attendeeObjects (v : JSVal) : pureEff (attendeeObjects v).
Proof.
  unfold attendeeObjects. destruct (nullish v); [apply pure_ret|].
  apply pure_bind; [apply pure_asArray|intros; apply pure_ret].
Qed.

Lemma pure_quiet {A : Type} (c : Eff A) : pureEff c -> quiet c.
Proof. intros P w. now rewrite P. Qed.

Lemma quiet_bind {A B : Type} (c : Eff A) (k : A -> Eff B) :
  quiet c -> (forall x, quiet (k x)) -> quiet (bind c k).
Proof.
  intros Qc Qk w. unfold bind. specialize (Qc w).
  destruct (c w) as [[e|x] w']; simpl in *; [exact Qc|].
  now rewrite Qk.
Qed.

Lemma quiet_tryCatch {A : Type} (c : Eff A) (k : JSError -> Eff A) :
  quiet c -> (forall e, quiet (k e)) -> quiet (tryCatch c k).
Proof.
  intros Qc Qk w. unfold tryCatch. specialize (Qc w).
  destruct (c w) as [[e|x] w']; simpl in *; [|exact Qc].
  now rewrite Qk.
Qed.

Lemma quiet_newDate (h : Host) : quiet (newDate h).
Proof. now intros w. Qed.

Lemma quiet_ret {A : Type} (x : A) : quiet (ret x).
Proof. now intros w. Qed.

Lemma quiet_throw {A : Type} (e : JSError) : quiet (@throw A e).
Proof. now intros w. Qed.

Ltac quiet_steps :=
  repeat first
    [ apply quiet_ret | apply quiet_throw | apply quiet_newDate
    | apply quiet_bind; [|intros ?] | apply quiet_tryCatch; [|intros ?]
    | match goal with
      | |- quiet (if ?c then _ else _) => destruct c
      | |- quiet (match ?x with _ => _ end) => destruct x
      end ].

Lemma quiet_parseStringDate (h : Host) (s : string) : quiet (parseStringDate h s).
Proof. unfold parseStringDate. quiet_steps. Qed.

Lemma quiet_formatDateTimeForGoogle (h : Host) (v : JSVal) (tz : option string) :
  quiet (formatDateTimeForGoogle h v tz).
Proof.
  unfold formatDateTimeForGoogle.
  destruct (negb (truthy v)); [apply quiet_throw|].
  apply quiet_tryCatch; [|intros; apply quiet_throw].
  apply quiet_bind.
  - destruct v; try apply quiet_throw; [apply quiet_ret|apply quiet_parseStringDate].
  - intros [t|]; [|apply quiet_throw]. unfold dateToISOString. quiet_steps.
Qed.

Lemma quiet_normalizeDateTime (h : Host) (v : JSVal) (n : string) :
  quiet (normalizeDateTime h v n).
Proof.
  unfold normalizeDateTime. apply quiet_tryCatch; [|intros; apply quiet_throw].
  apply quiet_bind; [apply quiet_formatDateTimeForGoogle|intros; apply quiet_ret].
Qed.

(** Stepping through a sequence whose first computation is pure or quiet. *)
Lemma rejected_bind_pure {A B : Type} (w0 : World) (c : Eff A)
    (k : A -> Eff B) (w : World) :
  pureEff c -> trace w = trace w0 ->
  (forall x, rejected w0 (k x w)) -> rejected w0 (bind c k w).
Proof.
  intros P T K. rewrite bind_run. specialize (P w).
  destruct (c w) as [[e|x] w']; simpl in P; subst w'.
  - exists e, w. now split.
  - apply K.
Qed.

Lemma okString_run (h : Host) (v : JSVal) (n : string) (w : World) :
  okString v -> validateString h v n w = (inr tt, w).
Proof.
  intros [N|S]; unfold validateString; [rewrite N|rewrite S];
    rewrite ?andb_false_r; reflexivity.
Qed.

Lemma okEmails_run (h : Host) (v : JSVal) (n : string) (w : World) :
  okEmails v -> validateEmailArray h v n w = (inr tt, w).
Proof.
  intros [N|(items & -> & F)]; unfold validateEmailArray; [now rewrite N|].
  cbn [nullish]. generalize 0%nat.
  induction F as [|e r (s & -> & E) F IH]; intros i; [reflexivity|].
  cbn [validateEmails]. rewrite E. apply IH.
Qed.

Lemma handleToolCall_of_error (h : Host) (b : Backend) (p : Presenter)
    (tc : ToolCall) (auth : option OAuth2Client) (w w' : World) (e : JSError) :
  dispatch h b p tc auth w = (inl e, w') ->
  handleToolCall h b p tc auth w
  = (inr (mkMessage "tool" (id tc)
            ("Error executing " ++ name tc ++ ": "
             ++ (if isGoogleApiError e then formatGoogleApiError e
                 else err_message e))%string), w').
Proof.
  intros D. unfold handleToolCall, tryCatch, bind. rewrite D.
  now destruct (isGoogleApiError e).
Qed.

End ToolsFacts.

Section DispatcherClaims.
Import JS JSDate Effects DateFormat GoogleTools Tools EffectSpec ToolsFacts.
Import JSDateFacts DateFormatFacts.


(** C10 (amended).  For a request whose name is none of the nine tools,
    [handleToolCall] performs no shell or calendar operation and returns the
    tool message "Error executing <name>: Unsupported tool: <name>", except
    that a name containing "googleapis" makes the error pass for one of the
    calendar service, and the content is then
    "Error executing <name>: Google Calendar API error (unknown):
    Unsupported tool: <name>". *)
Theorem unsupported_tool_message :
  forall (h : Host) (b : Backend) (p : Presenter) (tc : ToolCall)
         (auth : option OAuth2Client) (w : World),
    ~ In (name tc) toolNames ->
    handleToolCall h b p tc auth w
    = (inr (mkMessage "tool" (id tc)
              (if includes "googleapis" (name tc)
               then "Error executing " ++ name tc
                    ++ ": Google Calendar API error (unknown): Unsupported tool: "
                    ++ name tc
               else "Error executing " ++ name tc ++ ": Unsupported tool: "
                    ++ name tc)%string), w).
Proof.
  intros h b p tc auth w N.
  unfold handleToolCall, tryCatch, bind.
  rewrite (dispatch_unsupported h b p tc auth N).
  unfold throw, ret, isGoogleApiError, formatGoogleApiError, newError.
  cbn [err_self det_code err_response err_cause err_ctor det_message
       errorDetailsOf det_errors det_error_description det_status
       orb someTruthy].
  change (String.eqb "Error" "GaxiosError") with false.
  change (String.eqb ("Unsupported tool: " ++ name tc) EmptyString) with false.
  cbn [orb]. rewrite includes_unsupported.
  destruct (includes "googleapis" (name tc)); reflexivity.
Qed.

Lemma unsupported_tool_message_witness :
  handleToolCall Examples.utcHost (Examples.calendarOf []) Examples.presenter
    (mkToolCall "call_1" "send_email" (JObject [])) None Examples.start
  = (inr (mkMessage "tool" "call_1"
            "Error executing send_email: Unsupported tool: send_email"),
     Examples.start).
Proof.
  apply (unsupported_tool_message _ _ _
           (mkToolCall "call_1" "send_email" (JObject [])) None Examples.start).
  unfold toolNames. simpl.
  intros [H|[H|[H|[H|[H|[H|[H|[H|[H|[]]]]]]]]]]; discriminate H.
Defined.

(** C10, as stated, fails for a name that contains "googleapis". *)
Lemma unsupported_googleapis_tool_message :
  ~ In "googleapis" toolNames
  /\ handleToolCall Examples.utcHost (Examples.calendarOf [])
       Examples.presenter (mkToolCall "call_1" "googleapis" (JObject []))
       None Examples.start
     = (inr (mkMessage "tool" "call_1"
               "Error executing googleapis: Google Calendar API error (unknown): Unsupported tool: googleapis"),
        Examples.start)
  /\ content (mkMessage "tool" "call_1"
               "Error executing googleapis: Google Calendar API error (unknown): Unsupported tool: googleapis")
     <> "Error executing googleapis: Unsupported tool: googleapis".
Proof.
  split.
  - unfold toolNames. simpl.
    intros [H|[H|[H|[H|[H|[H|[H|[H|[H|[]]]]]]]]]]; discriminate H.
  - split; [reflexivity|]. simpl. discriminate.
Qed.

(** C6.  An [update_event] call that supplies both [startDateTime] and
    [endDateTime], normalized to the instants [ts] and [te] with [te <= ts],
    always fails: the tool message is "Error executing update_event: ..."
    and no operation of the calendar service (or of the shell) is performed.
    When the caller is authorised and the other arguments are valid, the
    message is the validation error "startDateTime must be before
    endDateTime". *)
Theorem update_event_rejects_unordered_times :
  forall (h : Host) (b : Backend) (p : Presenter) (tc : ToolCall)
         (auth : option OAuth2Client) (w w1 w2 : World) (ts te : Z),
    name tc = "update_event" ->
    let updateData := removeField "eventId" (ownProps (input tc)) in
    truthy (lookup "startDateTime" updateData) = true ->
    truthy (lookup "endDateTime" updateData) = true ->
    normalizeDateTime h (lookup "startDateTime" updateData) "startDateTime" w
    = (inr (toISOString ts), w1) ->
    normalizeDateTime h (lookup "endDateTime" updateData) "endDateTime" w1
    = (inr (toISOString te), w2) ->
    Z.abs ts <= maxTime -> Z.abs te <= maxTime ->
    te <= ts ->
    (exists text w',
        handleToolCall h b p tc auth w
        = (inr (mkMessage "tool" (id tc)
                  ("Error executing update_event: " ++ text)%string), w')
        /\ trace w' = trace w)
    /\ (auth <> None ->
        isString (prop (input tc) "eventId") = true ->
        truthy (prop (input tc) "eventId") = true ->
        okString (lookup "title" updateData) ->
        okString (lookup "description" updateData) ->
        okString (lookup "location" updateData) ->
        okEmails (lookup "attendees" updateData) ->
        handleToolCall h b p tc auth w
        = (inr (mkMessage "tool" (id tc)
                  "Error executing update_event: startDateTime must be before endDateTime"),
           w2)).
Proof.
  intros h b p tc auth w w1 w2 ts te Hn updateData Ts Te Ns Ne Vs Ve L.
  assert (D : dispatch h b p tc auth = updateEventCase h b p auth (input tc)).
  { unfold dispatch. now rewrite Hn. }
  assert (Q1 : trace w1 = trace w).
  { pose proof (quiet_normalizeDateTime h (lookup "startDateTime" updateData)
                  "startDateTime" w) as Q. now rewrite Ns in Q. }
  assert (Q2 : trace w2 = trace w).
  { pose proof (quiet_normalizeDateTime h (lookup "endDateTime" updateData)
                  "endDateTime" w1) as Q. rewrite Ne in Q. simpl in Q. congruence. }
  assert (G : dateGe (parse h (toISOString ts)) (parse h (toISOString te)) = true).
  { rewrite !parse_toISOString by assumption. simpl. now apply Z.leb_le. }
  assert (S1 : someTruthy (Some (toISOString ts)) = Some (toISOString ts)).
  { simpl. pose proof (toISOString_nonempty ts).
    destruct (toISOString ts); [contradiction|reflexivity]. }
  assert (S2 : someTruthy (Some (toISOString te)) = Some (toISOString te)).
  { simpl. pose proof (toISOString_nonempty te).
    destruct (toISOString te); [contradiction|reflexivity]. }
  split.
  - assert (R : rejected w (dispatch h b p tc auth w)).
    { rewrite D. unfold updateEventCase.
      apply rejected_bind_pure; [apply pure_requireAuth|reflexivity|intros _].
      apply rejected_bind_pure; [apply pure_getProp|reflexivity|intros eventId].
      apply rejected_bind_pure; [apply pure_validateString|reflexivity|intros _].
      apply rejected_bind_pure;
        [apply pure_when, pure_throw|reflexivity|intros _].
      fold updateData. rewrite Ts, Te.
      rewrite (bind_known _ _ w w1 (Some (toISOString ts)))
        by (rewrite bind_run, Ns; reflexivity).
      rewrite (bind_known _ _ w1 w2 (Some (toISOString te)))
        by (rewrite bind_run, Ne; reflexivity).
      apply rejected_bind_pure; [apply pure_validateString|exact Q2|intros _].
      apply rejected_bind_pure; [apply pure_validateString|exact Q2|intros _].
      apply rejected_bind_pure; [apply pure_validateString|exact Q2|intros _].
      apply rejected_bind_pure; [apply pure_validateEmailArray|exact Q2|intros _].
      rewrite S1, S2, G. rewrite bind_run. cbn [when throw].
      eexists. exists w2. split; [reflexivity|exact Q2]. }
    destruct R as (e & w' & E & T).
    rewrite (handleToolCall_of_error _ _ _ _ _ _ _ _ E), Hn.
    eexists. exists w'. split; [reflexivity|exact T].
  - intros A Is It Ot Od Ol Oe.
    rewrite (handleToolCall_of_error h b p tc auth w w2
               (newError "startDateTime must be before endDateTime"));
      [now rewrite Hn|].
    rewrite D. unfold updateEventCase.
    destruct auth as [a|]; [|contradiction].
    assert (Nn : nullish (input tc) = false).
    { destruct (input tc); try reflexivity; discriminate It. }
    rewrite (bind_known _ _ w w tt) by reflexivity.
    rewrite (bind_known _ _ w w (prop (input tc) "eventId"))
      by (unfold getProp; now rewrite Nn).
    rewrite (bind_known _ _ w w tt) by (apply okString_run; now right).
    rewrite It. rewrite (bind_known _ _ w w tt) by reflexivity.
    fold updateData. rewrite Ts, Te.
    rewrite (bind_known _ _ w w1 (Some (toISOString ts)))
      by (rewrite bind_run, Ns; reflexivity).
    rewrite (bind_known _ _ w1 w2 (Some (toISOString te)))
      by (rewrite bind_run, Ne; reflexivity).
    rewrite (bind_known _ _ w2 w2 tt) by now apply okString_run.
    rewrite (bind_known _ _ w2 w2 tt) by now apply okString_run.
    rewrite (bind_known _ _ w2 w2 tt) by now apply okString_run.
    rewrite (bind_known _ _ w2 w2 tt) by now apply okEmails_run.
    rewrite S1, S2, G. reflexivity.
Qed.

Lemma update_event_rejects_unordered_times_witness :
  handleToolCall Examples.utcHost (Examples.calendarOf []) Examples.presenter
    (mkToolCall "call_7" "update_event"
       (JObject [("eventId", JString "event_1");
                 ("startDateTime", JString "2024-01-15T11:00:00");
                 ("endDateTime", JString "2024-01-15T10:00:00")]))
    Examples.user Examples.start
  = (inr (mkMessage "tool" "call_7"
            "Error executing update_event: startDateTime must be before endDateTime"),
     Examples.start).
Proof.
  refine (proj2 (update_event_rejects_unordered_times Examples.utcHost
            (Examples.calendarOf []) Examples.presenter
            (mkToolCall "call_7" "update_event"
               (JObject [("eventId", JString "event_1");
                         ("startDateTime", JString "2024-01-15T11:00:00");
                         ("endDateTime", JString "2024-01-15T10:00:00")]))
            Examples.user Examples.start Examples.start Examples.start
            1705316400000 1705312800000
            eq_refl eq_refl eq_refl eq_refl eq_refl _ _ _) _ eq_refl eq_refl
            _ _ _ _);
    try (vm_compute; discriminate); try (left; reflexivity); discriminate.
Defined.

End DispatcherClaims.

(** * The interval computations *)

Module ConflictFacts.
Import JS JSDate Effects DateFormat GoogleTools IntervalSpec.

Lemma prop_nullish (v : JSVal) (k : string) :
  (if nullish v then JUndefined else prop v k) = prop v k.
Proof. now destruct v. Qed.

Lemma getProp_run (v : JSVal) (k : string) (w : World) :
  nullish v = false -> getProp v k w = (inr (prop v k), w).
Proof. intros N. unfold getProp. now rewrite N. Qed.

Lemma eventInstant_run (event : JSVal) (side : string) (w : World) :
  nullish event = false ->
  eventInstant event side w = (inr (instantOf event side), w).
Proof.
  intros N. unfold eventInstant, bind. rewrite getProp_run by exact N.
  unfold instantOf. now rewrite !prop_nullish.
Qed.

Lemma conflictsWith_run (h : Host) (startTime endTime : string)
    (event : JSVal) (w : World) :
  nullish event = false ->
  conflictsWith h startTime endTime event w
  = (inr (overlaps h startTime endTime event), w).
Proof.
  intros N. unfold conflictsWith, bind.
  rewrite !eventInstant_run by exact N. unfold overlaps.
  destruct (truthy (instantOf event "start")),
    (truthy (instantOf event "end")); reflexivity.
Qed.

Lemma filterM_conflicts (h : Host) (startTime endTime : string)
    (items : list JSVal) (w : World) :
  Forall (fun e => nullish e = false) items ->
  filterM (conflictsWith h startTime endTime) items w
  = (inr (filter (overlaps h startTime endTime) items), w).
Proof.
  induction 1 as [|e r N F IH]; [reflexivity|].
  cbn [filterM filter]. unfold bind at 1. rewrite conflictsWith_run by exact N.
  unfold bind at 1. rewrite IH. reflexivity.
Qed.

Lemma dateLt_spec (a b : option Z) :
  dateLt a b = true <-> exists x y, a = Some x /\ b = Some y /\ x < y.
Proof.
  destruct a as [x|], b as [y|]; simpl; split.
  - intros H. apply Z.ltb_lt in H. eauto.
  - intros (x' & y' & E1 & E2 & L). inversion E1; inversion E2; subst.
    now apply Z.ltb_lt.
  - discriminate.
  - intros (? & ? & _ & E & _). discriminate.
  - discriminate.
  - intros (? & ? & E & _). discriminate.
  - discriminate.
  - intros (? & ? & E & _). discriminate.
Qed.

Lemma overlaps_spec (h : Host) (startTime endTime : string) (event : JSVal) :
  overlaps h startTime endTime event = true
  <-> exists qs qe es ee,
        parse h startTime = Some qs /\ parse h endTime = Some qe
        /\ eventInterval h event es ee
        /\ es < qe /\ qs < ee.
Proof.
  unfold overlaps, eventInterval.
  rewrite !andb_true_iff, !dateLt_spec. split.
  - intros (((T1 & T2) & (qs & ee & P1 & P2 & L1)) & (es & qe & P3 & P4 & L2)).
    exists qs, qe, es, ee. tauto.
  - intros (qs & qe & es & ee & P1 & P2 & (T1 & T2 & P3 & P4) & L1 & L2).
    repeat split; eauto 8.
Qed.

Lemma itemsOf_items (items : list JSVal) (w : World) :
  itemsOf (JObject [("items", JArray items)]) w = (inr (JArray items), w).
Proof. reflexivity. Qed.

End ConflictFacts.

Section ConflictClaim.
Import JS JSDate Effects DateFormat GoogleTools IntervalSpec ConflictFacts.

(** C4.  When the list query answers with the events [items],
    [checkForConflicts] returns, in their order, exactly the events that
    have a start and an end value and whose interval overlaps the window
    strictly: the event starts before the window ends and ends after the
    window starts.  For the window 10:00 to 11:00, an event from 10:30 to
    10:45 is a conflict and an event from 11:00 to 12:00 is not. *)
Theorem check_conflicts_overlap :
  forall (h : Host) (b : Backend) (startTime endTime : string)
         (calendarId : JSVal) (items : list JSVal) (w : World),
    (forall params,
        service b (CallEventsList params)
        = inr (JObject [("items", JArray items)])) ->
    Forall (fun e => nullish e = false) items ->
    (fst (checkForConflicts h b startTime endTime calendarId w)
     = inr (filter (overlaps h startTime endTime) items)
     /\ forall event,
          In event (filter (overlaps h startTime endTime) items)
          <-> In event items
              /\ exists qs qe es ee,
                   parse h startTime = Some qs /\ parse h endTime = Some qe
                   /\ eventInterval h event es ee
                   /\ es < qe /\ qs < ee)
    /\ fst (checkForConflicts Examples.utcHost
              (Examples.calendarOf
                 [Examples.timedEvent "standup" "2024-01-15T10:30:00Z"
                    "2024-01-15T10:45:00Z";
                  Examples.timedEvent "review" "2024-01-15T11:00:00Z"
                    "2024-01-15T12:00:00Z"])
              "2024-01-15T10:00:00.000Z" "2024-01-15T11:00:00.000Z"
              JUndefined Examples.start)
       = inr [Examples.timedEvent "standup" "2024-01-15T10:30:00Z"
                "2024-01-15T10:45:00Z"].
Proof.
  intros h b startTime endTime calendarId items w S N.
  split; [|vm_compute; reflexivity]. split.
  - unfold checkForConflicts, getEventsInTimeRange, bind, newDate, callService.
    rewrite S. rewrite itemsOf_items. cbn [asArray ret].
    now rewrite filterM_conflicts.
  - intros event. rewrite filter_In, overlaps_spec. tauto.
Qed.

Lemma check_conflicts_overlap_witness :
  fst (checkForConflicts Examples.westHost
         (Examples.calendarOf
            [Examples.timedEvent "lunch" "2024-01-15T12:00:00-05:00"
               "2024-01-15T13:00:00-05:00"])
         "2024-01-15T17:30:00.000Z" "2024-01-15T18:30:00.000Z"
         (JString "primary") Examples.start)
  = inr [Examples.timedEvent "lunch" "2024-01-15T12:00:00-05:00"
           "2024-01-15T13:00:00-05:00"].
Proof.
  exact (proj1 (proj1
           (check_conflicts_overlap Examples.westHost
              (Examples.calendarOf
                 [Examples.timedEvent "lunch" "2024-01-15T12:00:00-05:00"
                    "2024-01-15T13:00:00-05:00"])
              "2024-01-15T17:30:00.000Z" "2024-01-15T18:30:00.000Z"
              (JString "primary")
              [Examples.timedEvent "lunch" "2024-01-15T12:00:00-05:00"
                 "2024-01-15T13:00:00-05:00"]
              Examples.start
              (fun _ => eq_refl)
              ltac:(repeat constructor)))).
Defined.

End ConflictClaim.

Module SweepFacts.
Import JS JSDate Effects DateFormat GoogleTools IntervalSpec.

(** ** Sorting by start *)

Lemma insertSlot_busy (x : Z * Z) (l : list (Z * Z)) :
  insertSlot (busySlot x) (map busySlot l) = map busySlot (insertByStart x l).
Proof.
  induction l as [|y r IH]; [reflexivity|].
  cbn [map insertSlot insertByStart].
  change (startsAfter (busySlot x) (busySlot y)) with (fst y <? fst x).
  destruct (fst y <? fst x); [|reflexivity]. cbn [map]. now rewrite IH.
Qed.

Lemma sortSlots_busy (l : list (Z * Z)) :
  sortSlots (map busySlot l) = map busySlot (sortByStart l).
Proof.
  induction l as [|x r IH]; [reflexivity|].
  unfold sortSlots, sortByStart in *. cbn [map fold_right].
  now rewrite IH, insertSlot_busy.
Qed.

Lemma insertByStart_perm (x : Z * Z) (l : list (Z * Z)) :
  Permutation (x :: l) (insertByStart x l).
Proof.
  induction l as [|y r IH]; [reflexivity|].
  cbn [insertByStart]. destruct (fst y <? fst x); [|reflexivity].
  rewrite perm_swap. now apply perm_skip.
Qed.

Lemma sortByStart_perm (l : list (Z * Z)) : Permutation l (sortByStart l).
Proof.
  induction l as [|x r IH]; [reflexivity|].
  unfold sortByStart in *. cbn [fold_right].
  rewrite <- insertByStart_perm. now apply perm_skip.
Qed.

Lemma insertByStart_sorted (x : Z * Z) (l : list (Z * Z)) :
  StronglySorted byStart l -> StronglySorted byStart (insertByStart x l).
Proof.
  induction 1 as [|y r S IH F]; [repeat constructor|].
  cbn [insertByStart]. destruct (Z.ltb_spec (fst y) (fst x)).
  - constructor; [exact IH|].
    rewrite <- (insertByStart_perm x r).
    constructor; [unfold byStart; lia | exact F].
  - constructor; [now constructor|].
    constructor; [exact H|].
    eapply Forall_impl; [|exact F]. unfold byStart. intros a. lia.
Qed.

Lemma sortByStart_sorted (l : list (Z * Z)) :
  StronglySorted byStart (sortByStart l).
Proof.
  induction l as [|x r IH]; [constructor|].
  unfold sortByStart in *. cbn [fold_right]. now apply insertByStart_sorted.
Qed.

(** The sort is stable: intervals with the same start keep their order. *)
Lemma insertByStart_stable (x : Z * Z) (l : list (Z * Z)) (k : Z) :
  filter (fun i => fst i =? k) (insertByStart x l)
  = filter (fun i => fst i =? k) (x :: l).
Proof.
  induction l as [|y r IH]; [reflexivity|].
  cbn [insertByStart]. destruct (Z.ltb_spec (fst y) (fst x)); [|reflexivity].
  cbn [filter] in *. rewrite IH.
  destruct (Z.eqb_spec (fst y) k), (Z.eqb_spec (fst x) k); try reflexivity.
  lia.
Qed.

Lemma sortByStart_stable (l : list (Z * Z)) (k : Z) :
  filter (fun i => fst i =? k) (sortByStart l)
  = filter (fun i => fst i =? k) l.
Proof.
  induction l as [|x r IH]; [reflexivity|].
  unfold sortByStart in *. cbn [fold_right].
  rewrite insertByStart_stable. cbn [filter]. now rewrite IH.
Qed.

(** ** The loop computes the gaps *)

Lemma TimeClip_valid (t : Z) : validTime t -> TimeClip t = Some t.
Proof.
  unfold validTime, TimeClip. intros V.
  destruct (Z.leb_spec (Z.abs t) maxTime); [reflexivity|lia].
Qed.

Lemma validTime_min (a b : Z) : validTime a -> validTime b -> validTime (Z.min a b).
Proof. unfold validTime. lia. Qed.

Lemma validTime_max (a b : Z) : validTime a -> validTime b -> validTime (Z.max a b).
Proof. unfold validTime. lia. Qed.

Lemma sweep_gaps (end_ dur : Z) (busy : list (Z * Z)) :
  validTime end_ -> Forall validInterval busy ->
  forall cur acc, validTime cur ->
  lastGap end_ dur
    (sweep (Some end_) (Some dur) (map busySlot busy) (Some cur) acc)
  = acc ++ gaps end_ dur busy cur.
Proof.
  intros Ve F. induction F as [|[s e] r [Vs Ve'] F IH]; intros cur acc Vc.
  - cbn [map sweep gaps lastGap dateLt spanAtLeast pushSlot].
    destruct (cur <? end_), (dur <=? end_ - cur); cbn [andb];
      now rewrite ?app_nil_r.
  - cbn [map sweep gaps busySlot busy_start busy_end fst snd] in *.
    cbn [dateLt timeMin2 timeMax2 TimeClipO].
    rewrite (TimeClip_valid (Z.min s end_)) by now apply validTime_min.
    rewrite (TimeClip_valid (Z.max cur e)) by now apply validTime_max.
    cbn [spanAtLeast pushSlot].
    rewrite IH by now apply validTime_max.
    destruct (cur <? s), (dur <=? Z.min s end_ - cur); cbn [andb app];
      now rewrite <- ?app_assoc.
Qed.

Lemma freeSlotsOf_gaps (start end_ dur : Z) (busy : list (Z * Z)) :
  validTime start -> validTime end_ -> Forall validInterval busy ->
  freeSlotsOf (Some start) (Some end_) (Some dur) (map busySlot busy)
  = gaps end_ dur (sortByStart busy) start.
Proof.
  intros Vs Ve F. unfold freeSlotsOf. rewrite sortSlots_busy.
  assert (F' : Forall validInterval (sortByStart busy)).
  { eapply Permutation_Forall; [apply sortByStart_perm | exact F]. }
  pose proof (sweep_gaps end_ dur (sortByStart busy) Ve F' start [] Vs) as G.
  unfold lastGap in G.
  destruct (sweep (Some end_) (Some dur) (map busySlot (sortByStart busy))
              (Some start) []) as [c fs].
  exact G.
Qed.

(** ** What the gaps are *)

Section Gaps.

Variables end_ dur : Z.
Hypothesis dur_pos : 0 < dur.

Lemma gaps_sound (busy : list (Z * Z)) :
  StronglySorted byStart busy ->
  forall cur a b, In (a, b) (gaps end_ dur busy cur) ->
  cur <= a /\ a < b /\ b <= end_ /\ dur <= b - a
  /\ freeSpan busy a b
  /\ (a = cur \/ exists s e, In (s, e) busy /\ a = e)
  /\ (b = end_ \/ exists s e, In (s, e) busy /\ b = s).
Proof.
  induction 1 as [|[s e] r S IH F]; intros cur a b I.
  - cbn [gaps] in I.
    destruct (Z.ltb_spec cur end_), (Z.leb_spec dur (end_ - cur));
      cbn [andb] in I; try contradiction.
    destruct I as [I|[]]. inversion I; subst.
    do 4 (split; [lia|]). split; [|split; now left].
    intros x _ (s & e & [] & _).
  - cbn [gaps] in I. apply in_app_or in I as [I|I].
    + destruct (Z.ltb_spec cur s), (Z.leb_spec dur (Z.min s end_ - cur));
        cbn [andb] in I; try contradiction.
      destruct I as [I|[]]. inversion I; subst.
      do 4 (split; [lia|]). split; [|split].
      * intros x X (s' & e' & [E|I'] & B).
        -- inversion E; subst. lia.
        -- rewrite Forall_forall in F. specialize (F _ I').
           unfold byStart in F. simpl in F. lia.
      * now left.
      * destruct (Z.le_gt_cases s end_).
        -- right. exists s, e. split; [now left|lia].
        -- left. lia.
    + destruct (IH _ _ _ I) as (C & L & E & D & Fr & Ma & Mb).
      do 4 (split; [lia|]). split; [|split].
      * intros x X (s' & e' & [Eq|I'] & B).
        -- inversion Eq; subst. lia.
        -- apply (Fr x X). exists s', e'. now split.
      * destruct Ma as [Ma|(s' & e' & I' & Ma)].
        -- destruct (Z.max_spec cur e) as [[_ M]|[_ M]].
           ++ right. exists s, e. split; [now left|lia].
           ++ left. lia.
        -- right. exists s', e'. split; [now right|exact Ma].
      * destruct Mb as [Mb|(s' & e' & I' & Mb)]; [now left|].
        right. exists s', e'. split; [now right|exact Mb].
Qed.

Lemma gaps_complete (busy : list (Z * Z)) :
  Forall (fun i => fst i < snd i) busy ->
  forall cur a b, cur <= a -> b <= end_ -> dur <= b - a ->
  freeSpan busy a b ->
  exists a' b', In (a', b') (gaps end_ dur busy cur) /\ a' <= a /\ b <= b'.
Proof.
  induction 1 as [|[s e] r N F IH]; intros cur a b C E D Fr.
  - exists cur, end_. cbn [gaps].
    destruct (Z.ltb_spec cur end_), (Z.leb_spec dur (end_ - cur));
      cbn [andb]; try lia.
    split; [now left|lia].
  - simpl in N. cbn [gaps].
    assert (O : b <= s \/ e <= a).
    { destruct (Z.le_gt_cases b s) as [|G]; [now left|]. right.
      destruct (Z.le_gt_cases e a) as [|G']; [assumption|]. exfalso.
      apply (Fr (Z.max a s)); [lia|]. exists s, e. split; [now left|lia]. }
    destruct O as [O|O].
    + exists cur, (Z.min s end_).
      destruct (Z.ltb_spec cur s), (Z.leb_spec dur (Z.min s end_ - cur));
        cbn [andb]; try lia.
      split; [apply in_or_app; left; now left|lia].
    + destruct (IH (Z.max cur e) a b ltac:(lia) E D) as (a' & b' & I & A & B).
      { intros x X (s' & e' & I' & Bz). apply (Fr x X).
        exists s', e'. split; [now right|exact Bz]. }
      exists a', b'. split; [apply in_or_app; now right|lia].
Qed.

Lemma gaps_lower (busy : list (Z * Z)) :
  forall cur a b, In (a, b) (gaps end_ dur busy cur) -> cur <= a /\ a < b.
Proof.
  induction busy as [|[s e] r IH]; intros cur a b I.
  - cbn [gaps] in I.
    destruct (Z.ltb_spec cur end_), (Z.leb_spec dur (end_ - cur));
      cbn [andb] in I; try contradiction.
    destruct I as [I|[]]. inversion I; subst. lia.
  - cbn [gaps] in I. apply in_app_or in I as [I|I].
    + destruct (Z.ltb_spec cur s), (Z.leb_spec dur (Z.min s end_ - cur));
        cbn [andb] in I; try contradiction.
      destruct I as [I|[]]. inversion I; subst. lia.
    + apply IH in I. lia.
Qed.

Lemma separated_cons (a b : Z) (l : list FreeSlot) :
  separated l -> (forall a' b', In (a', b') l -> b <= a') ->
  separated ((a, b) :: l).
Proof.
  intros S H. destruct l as [|[a' b'] r]; [exact I|].
  cbn [separated]. split; [apply (H a' b'); now left | exact S].
Qed.

Lemma gaps_separated (busy : list (Z * Z)) :
  Forall (fun i => fst i <= snd i) busy ->
  forall cur, separated (gaps end_ dur busy cur).
Proof.
  induction 1 as [|[s e] r N F IH]; intros cur.
  - cbn [gaps]. destruct ((cur <? end_) && (dur <=? end_ - cur)); exact I.
  - simpl in N. cbn [gaps].
    destruct ((cur <? s) && (dur <=? Z.min s end_ - cur)); cbn [app];
      [|apply IH].
    apply separated_cons; [apply IH|].
    intros a' b' I'. apply gaps_lower in I'. lia.
Qed.

End Gaps.

Lemma isBusy_perm (l l' : list (Z * Z)) (x : Z) :
  Permutation l l' -> isBusy l x <-> isBusy l' x.
Proof.
  intros P. unfold isBusy. split; intros (s & e & I & B); exists s, e;
    (split; [|exact B]).
  - eapply Permutation_in; [exact P|exact I].
  - eapply Permutation_in; [symmetry; exact P|exact I].
Qed.

Lemma freeSpan_perm (l l' : list (Z * Z)) (a b : Z) :
  Permutation l l' -> freeSpan l a b <-> freeSpan l' a b.
Proof.
  intros P. unfold freeSpan. split; intros H x X B; apply (H x X);
    [apply (isBusy_perm l l' x P) | apply (isBusy_perm l l' x P)]; exact B.
Qed.

End SweepFacts.

Section FreeTimeClaim.
Import JS JSDate Effects DateFormat GoogleTools IntervalSpec SweepFacts.



End FreeTimeClaim.

(** * Timestamps that reach the calendar service *)

Module ObjectFacts.
Import JS EffectSpec.

Lemma lookup_setField (k k' : string) (v : JSVal) (l : list (string * JSVal)) :
  lookup k (setField k' v l) = if String.eqb k k' then v else lookup k l.
Proof.
  induction l as [|[k0 v0] r IH]; cbn [setField lookup].
  - now destruct (String.eqb k k').
  - destruct (String.eqb_spec k' k0) as [->|N].
    + cbn [lookup]. now destruct (String.eqb k k0).
    + cbn [lookup]. rewrite IH.
      destruct (String.eqb_spec k k0) as [->|]; [|reflexivity].
      destruct (String.eqb_spec k0 k'); [congruence|reflexivity].
Qed.

Lemma hasKey_setField (k k' : string) (v : JSVal) (l : list (string * JSVal)) :
  hasKey k (setField k' v l) = String.eqb k k' || hasKey k l.
Proof.
  induction l as [|[k0 v0] r IH]; cbn [setField hasKey].
  - now rewrite orb_false_r.
  - destruct (String.eqb_spec k' k0) as [->|N]; cbn [hasKey].
    + now destruct (String.eqb k k0).
    + rewrite IH. destruct (String.eqb k k0), (String.eqb k k'); reflexivity.
Qed.

Lemma hasKey_In (k : string) (l : list (string * JSVal)) :
  hasKey k l = true <-> In k (map fst l).
Proof.
  induction l as [|[k0 v0] r IH]; cbn [hasKey map fst In]; [easy|].
  rewrite orb_true_iff, IH. destruct (String.eqb_spec k k0); intuition congruence.
Qed.

Lemma lookup_missing (k : string) (l : list (string * JSVal)) :
  hasKey k l = false -> lookup k l = JUndefined.
Proof.
  induction l as [|[k0 v0] r IH]; [reflexivity|]. cbn [hasKey lookup].
  destruct (String.eqb k k0); [discriminate|exact IH].
Qed.

Lemma lookup_assign (k : string) (b : list (string * JSVal)) :
  NoDup (map fst b) ->
  forall a, lookup k (assign a b)
            = if hasKey k b then lookup k b else lookup k a.
Proof.
  unfold assign. induction b as [|[k0 v0] r IH]; intros N a; [reflexivity|].
  cbn [map fst] in N. inversion N as [|? ? Nin N']; subst.
  cbn [fold_left fst snd hasKey lookup]. rewrite IH by exact N'.
  destruct (String.eqb_spec k k0) as [->|Ne]; cbn [orb].
  - destruct (hasKey k0 r) eqn:H.
    + apply hasKey_In in H. contradiction.
    + now rewrite lookup_setField, String.eqb_refl.
  - destruct (hasKey k r); [reflexivity|].
    rewrite lookup_setField.
    destruct (String.eqb_spec k k0); [congruence|reflexivity].
Qed.

Lemma keys_setField (k : string) (v : JSVal) (l : list (string * JSVal)) :
  NoDup (map fst l) -> NoDup (map fst (setField k v l)).
Proof.
  induction l as [|[k0 v0] r IH]; intros N.
  - cbn. constructor; [easy|constructor].
  - cbn [map fst] in N. inversion N as [|? ? Nin N']; subst.
    cbn [setField]. destruct (String.eqb_spec k k0) as [->|Ne].
    + cbn [map fst]. now constructor.
    + cbn [map fst]. constructor; [|now apply IH].
      intros I. apply hasKey_In in I. rewrite hasKey_setField in I.
      apply orb_true_iff in I as [I|I].
      * apply String.eqb_eq in I. congruence.
      * apply hasKey_In in I. contradiction.
Qed.

Lemma lookup_removeField (k k' : string) (l : list (string * JSVal)) :
  k <> k' -> lookup k (removeField k' l) = lookup k l.
Proof.
  intros N. induction l as [|[k0 v0] r IH]; [reflexivity|].
  cbn [removeField lookup]. destruct (String.eqb_spec k' k0) as [->|].
  - destruct (String.eqb_spec k k0); [congruence|exact IH].
  - cbn [lookup]. now rewrite IH.
Qed.

(** Indices are written with digits, so no property name of this program
    is an index. *)
Lemma natString_head (n : nat) :
  exists c r, natString n = String c r /\ JSDate.isDigit c = true.
Proof.
  unfold natString, NilZero.string_of_uint.
  destruct (Nat.to_uint n); cbn; eauto.
Qed.

Lemma lookup_indexed (k : string) (l : list JSVal) :
  namedKey k -> forall i, lookup k (indexed i l) = JUndefined
                          /\ hasKey k (indexed i l) = false.
Proof.
  intros K. induction l as [|x r IH]; intros i; [now split|].
  cbn [indexed lookup hasKey].
  destruct (natString_head i) as (c & s & E & D). rewrite E.
  destruct k as [|c' k']; cbn [String.eqb]; [apply IH|].
  simpl in K. destruct (Ascii.eqb_spec c' c) as [->|]; [congruence|].
  apply IH.
Qed.

Lemma lookup_ownProps (v : JSVal) (k : string) :
  namedKey k -> lookup k (ownProps v) = prop v k.
Proof.
  intros K. destruct v; try reflexivity; cbn [ownProps prop].
  - apply (lookup_indexed k _ K 0%nat).
  - apply (lookup_indexed k _ K 0%nat).
Qed.

Lemma hasKey_ownProps_falsy (v : JSVal) (k : string) :
  namedKey k -> hasKey k (ownProps v) = false -> prop v k = JUndefined.
Proof.
  intros K H. rewrite <- lookup_ownProps by exact K. now apply lookup_missing.
Qed.

Lemma distinct_indexed (l : list JSVal) :
  forall i, NoDup (map fst (indexed i l))
            /\ forall j, (j < i)%nat -> ~ In (natString j) (map fst (indexed i l)).
Proof.
  assert (NN : forall n, Nat.to_uint n <> Decimal.Nil).
  { intros [|n] E; [discriminate E|].
    pose proof (DecimalNat.Unsigned.of_to (S n)) as O. rewrite E in O.
    discriminate O. }
  assert (Inj : forall a b, natString a = natString b -> a = b).
  { intros a b E. unfold natString in E.
    apply (f_equal NilZero.uint_of_string) in E.
    rewrite !NilZero.usu in E by apply NN. inversion E as [E'].
    now apply DecimalNat.Unsigned.to_uint_inj. }
  induction l as [|x r IH]; intros i.
  - split; [constructor|intros j _ []].
  - destruct (IH (S i)) as (N & F). cbn [indexed map fst]. split.
    + constructor; [apply F; lia|exact N].
    + intros j J [E|I].
      * apply Inj in E. lia.
      * apply (F j); [lia|exact I].
Qed.

Lemma distinct_ownProps (v : JSVal) :
  EffectSpec.distinctKeys v -> NoDup (map fst (ownProps v)).
Proof.
  destruct v; cbn [ownProps EffectSpec.distinctKeys]; intros D;
    try constructor; try exact D; apply distinct_indexed.
Qed.

End ObjectFacts.

Module EmitFacts.
Import JS JSDate Effects DateFormat GoogleTools Tools EffectSpec ToolsFacts
  ObjectFacts.

Section Emits.

Variable Q : BackendCall -> Prop.

Lemma emits_ret {A : Type} (x : A) (P : A -> Prop) : P x -> emits Q (ret x) P.
Proof.
  intros Px w. split.
  - exists []. simpl. now rewrite app_nil_r.
  - intros y E. inversion E; subst. exact Px.
Qed.

Lemma emits_throw {A : Type} (e : JSError) (P : A -> Prop) :
  emits Q (@throw A e) P.
Proof.
  intros w. split.
  - exists []. simpl. now rewrite app_nil_r.
  - intros y E. discriminate E.
Qed.

Lemma emits_bind {A B : Type} (c : Eff A) (k : A -> Eff B) (P : A -> Prop)
    (R : B -> Prop) :
  emits Q c P -> (forall x, P x -> emits Q (k x) R) -> emits Q (bind c k) R.
Proof.
  intros Ec Ek w. destruct (Ec w) as ((n1 & T1 & F1) & V1).
  unfold bind. destruct (c w) as [[e|x] w1]; simpl in *.
  - split; [eauto|discriminate].
  - destruct (Ek x (V1 x eq_refl) w1) as ((n2 & T2 & F2) & V2). split.
    + exists (n1 ++ n2). rewrite T2, T1, app_assoc. split; [reflexivity|].
      apply Forall_app; now split.
    + exact V2.
Qed.

Lemma emits_tryCatch {A : Type} (c : Eff A) (k : JSError -> Eff A)
    (P : A -> Prop) :
  emits Q c P -> (forall e, emits Q (k e) P) -> emits Q (tryCatch c k) P.
Proof.
  intros Ec Ek w. destruct (Ec w) as ((n1 & T1 & F1) & V1).
  unfold tryCatch. destruct (c w) as [[e|x] w1]; simpl in *.
  - destruct (Ek e w1) as ((n2 & T2 & F2) & V2). split.
    + exists (n1 ++ n2). rewrite T2, T1, app_assoc. split; [reflexivity|].
      apply Forall_app; now split.
    + exact V2.
  - split; [eauto|]. intros y E. inversion E; subst. now apply V1.
Qed.

Lemma emits_weaken {A : Type} (c : Eff A) (P P' : A -> Prop) :
  emits Q c P -> (forall x, P x -> P' x) -> emits Q c P'.
Proof.
  intros E W w. destruct (E w) as (T & V). split; [exact T|].
  intros x Ex. apply W, V, Ex.
Qed.

Lemma emits_quiet {A : Type} (c : Eff A) (P : A -> Prop) :
  quiet c -> (forall w x, fst (c w) = inr x -> P x) -> emits Q c P.
Proof.
  intros Qc V w. split; [|apply V].
  exists []. now rewrite Qc, app_nil_r.
Qed.

Lemma emits_pure {A : Type} (c : Eff A) :
  pureEff c -> emits Q c (fun _ => True).
Proof. intros Pc. apply emits_quiet; [now apply pure_quiet|trivial]. Qed.

Lemma emits_callService (b : Backend) (c : BackendCall) :
  Q c -> emits Q (callService b c) (fun _ => True).
Proof.
  intros Qc w. split; [|trivial]. exists [c]. simpl. split; [reflexivity|].
  now constructor.
Qed.

Lemma emits_callShell (b : Backend) (command : JSVal) :
  Q (CallBash command) -> emits Q (callShell b command) (fun _ => True).
Proof.
  intros Qc w. split; [|trivial]. exists [CallBash command]. simpl.
  split; [reflexivity|]. now constructor.
Qed.

Lemma emits_lift {A : Type} (r : JSError + A) : emits Q (lift r) (fun _ => True).
Proof. apply emits_pure, pure_lift. Qed.

End Emits.

(** ** What the normalizer returns *)

Lemma formatDateTimeForGoogle_value (h : Host) (v : JSVal) (tz : option string)
    (w : World) (g : GoogleCalendarDateTime) :
  fst (formatDateTimeForGoogle h v tz w) = inr g ->
  exists t, dateTime g = toISOString t.
Proof.
  unfold formatDateTimeForGoogle.
  destruct (negb (truthy v)); [discriminate|].
  unfold tryCatch, bind.
  destruct ((match v with
             | JNumber q => ret (dateOfNumber q)
             | JString s => parseStringDate h s
             | _ => throw (newError ("Unsupported date type: " ++ typeof v))
             end) w) as [[e|[t|]] w1]; simpl; try discriminate.
  intros E. inversion E; subst. now exists t.
Qed.

Lemma normalizeDateTime_value (h : Host) (v : JSVal) (n : string) (w : World)
    (s : string) :
  fst (normalizeDateTime h v n w) = inr s -> exists t, s = toISOString t.
Proof.
  unfold normalizeDateTime, tryCatch, bind.
  pose proof (formatDateTimeForGoogle_value h v None w) as F.
  destruct (formatDateTimeForGoogle h v None w) as [[e|g] w1]; simpl in *;
    [discriminate|].
  intros E. inversion E; subst. now apply F.
Qed.

Lemma emits_normalizeDateTime (Q : BackendCall -> Prop) (h : Host) (v : JSVal)
    (n : string) :
  emits Q (normalizeDateTime h v n) (fun s => exists t, s = toISOString t).
Proof.
  apply emits_quiet; [apply quiet_normalizeDateTime|].
  intros w s. apply normalizeDateTime_value.
Qed.

Lemma emits_createGoogleDateTime (Q : BackendCall -> Prop) (h : Host)
    (v : JSVal) :
  emits Q (createGoogleDateTime h v)
    (fun g => exists t, dateTime g = toISOString t).
Proof.
  apply emits_quiet; [apply quiet_formatDateTimeForGoogle|].
  intros w g. apply formatDateTimeForGoogle_value.
Qed.

Lemma emits_dateToISOString (Q : BackendCall -> Prop) (d : option Z) :
  emits Q (dateToISOString d) (fun s => exists t, s = toISOString t).
Proof.
  destruct d as [t|]; [|apply emits_throw]. apply emits_ret. now exists t.
Qed.

Lemma goodCall_lenient (c : BackendCall) : goodCall false c -> goodCall true c.
Proof.
  destruct c; cbn [goodCall]; intuition congruence.
Qed.

(** ** The calendar operations *)

Lemma pure_itemsOf (data : JSVal) : pureEff (itemsOf data).
Proof.
  unfold itemsOf. apply pure_bind; [apply pure_getProp|intros; apply pure_ret].
Qed.

Lemma emits_getEventsInTimeRange (lenient : bool) (h : Host) (b : Backend)
    (options : list (string * JSVal)) :
  (forall now,
      goodCall lenient
        (CallEventsList
           (assign [("calendarId", JString "primary");
                    ("maxResults", numZ 10);
                    ("timeMin", JString (toISOString now));
                    ("singleEvents", JBool true);
                    ("orderBy", JString "startTime")] options))) ->
  emits (goodCall lenient) (getEventsInTimeRange h b options) (fun _ => True).
Proof.
  intros G. unfold getEventsInTimeRange.
  apply (emits_bind _ _ _ (fun _ => True));
    [apply emits_quiet; [apply quiet_newDate|trivial]|].
  intros now _.
  apply (emits_bind _ _ _ (fun _ => True)); [apply emits_callService, G|].
  intros data _. apply emits_pure, pure_itemsOf.
Qed.

Lemma emits_createEvent (lenient : bool) (b : Backend) (event : JSVal)
    (options : list (string * JSVal)) :
  (forall params, lookup "requestBody" params = event ->
                  goodCall lenient (CallEventsInsert params)) ->
  NoDup (map fst options) -> hasKey "requestBody" options = false ->
  emits (goodCall lenient) (createEvent b event options) (fun _ => True).
Proof.
  intros G N H. unfold createEvent.
  apply emits_tryCatch; [|intros; apply emits_throw].
  apply emits_callService, G.
  rewrite lookup_assign by (repeat constructor; simpl; tauto).
  reflexivity.
Qed.

Lemma pure_mapM {A B : Type} (f : A -> Eff B) (l : list A) :
  (forall x, pureEff (f x)) -> pureEff (mapM f l).
Proof.
  intros F. induction l as [|x r IH]; [apply pure_ret|].
  cbn [mapM]. apply pure_bind; [apply F|intros y].
  apply pure_bind; [exact IH|intros; apply pure_ret].
Qed.

Lemma pure_filterM {A : Type} (f : A -> Eff bool) (l : list A) :
  (forall x, pureEff (f x)) -> pureEff (filterM f l).
Proof.
  intros F. induction l as [|x r IH]; [apply pure_ret|].
  cbn [filterM]. apply pure_bind; [apply F|intros y].
  apply pure_bind; [exact IH|intros; apply pure_ret].
Qed.

Lemma pure_numbered (f : JSVal -> Eff string) (l : list JSVal) :
  (forall x, pureEff (f x)) -> forall i, pureEff (numbered f i l).
Proof.
  intros F. induction l as [|x r IH]; intros i; [apply pure_ret|].
  cbn [numbered]. apply pure_bind; [apply F|intros y].
  apply pure_bind; [apply IH|intros; apply pure_ret].
Qed.

Lemma pure_formatCalendarEvents (p : Presenter) (events : list JSVal) :
  pureEff (formatCalendarEvents p events).
Proof.
  unfold formatCalendarEvents. destruct events; [apply pure_ret|].
  apply pure_bind; [|intros; apply pure_ret].
  apply pure_numbered. intros x. apply pure_lift.
Qed.

Lemma pure_formatSingleCalendarEvent (p : Presenter) (event : JSVal) :
  pureEff (formatSingleCalendarEvent p event).
Proof. apply pure_lift. Qed.

Lemma pure_eventInstant (event : JSVal) (side : string) :
  pureEff (eventInstant event side).
Proof.
  unfold eventInstant. apply pure_bind; [apply pure_getProp|intros; apply pure_ret].
Qed.

Lemma pure_conflictsWith (h : Host) (s e : string) (event : JSVal) :
  pureEff (conflictsWith h s e event).
Proof.
  unfold conflictsWith. apply pure_bind; [apply pure_eventInstant|intros x].
  apply pure_bind; [apply pure_eventInstant|intros y].
  destruct (negb (truthy x) || negb (truthy y)); apply pure_ret.
Qed.

Lemma pure_isTimed (event : JSVal) : pureEff (isTimed event).
Proof.
  unfold isTimed. apply pure_bind; [apply pure_getProp|intros x].
  destruct (negb (truthy (if nullish x then JUndefined else prop x "dateTime")));
    [apply pure_ret|].
  apply pure_bind; [apply pure_getProp|intros; apply pure_ret].
Qed.

Lemma pure_formatCalendar (h : Host) (cal : JSVal) : pureEff (formatCalendar h cal).
Proof.
  unfold formatCalendar. apply pure_bind; [apply pure_getProp|intros; apply pure_ret].
Qed.

Create HintDb pure_db.
#[local] Hint Resolve pure_ret pure_throw pure_lift pure_getProp
  pure_requireAuth pure_validateString pure_validateInteger
  pure_validateEmailArray pure_asArray pure_attendeeObjects pure_itemsOf
  pure_formatCalendarEvents pure_formatSingleCalendarEvent
  pure_conflictsWith pure_isTimed pure_formatCalendar : pure_db.

Lemma pure_when_throw (c : bool) (e : JSError) : pureEff (when c (throw e)).
Proof. apply pure_when, pure_throw. Qed.

#[local] Hint Resolve pure_when_throw : pure_db.

Lemma emits_pure_bind {A B : Type} (Q : BackendCall -> Prop) (c : Eff A)
    (k : A -> Eff B) (R : B -> Prop) :
  pureEff c -> (forall x, emits Q (k x) R) -> emits Q (bind c k) R.
Proof.
  intros Pc K. apply (emits_bind _ _ _ (fun _ => True));
    [now apply emits_pure|intros x _; apply K].
Qed.

Lemma emits_norm_bind {B : Type} (Q : BackendCall -> Prop) (h : Host)
    (v : JSVal) (n : string) (k : string -> Eff B) (R : B -> Prop) :
  (forall t, emits Q (k (toISOString t)) R) ->
  emits Q (bind (normalizeDateTime h v n) k) R.
Proof.
  intros K. apply (emits_bind _ _ _ (fun s => exists t, s = toISOString t));
    [apply emits_normalizeDateTime|intros s (t & ->); apply K].
Qed.

Ltac pure_step :=
  apply emits_pure_bind; [auto with pure_db | intros ?].

Ltac norm_step s := apply emits_norm_bind; intros s.

Lemma produced_toISOString (t : Z) : produced (JString (toISOString t)).
Proof. now exists t. Qed.

(** ** The cases of the dispatch *)

Section Cases.

Variables (h : Host) (b : Backend) (p : Presenter).
Variable auth : option OAuth2Client.
Variable input : JSVal.
Hypothesis distinct : distinctKeys input.

Lemma emits_checkForConflicts (s e : Z) (calendarId : JSVal) :
  emits (goodCall false)
    (checkForConflicts h b (toISOString s) (toISOString e) calendarId)
    (fun _ => True).
Proof.
  unfold checkForConflicts.
  apply (emits_bind _ _ _ (fun _ => True)).
  - apply emits_getEventsInTimeRange. intros now. cbn [goodCall].
    split; left; apply produced_toISOString.
  - intros conflicts _. pure_step.
    apply emits_pure, pure_filterM. intros ?. apply pure_conflictsWith.
Qed.

Lemma emits_findFreeTimeSlots (s e : Z) (minutes calendarId : JSVal) :
  emits (goodCall false)
    (findFreeTimeSlots h b (toISOString s) (toISOString e) minutes calendarId)
    (fun _ => True).
Proof.
  unfold findFreeTimeSlots.
  apply (emits_bind _ _ _ (fun _ => True)).
  - apply emits_getEventsInTimeRange. intros now. cbn [goodCall].
    split; left; apply produced_toISOString.
  - intros events _. pure_step.
    apply (emits_bind _ _ _ (fun _ => True));
      [apply emits_pure, pure_filterM; intros ?; apply pure_isTimed|].
    intros timed _. apply emits_ret. exact I.
Qed.

Lemma emits_checkConflictsCase :
  emits (goodCall false) (checkConflictsCase h b p auth input) (fun _ => True).
Proof.
  unfold checkConflictsCase. pure_step. pure_step.
  norm_step s. norm_step e. pure_step. pure_step.
  apply (emits_bind _ _ _ (fun _ => True)); [apply emits_checkForConflicts|].
  intros conflicts _. destruct conflicts; [apply emits_ret; exact I|].
  pure_step. apply emits_ret. exact I.
Qed.

Lemma emits_findFreeTimeCase :
  emits (goodCall false) (findFreeTimeCase h b p auth input) (fun _ => True).
Proof.
  unfold findFreeTimeCase. pure_step. pure_step.
  norm_step s. norm_step e. pure_step. pure_step. pure_step.
  apply (emits_bind _ _ _ (fun _ => True)); [apply emits_findFreeTimeSlots|].
  intros slots _. destruct slots; apply emits_ret; exact I.
Qed.

Lemma emits_deleteEventCase :
  emits (goodCall false) (deleteEventCase h b auth input) (fun _ => True).
Proof.
  unfold deleteEventCase. pure_step. pure_step. pure_step. pure_step. pure_step.
  apply (emits_bind _ _ _ (fun _ => True)); [|intros; apply emits_ret; exact I].
  unfold deleteEvent. apply emits_tryCatch; [|intros; apply emits_throw].
  apply (emits_bind _ _ _ (fun _ => True));
    [apply emits_callService; exact I|intros; apply emits_ret; exact I].
Qed.

Lemma emits_getCalendarsCase :
  emits (goodCall false) (getCalendarsCase h b auth) (fun _ => True).
Proof.
  unfold getCalendarsCase. pure_step.
  apply (emits_bind _ _ _ (fun _ => True)).
  - unfold getCalendars. apply emits_tryCatch; [|intros; apply emits_throw].
    apply (emits_bind _ _ _ (fun _ => True));
      [apply emits_callService; exact I|intros; apply emits_pure, pure_itemsOf].
  - intros calendars _. pure_step.
    apply (emits_bind _ _ _ (fun _ => True));
      [|intros; apply emits_ret; exact I].
    apply emits_pure, pure_numbered. intros ?. apply pure_formatCalendar.
Qed.

Lemma emits_createEventCase :
  emits (goodCall false) (createEventCase h b p auth input) (fun _ => True).
Proof.
  unfold createEventCase. pure_step. pure_step. pure_step. pure_step.
  norm_step s. norm_step e.
  pure_step. pure_step. pure_step. pure_step. pure_step.
  apply (emits_bind _ _ _ (fun g => exists t, dateTime g = toISOString t));
    [apply emits_createGoogleDateTime|intros gs (ts & Es)].
  apply (emits_bind _ _ _ (fun g => exists t, dateTime g = toISOString t));
    [apply emits_createGoogleDateTime|intros ge (te & Ee)].
  pure_step.
  apply (emits_bind _ _ _ (fun _ => True)).
  - apply emits_createEvent; [|repeat constructor; simpl; tauto|reflexivity].
    intros params E. cbn [goodCall]. unfold bodyStamp. rewrite E. cbn.
    rewrite Es, Ee. split; apply produced_toISOString.
  - intros created _. pure_step. apply emits_ret. exact I.
Qed.

Lemma emits_createQuickEventCase :
  emits (goodCall false) (createQuickEventCase h b p auth input)
    (fun _ => True).
Proof.
  unfold createQuickEventCase. pure_step. pure_step. pure_step. pure_step.
  norm_step s.
  pure_step. pure_step. pure_step. pure_step. pure_step.
  apply (emits_bind _ _ _ (fun _ => True)).
  - unfold createQuickEvent.
    apply (emits_bind _ _ _ (fun x => exists t, x = toISOString t));
      [apply emits_dateToISOString|intros ss (ts & ->)].
    apply (emits_bind _ _ _ (fun x => exists t, x = toISOString t));
      [apply emits_dateToISOString|intros es (te & ->)].
    pure_step.
    apply emits_createEvent; [|repeat constructor; simpl; tauto|reflexivity].
    intros params E. cbn [goodCall]. unfold bodyStamp. rewrite E. cbn.
    split; apply produced_toISOString.
  - intros created _. pure_step. apply emits_ret. exact I.
Qed.

Lemma emits_setWhen_other (c : bool) (k : string) (v : Eff JSVal)
    (o : list (string * JSVal)) :
  String.eqb "start" k = false -> String.eqb "end" k = false ->
  pureEff v -> sidesOk o ->
  emits (goodCall false) (setWhen c k v o) sidesOk.
Proof.
  intros Ks Ke Pv S. unfold setWhen. destruct c; [|now apply emits_ret].
  apply (emits_bind _ _ _ (fun _ => True)); [now apply emits_pure|].
  intros x _. apply emits_ret. unfold sidesOk in *.
  now rewrite !lookup_setField, Ks, Ke.
Qed.

Lemma emits_setWhen_side (c : bool) (k : string) (v : JSVal)
    (o : list (string * JSVal)) :
  k = "start" \/ k = "end" -> sidesOk o ->
  emits (goodCall false)
    (setWhen c k
       (bind (createGoogleDateTime h v) (fun g => ret (googleDateTimeValue g)))
       o)
    sidesOk.
Proof.
  intros K S. unfold setWhen. destruct c; [|now apply emits_ret].
  apply (emits_bind _ _ _ (fun x => produced (prop x "dateTime"))).
  - apply (emits_bind _ _ _ (fun g => exists t, dateTime g = toISOString t));
      [apply emits_createGoogleDateTime|intros g (t & E)].
    apply emits_ret. cbn. rewrite E. apply produced_toISOString.
  - intros x Px. apply emits_ret. unfold sidesOk in *.
    rewrite !lookup_setField.
    destruct K as [-> | ->]; cbn [String.eqb Ascii.eqb Bool.eqb];
      cbn; tauto.
Qed.

Lemma emits_updateEventCase :
  emits (goodCall false) (updateEventCase h b p auth input) (fun _ => True).
Proof.
  unfold updateEventCase. pure_step. pure_step. pure_step. pure_step.
  apply (emits_bind _ _ _ (fun _ => True)).
  { destruct (truthy _); [|apply emits_ret; exact I].
    norm_step s. apply emits_ret. exact I. }
  intros ns _.
  apply (emits_bind _ _ _ (fun _ => True)).
  { destruct (truthy _); [|apply emits_ret; exact I].
    norm_step s. apply emits_ret. exact I. }
  intros ne _.
  pure_step. pure_step. pure_step. pure_step. pure_step.
  apply (emits_bind _ _ _ sidesOk).
  { apply emits_setWhen_other; try reflexivity; [apply pure_ret|].
    split; now right. }
  intros o1 S1.
  apply (emits_bind _ _ _ sidesOk);
    [apply emits_setWhen_other; try reflexivity; [apply pure_ret|exact S1]|].
  intros o2 S2.
  apply (emits_bind _ _ _ sidesOk);
    [apply emits_setWhen_other; try reflexivity; [apply pure_ret|exact S2]|].
  intros o3 S3.
  apply (emits_bind _ _ _ sidesOk);
    [apply emits_setWhen_side; [now left|exact S3]|].
  intros o4 S4.
  apply (emits_bind _ _ _ sidesOk);
    [apply emits_setWhen_side; [now right|exact S4]|].
  intros o5 S5.
  apply (emits_bind _ _ _ sidesOk);
    [apply emits_setWhen_other; try reflexivity;
       [apply pure_attendeeObjects|exact S5]|].
  intros o6 S6.
  apply (emits_bind _ _ _ (fun _ => True)).
  - unfold updateEvent. apply emits_tryCatch; [|intros; apply emits_throw].
    apply emits_callService. cbn [goodCall]. unfold bodyStamp. cbn.
    destruct S6 as [[A|A] [B|B]]; split; auto; right; rewrite ?A, ?B; auto.
  - intros updated _. pure_step. apply emits_ret. exact I.
Qed.

Lemma emits_getEventsCase :
  emits (goodCall true) (getEventsCase h b p auth input) (fun _ => True).
Proof.
  unfold getEventsCase. pure_step. pure_step. pure_step. pure_step.
  pose proof (distinct_ownProps input distinct) as N0.
  apply (emits_bind _ _ _
           (fun o => NoDup (map fst o) /\ boundOk "timeMin" o
                     /\ lookup "timeMax" o = prop input "timeMax")).
  { destruct (truthy (prop input "timeMin")) eqn:T.
    - norm_step s. apply emits_ret. split; [now apply keys_setField|].
      split.
      + left. rewrite lookup_setField. cbn. apply produced_toISOString.
      + rewrite lookup_setField. cbn. now apply lookup_ownProps.
    - apply emits_ret. split; [exact N0|]. split.
      + right. rewrite lookup_ownProps by reflexivity. exact T.
      + now apply lookup_ownProps. }
  intros o1 (N1 & B1 & M1).
  apply (emits_bind _ _ _
           (fun o => NoDup (map fst o) /\ boundOk "timeMin" o
                     /\ boundOk "timeMax" o)).
  { destruct (truthy (prop input "timeMax")) eqn:T.
    - norm_step s. apply emits_ret. split; [now apply keys_setField|].
      unfold boundOk in *. rewrite !lookup_setField. cbn.
      split; [exact B1|]. left. apply produced_toISOString.
    - apply emits_ret. split; [exact N1|]. split; [exact B1|].
      right. now rewrite M1. }
  intros o2 (N2 & B2 & C2).
  apply (emits_bind _ _ _ (fun _ => True)).
  - apply emits_getEventsInTimeRange. intros now. cbn [goodCall].
    rewrite !lookup_assign by exact N2.
    split.
    + destruct (hasKey "timeMin" o2).
      * destruct B2 as [B2|B2]; [now left|right; now split].
      * left. cbn. apply produced_toISOString.
    + destruct (hasKey "timeMax" o2).
      * destruct C2 as [C2|C2]; [now left|right; now split].
      * right. split; reflexivity.
  - intros events _. pure_step. apply emits_pure. auto with pure_db.
Qed.

Lemma emits_dispatch_named (name : string) :
  emits (goodCall (String.eqb name "get_events_in_time_range"))
    (dispatch h b p (mkToolCall EmptyString name input) auth) (fun _ => True).
Proof.
  unfold dispatch. cbn [Tools.name Tools.input].
  assert (W : forall c : Eff string,
             emits (goodCall false) c (fun _ => True) ->
             emits (goodCall (String.eqb name "get_events_in_time_range")) c
               (fun _ => True)).
  { intros c E. destruct (String.eqb name "get_events_in_time_range");
      [|exact E].
    intros w. destruct (E w) as ((new & T & F) & V). split; [|exact V].
    exists new. split; [exact T|].
    eapply Forall_impl; [|exact F]. apply goodCall_lenient. }
  destruct (String.eqb name "bash").
  { apply W. pure_step. apply emits_callShell. exact I. }
  destruct (String.eqb name "get_events_in_time_range");
    [apply emits_getEventsCase|].
  destruct (String.eqb name "create_event"); [apply emits_createEventCase|].
  destruct (String.eqb name "create_quick_event");
    [apply emits_createQuickEventCase|].
  destruct (String.eqb name "update_event"); [apply emits_updateEventCase|].
  destruct (String.eqb name "delete_event"); [apply emits_deleteEventCase|].
  destruct (String.eqb name "check_conflicts");
    [apply emits_checkConflictsCase|].
  destruct (String.eqb name "find_free_time"); [apply emits_findFreeTimeCase|].
  destruct (String.eqb name "get_calendars"); [apply emits_getCalendarsCase|].
  apply emits_throw.
Qed.

End Cases.

Lemma emits_dispatch (h : Host) (b : Backend) (p : Presenter) (tc : ToolCall)
    (auth : option OAuth2Client) :
  distinctKeys (input tc) ->
  emits (goodCall (String.eqb (name tc) "get_events_in_time_range"))
    (dispatch h b p tc auth) (fun _ => True).
Proof.
  intros D. destruct tc as [i n v]. cbn [name input] in *.
  exact (emits_dispatch_named h b p auth v D n).
Qed.

Lemma emits_handleToolCall (h : Host) (b : Backend) (p : Presenter)
    (tc : ToolCall) (auth : option OAuth2Client) :
  distinctKeys (input tc) ->
  emits (goodCall (String.eqb (name tc) "get_events_in_time_range"))
    (handleToolCall h b p tc auth) (fun _ => True).
Proof.
  intros D. unfold handleToolCall.
  apply emits_tryCatch; [|intros; now apply emits_ret].
  apply (emits_bind _ _ _ (fun _ => True)); [now apply emits_dispatch|].
  intros; now apply emits_ret.
Qed.

(** ** Values that cannot be normalized *)

Lemma rejected_bind_quiet {A B : Type} (w0 : World) (c : Eff A)
    (k : A -> Eff B) (w : World) :
  quiet c -> trace w = trace w0 ->
  (forall x w', trace w' = trace w0 -> rejected w0 (k x w')) ->
  rejected w0 (bind c k w).
Proof.
  intros Qc T K. rewrite bind_run. specialize (Qc w).
  destruct (c w) as [[e|x] w']; simpl in Qc.
  - exists e, w'. split; [reflexivity|congruence].
  - apply K. congruence.
Qed.

Lemma rejected_bind_getProp {B : Type} (w0 : World) (v : JSVal) (key : string)
    (k : JSVal -> Eff B) (w : World) :
  trace w = trace w0 ->
  rejected w0 (k (prop v key) w) ->
  rejected w0 (bind (getProp v key) k w).
Proof.
  intros T K. rewrite bind_run. unfold getProp.
  destruct (nullish v); [|exact K].
  eexists. exists w. now split.
Qed.

Lemma rejected_unnormalizable {B : Type} (w0 : World) (h : Host) (v : JSVal)
    (key : string) (k : string -> Eff B) (w : World) :
  unnormalizable h v key -> trace w = trace w0 ->
  rejected w0 (bind (normalizeDateTime h v key) k w).
Proof.
  intros U T. rewrite bind_run. destruct (U w) as (e & w' & E).
  pose proof (quiet_normalizeDateTime h v key w) as Qn.
  rewrite E in *. simpl in Qn. exists e, w'. split; [reflexivity|congruence].
Qed.

Lemma rejected_bind_inner {A B C : Type} (w0 : World) (c : Eff A)
    (k : A -> Eff B) (k' : B -> Eff C) (w : World) :
  rejected w0 (bind c k w) -> rejected w0 (bind (bind c k) k' w).
Proof.
  intros (e & w' & E & T). rewrite (bind_run (bind c k)), E.
  exists e, w'. now split.
Qed.

Ltac quiet_step :=
  apply rejected_bind_quiet;
  [first [apply quiet_normalizeDateTime
         | apply pure_quiet; auto with pure_db]
  | assumption
  | intros ? ? ?].

Lemma quiet_normalizing (h : Host) (c : bool) (v : JSVal) (k : string)
    (o : list (string * JSVal)) :
  quiet (if c then
           bind (normalizeDateTime h v k)
             (fun s => ret (setField k (JString s) o))
         else ret o).
Proof.
  destruct c; [|apply quiet_ret].
  apply quiet_bind; [apply quiet_normalizeDateTime|intros; apply quiet_ret].
Qed.

Lemma lookup_updateData (v : JSVal) (k : string) :
  namedKey k -> k <> "eventId" ->
  lookup k (removeField "eventId" (ownProps v)) = prop v k.
Proof.
  intros K N. rewrite lookup_removeField by exact N. now apply lookup_ownProps.
Qed.

Lemma rejects_unnormalizable (h : Host) (b : Backend) (p : Presenter)
    (tc : ToolCall) (auth : option OAuth2Client) (w0 w : World)
    (k : string) (required : bool) :
  trace w = trace w0 ->
  In (k, required) (timestampArgs (name tc)) ->
  required = true \/ truthy (prop (input tc) k) = true ->
  unnormalizable h (prop (input tc) k) k ->
  rejected w0 (dispatch h b p tc auth w).
Proof.
  intros W I T U. unfold dispatch, timestampArgs in *.
  destruct (String.eqb (name tc) "bash") eqn:E0.
  { apply String.eqb_eq in E0. rewrite E0 in I. destruct I. }
  destruct (String.eqb (name tc) "get_events_in_time_range").
  { unfold getEventsCase. do 4 quiet_step.
    destruct I as [I|[I|[]]]; inversion I; subst k required;
      (destruct T as [T|T]; [discriminate T|]).
    - rewrite T. apply rejected_bind_inner. now apply rejected_unnormalizable.
    - apply rejected_bind_quiet; [apply quiet_normalizing|assumption|].
      intros o w2 W2. rewrite T.
      apply rejected_bind_inner. now apply rejected_unnormalizable. }
  destruct (String.eqb (name tc) "create_event").
  { unfold createEventCase. quiet_step.
    apply rejected_bind_getProp; [assumption|]. do 2 quiet_step.
    destruct I as [I|[I|[]]]; inversion I; subst k required.
    - now apply rejected_unnormalizable.
    - quiet_step. now apply rejected_unnormalizable. }
  destruct (String.eqb (name tc) "create_quick_event").
  { unfold createQuickEventCase. quiet_step.
    apply rejected_bind_getProp; [assumption|]. do 2 quiet_step.
    destruct I as [I|[]]; inversion I; subst k required.
    now apply rejected_unnormalizable. }
  destruct (String.eqb (name tc) "update_event").
  { unfold updateEventCase. quiet_step.
    apply rejected_bind_getProp; [assumption|]. do 2 quiet_step.
    destruct I as [I|[I|[]]]; inversion I; subst k required;
      (destruct T as [T|T]; [discriminate T|]).
    - rewrite !lookup_updateData by (reflexivity || discriminate).
      rewrite T. apply rejected_bind_inner. now apply rejected_unnormalizable.
    - apply rejected_bind_quiet; [|assumption|].
      { match goal with |- quiet (if ?c then _ else _) => destruct c end;
          [|apply quiet_ret].
        apply quiet_bind; [apply quiet_normalizeDateTime|intros; apply quiet_ret]. }
      intros o w2 W2.
      rewrite !lookup_updateData by (reflexivity || discriminate).
      rewrite T. apply rejected_bind_inner. now apply rejected_unnormalizable. }
  destruct (String.eqb (name tc) "delete_event") eqn:E5.
  { destruct (String.eqb (name tc) "check_conflicts") eqn:E6.
    - apply String.eqb_eq in E5, E6. congruence.
    - destruct (String.eqb (name tc) "find_free_time") eqn:E7.
      + apply String.eqb_eq in E5, E7. congruence.
      + destruct I. }
  destruct (String.eqb (name tc) "check_conflicts").
  { unfold checkConflictsCase. quiet_step.
    apply rejected_bind_getProp; [assumption|].
    destruct I as [I|[I|[]]]; inversion I; subst k required.
    - now apply rejected_unnormalizable.
    - quiet_step. now apply rejected_unnormalizable. }
  destruct (String.eqb (name tc) "find_free_time").
  { unfold findFreeTimeCase. quiet_step.
    apply rejected_bind_getProp; [assumption|].
    destruct I as [I|[I|[]]]; inversion I; subst k required.
    - now apply rejected_unnormalizable.
    - quiet_step. now apply rejected_unnormalizable. }
  destruct I.
Qed.

End EmitFacts.

Section TimestampClaim.
Import JS JSDate Effects DateFormat GoogleTools Tools EffectSpec ToolsFacts
  ObjectFacts EmitFacts DateFormatFacts.

(** C7 (amended).  Every request that a dispatch sends to the calendar
    service carries, as [timeMin] and [timeMax] of a list query and as start
    and end of a created or updated event, strings printed by [toISOString]
    (the output of the normalizer); such a string has the canonical shape
    whenever its year in UTC lies in 0..9999.  The exceptions are a bound of
    [get_events_in_time_range] given as a falsy value, which is passed as it
    is, and a side that an update leaves out.  A date or time argument that
    the tool normalizes and that cannot be normalized makes the dispatch
    return an error message without any request. *)
Theorem timestamps_reach_service_normalized :
  forall (h : Host) (b : Backend) (p : Presenter) (tc : ToolCall)
         (auth : option OAuth2Client) (w : World),
    distinctKeys (input tc) ->
    (exists new,
        trace (snd (handleToolCall h b p tc auth w)) = trace w ++ new
        /\ Forall
             (goodCall (String.eqb (name tc) "get_events_in_time_range")) new)
    /\ (forall t, 0 <= YearFromTime t <= 9999 ->
          isoRegex (toISOString t) = true)
    /\ (forall k required,
          In (k, required) (timestampArgs (name tc)) ->
          required = true \/ truthy (prop (input tc) k) = true ->
          unnormalizable h (prop (input tc) k) k ->
          exists text w',
            handleToolCall h b p tc auth w
            = (inr (mkMessage "tool" (id tc)
                      ("Error executing " ++ name tc ++ ": " ++ text)%string),
               w')
            /\ trace w' = trace w).
Proof.
  intros h b p tc auth w D. split; [|split].
  - exact (proj1 (emits_handleToolCall h b p tc auth D w)).
  - intros t Y. rewrite toISOString_canonical by exact Y.
    apply isoRegex_canonical.
  - intros k required I T U.
    destruct (rejects_unnormalizable h b p tc auth w w k required
                eq_refl I T U) as (e & w' & E & Tr).
    rewrite (handleToolCall_of_error _ _ _ _ _ _ _ _ E).
    eexists. exists w'. split; [reflexivity|exact Tr].
Qed.

Lemma timestamps_reach_service_normalized_witness :
  exists text w',
    handleToolCall Examples.utcHost (Examples.calendarOf []) Examples.presenter
      (mkToolCall "call_3" "check_conflicts"
         (JObject [("startTime", JString "next friday");
                   ("endTime", JString "2024-01-15T11:00:00")]))
      Examples.user Examples.start
    = (inr (mkMessage "tool" "call_3"
              ("Error executing check_conflicts: " ++ text)%string), w')
    /\ trace w' = trace Examples.start.
Proof.
  refine (proj2 (proj2
            (timestamps_reach_service_normalized Examples.utcHost
               (Examples.calendarOf []) Examples.presenter
               (mkToolCall "call_3" "check_conflicts"
                  (JObject [("startTime", JString "next friday");
                            ("endTime", JString "2024-01-15T11:00:00")]))
               Examples.user Examples.start _))
            "startTime" true _ _ _).
  - simpl. repeat constructor; simpl; intuition discriminate.
  - simpl. now left.
  - now left.
  - intros w. eexists. eexists. reflexivity.
Defined.

(** C7, as stated, fails: an empty [timeMin] reaches the list query as it
    is, and a normalized instant before the year 0 is printed with a sign
    and six digits, which is not the canonical shape. *)
Lemma raw_and_expanded_timestamps_reach_service :
  trace (snd (handleToolCall Examples.utcHost (Examples.calendarOf [])
                Examples.presenter
                (mkToolCall "call_1" "get_events_in_time_range"
                   (JObject [("timeMin", JString EmptyString)]))
                Examples.user Examples.start))
  = [CallEventsList
       [("calendarId", JString "primary"); ("maxResults", numZ 10);
        ("timeMin", JString EmptyString); ("singleEvents", JBool true);
        ("orderBy", JString "startTime")]]
  /\ isoRegex EmptyString = false
  /\ trace (snd (handleToolCall Examples.utcHost (Examples.calendarOf [])
                   Examples.presenter
                   (mkToolCall "call_2" "check_conflicts"
                      (JObject [("startTime",
                                 JString "0000-01-01T00:00:00+01:00");
                                ("endTime", JString "2024-01-15T11:00:00")]))
                   Examples.user Examples.start))
     = [CallEventsList
          [("calendarId", JString "primary"); ("maxResults", numZ 100);
           ("timeMin", JString "-000001-12-31T23:00:00.000Z");
           ("singleEvents", JBool true); ("orderBy", JString "startTime");
           ("timeMax", JString "2024-01-15T11:00:00.000Z")]]
  /\ isoRegex "-000001-12-31T23:00:00.000Z" = false.
Proof. repeat split; vm_compute; reflexivity. Qed.

End TimestampClaim.

(** * Further properties of the code *)

#[local] Open Scope list_scope.
#[local] Open Scope string_scope.
#[local] Open Scope Z_scope.

(** * The normalizer on every kind of input *)

Module NormalizerFacts.
Import JS JSDate Effects DateFormat DigitFacts JSDateFacts DateFormatFacts
  USDateFacts.

(** The dates that [setDate], [setHours] and [setMinutes] make are clipped. *)
Lemma advance_clipped (h : Host) (now amount t : Z) (unit : string) :
  Z.abs now <= maxTime -> advance h now amount unit = Some t ->
  Z.abs t <= maxTime.
Proof.
  intros N. unfold advance, setMinutes, setHours, setDate.
  repeat match goal with
         | |- context [if ?c then _ else _] => destruct c
         end; intros E;
    try (apply TimeClip_Some in E as [-> E]; exact E).
  now inversion E; subst.
Qed.

(** Every date that [parseStringDate] returns is a time value in range,
    when the clock is. *)
Lemma parseStringDate_clipped (h : Host) (s : string) (w w' : World) (t : Z) :
  (forall n, Z.abs (clock h n) <= maxTime) ->
  parseStringDate h s w = (inr (Some t), w') -> Z.abs t <= maxTime.
Proof.
  intros C. unfold parseStringDate, bind, newDate, ret, throw.
  destruct (isoRegex (trim s)).
  { intros E. inversion E as [[P W]]. now apply parse_clipped in P. }
  destruct (ciEq (trim s) "today").
  { intros E. inversion E; subst. apply C. }
  destruct (ciEq (trim s) "tomorrow").
  { intros E. inversion E as [[P W]]. unfold setDate in P.
    apply TimeClip_Some in P as [-> P]. exact P. }
  destruct (ciEq (trim s) "yesterday").
  { intros E. inversion E as [[P W]]. unfold setDate in P.
    apply TimeClip_Some in P as [-> P]. exact P. }
  destruct (relativeRegex (trim s)) as [[amount unit]|].
  { intros E. inversion E as [[P W]].
    eapply advance_clipped; [apply C|exact P]. }
  destruct (usDateRegex (trim s)) as [g|].
  { intros E. inversion E as [[P W]]. unfold usDateValue, fromComponents in P.
    apply TimeClip_Some in P as [-> P]. exact P. }
  destruct (isoDateRegex (trim s)).
  { intros E. inversion E as [[P W]]. now apply parse_clipped in P. }
  destruct (parse h (trim s)) as [u|] eqn:P; [|discriminate].
  intros E. inversion E; subst. now apply parse_clipped in P.
Qed.

Lemma normalizeDateTime_clipped (h : Host) (v : JSVal) (n : string)
    (w w' : World) (s : string) :
  (forall k, Z.abs (clock h k) <= maxTime) ->
  normalizeDateTime h v n w = (inr s, w') ->
  exists t, s = toISOString t /\ Z.abs t <= maxTime.
Proof.
  intros C. unfold normalizeDateTime, formatDateTimeForGoogle, tryCatch, bind.
  destruct (negb (truthy v)); [discriminate|].
  destruct v as [| |bo|q|str|items|fields]; try discriminate.
  - unfold ret at 1. destruct (dateOfNumber q) as [t|] eqn:D; [|discriminate].
    simpl. intros E. inversion E; subst. exists t. split; [reflexivity|].
    unfold dateOfNumber in D. now apply TimeClip_Some in D as [-> D].
  - pose proof (parseStringDate_clipped h str w) as P.
    destruct (parseStringDate h str w) as [[e|[t|]] w1]; try discriminate.
    simpl. intros E. inversion E; subst. exists t. split; [reflexivity|].
    now apply (P w' t).
Qed.

(** ** Arithmetic of the setters *)

Lemma MakeDay_shift (l k : Z) :
  MakeDay (YearFromTime l) (MonthFromTime l) (DateFromTime l + k) = Day l + k.
Proof.
  pose proof (fields_range l) as (M & _).
  unfold MakeDay.
  replace (MonthFromTime l / 12) with 0 by (symmetry; apply Z.div_small; lia).
  rewrite Z.mod_small by lia. rewrite Z.add_0_r.
  unfold DateFromTime, DayWithinYear, InLeapYear. lia.
Qed.

Lemma setDate_shift (h : Host) (now k : Z) :
  setDate h now (getDate h now + k)
  = TimeClip (UTC h (LocalTime h now + k * msPerDay)).
Proof.
  unfold setDate, getDate. rewrite MakeDay_shift. do 2 f_equal.
  unfold MakeDate, Day, TimeWithinDay, msPerDay.
  pose proof (Z.div_mod (LocalTime h now) 86400000). lia.
Qed.

Lemma setHours_shift (h : Host) (now k : Z) :
  setHours h now (getHours h now + k)
  = TimeClip (UTC h (LocalTime h now + k * msPerHour)).
Proof.
  unfold setHours, getHours. do 2 f_equal.
  unfold MakeDate, MakeTime, Day, HourFromTime, MinFromTime, SecFromTime,
    msFromTime, msPerDay, msPerHour, msPerMinute, msPerSecond.
  generalize (LocalTime h now). intros l. Z.div_mod_to_equations. lia.
Qed.

Lemma setMinutes_shift (h : Host) (now k : Z) :
  setMinutes h now (getMinutes h now + k)
  = TimeClip (UTC h (LocalTime h now + k * msPerMinute)).
Proof.
  unfold setMinutes, getMinutes. do 2 f_equal.
  unfold MakeDate, MakeTime, Day, HourFromTime, MinFromTime, SecFromTime,
    msFromTime, msPerDay, msPerHour, msPerMinute, msPerSecond.
  generalize (LocalTime h now). intros l. Z.div_mod_to_equations. lia.
Qed.

Lemma advance_unit (h : Host) (now n : Z) (u : string) :
  In u relativeUnits ->
  advance h now n u
  = TimeClip (UTC h (LocalTime h now + n * ExtraSpec.unitMs u)).
Proof.
  intros I. simpl in I.
  repeat (destruct I as [<-|I]); try contradiction;
    unfold advance, ExtraSpec.unitMs; cbn [String.eqb Ascii.eqb Bool.eqb orb];
    first [apply setMinutes_shift | apply setHours_shift | apply setDate_shift
          | idtac].
  - rewrite setDate_shift. do 3 f_equal. lia.
  - rewrite setDate_shift. do 3 f_equal. lia.
Qed.

(** ** Which branch of [parseStringDate] is taken *)

Lemma lowerChar_letter (c x : ascii) :
  lowerChar c = x -> isDigit x = false -> isDigit c = false.
Proof.
  intros L X. destruct (isDigit c) eqn:D; [|reflexivity].
  rewrite (lowerChar_digit c D) in L. congruence.
Qed.

Lemma isoRegex_head (c : ascii) (r : string) :
  isDigit c = false -> isoRegex (String c r) = false.
Proof. intros D. unfold isoRegex. cbn [takeDigits]. now rewrite D. Qed.

Lemma ciEq_eq (t word : string) :
  ciEq t word = true -> toLowerCase t = toLowerCase word.
Proof. unfold ciEq. apply String.eqb_eq. Qed.

Lemma ciEq_word (t word other : string) :
  ciEq t word = true -> ciEq t other = ciEq word other.
Proof. intros E. apply ciEq_eq in E. unfold ciEq. now rewrite E. Qed.

(** A string that reads as a word starts with its first letter. *)
Lemma ciEq_head (t : string) (x : ascii) (word : string) :
  ciEq t (String x word) = true -> isDigit (lowerChar x) = false ->
  exists c r, t = String c r /\ isDigit c = false.
Proof.
  intros E X. apply ciEq_eq in E. destruct t as [|c r]; [discriminate|].
  exists c, r. split; [reflexivity|]. cbn [toLowerCase] in E.
  inversion E as [[L R]]. now apply (lowerChar_letter c (lowerChar x)).
Qed.

Lemma ciEq_other_head (c x : ascii) (r word : string) :
  Ascii.eqb (lowerChar c) (lowerChar x) = false ->
  ciEq (String c r) (String x word) = false.
Proof. intros E. unfold ciEq. cbn [toLowerCase String.eqb]. now rewrite E. Qed.

Lemma relativeRegex_head (t amount unit : string) :
  relativeRegex t = Some (amount, unit) ->
  (exists c r, t = String c r /\ isDigit c = false /\ lowerChar c = "i"%char)
  /\ In (toLowerCase unit) relativeUnits.
Proof.
  unfold relativeRegex. destruct t as [|c1 [|c2 r]]; try discriminate.
  destruct (ciEq (String c1 (String c2 EmptyString)) "in") eqn:E;
    [|discriminate].
  apply ciEq_eq in E. cbn [toLowerCase] in E. inversion E as [[L1 L2]].
  intros H. split.
  - exists c1, (String c2 r). repeat split; [|exact L1].
    now apply (lowerChar_letter c1 "i"%char).
  - destruct (spaces1 r) as [r1|]; [|discriminate].
    destruct (spanDigits r1) as [ds r2].
    destruct (String.eqb ds EmptyString); [discriminate|].
    destruct (spaces1 r2) as [u|]; [|discriminate].
    destruct (existsb (ciEq u) relativeUnits) eqn:X; [|discriminate].
    inversion H; subst. apply existsb_exists in X as (x & I & C).
    apply ciEq_eq in C. rewrite C. simpl in I.
    repeat (destruct I as [<-|I]); try contradiction; simpl; tauto.
Qed.

Lemma TimeClip_range (t : Z) : Z.abs t <= maxTime -> TimeClip t = Some t.
Proof.
  intros A. unfold TimeClip.
  destruct (Z.leb_spec (Z.abs t) maxTime); [reflexivity|lia].
Qed.

(** How [parseStringDate] runs on a word and on a relative expression. *)
Lemma parseStringDate_word (h : Host) (s : string) (w : World) (x : ascii)
    (word : string) :
  ciEq (trim s) (String x word) = true -> isDigit (lowerChar x) = false ->
  s <> EmptyString /\ isoRegex (trim s) = false.
Proof.
  intros E X. destruct (ciEq_head _ _ _ E X) as (c & r & T & D).
  split; [intros ->; discriminate T|]. rewrite T. now apply isoRegex_head.
Qed.

Lemma parseStringDate_relative (h : Host) (s amount unit : string) (w : World) :
  relativeRegex (trim s) = Some (amount, unit) ->
  s <> EmptyString
  /\ parseStringDate h s w
     = (inr (TimeClip (UTC h (LocalTime h (clock h (tick w))
                              + parseInt amount
                                * ExtraSpec.unitMs (toLowerCase unit)))),
        ExtraSpec.afterClock w).
Proof.
  intros H. destruct (relativeRegex_head _ _ _ H) as ((c & r & T & D & L) & I).
  split; [intros ->; discriminate T|].
  unfold parseStringDate. rewrite H. rewrite T.
  rewrite isoRegex_head by exact D.
  rewrite !ciEq_other_head by (rewrite L; reflexivity).
  unfold bind, newDate, ret. now rewrite advance_unit.
Qed.

(** ** Strings without white space *)

Lemma expect_spec (c : ascii) (s r : string) :
  expect c s = Some r -> s = String c r.
Proof.
  destruct s as [|c' r']; [discriminate|]. unfold expect.
  destruct (Ascii.eqb_spec c c') as [->|]; [|discriminate].
  now intros [= ->].
Qed.

Lemma noSpace_app (a b : string) :
  ExtraSpec.noSpace (a ++ b) = ExtraSpec.noSpace a && ExtraSpec.noSpace b.
Proof.
  induction a as [|c a IH]; [reflexivity|]. simpl. rewrite IH.
  now rewrite andb_assoc.
Qed.

Lemma allDigits_noSpace (ds : string) :
  allDigits ds = true -> ExtraSpec.noSpace ds = true.
Proof.
  induction ds as [|c r IH]; [reflexivity|]. simpl. intros H.
  apply andb_true_iff in H as [D A].
  now rewrite (isDigit_not_space c D), IH.
Qed.

Lemma takeDigits_noSpace (n : nat) (s ds rest : string) :
  takeDigits n s = Some (ds, rest) ->
  ExtraSpec.noSpace s = ExtraSpec.noSpace rest.
Proof.
  intros H. apply takeDigits_spec in H as (-> & A & _).
  now rewrite noSpace_app, (allDigits_noSpace ds A).
Qed.

Lemma expect_noSpace (c : ascii) (s r : string) :
  expect c s = Some r -> isSpace c = false ->
  ExtraSpec.noSpace s = ExtraSpec.noSpace r.
Proof. intros H C. apply expect_spec in H as ->. simpl. now rewrite C. Qed.

Lemma optZoneEnd_noSpace (r : string) :
  optZoneEnd r = true -> ExtraSpec.noSpace r = true.
Proof.
  unfold optZoneEnd. destruct r as [|c r0]; [reflexivity|].
  destruct (Ascii.eqb_spec c "Z") as [->|_].
  - intros H. apply String.eqb_eq in H as ->. reflexivity.
  - destruct (Ascii.eqb c "+" || Ascii.eqb c "-") eqn:S; [|discriminate].
    assert (C : isSpace c = false).
    { apply orb_true_iff in S as [S|S]; apply Ascii.eqb_eq in S; now subst. }
    destruct (takeDigits 2 r0) as [[? r1]|] eqn:E1; [|discriminate].
    destruct (expect ":" r1) as [r2|] eqn:E2; [|discriminate].
    destruct (takeDigits 2 r2) as [[? r3]|] eqn:E3; [|discriminate].
    destruct r3; [|discriminate]. intros _. simpl. rewrite C.
    now rewrite (takeDigits_noSpace _ _ _ _ E1),
      (expect_noSpace _ _ _ E2 eq_refl), (takeDigits_noSpace _ _ _ _ E3).
Qed.

Lemma optFraction_noSpace (r : string) :
  ExtraSpec.noSpace (optFraction r) = true -> ExtraSpec.noSpace r = true.
Proof.
  unfold optFraction.
  destruct (expect "." r) as [r1|] eqn:E1; [|trivial].
  destruct (takeDigits 3 r1) as [[? r2]|] eqn:E2; [|trivial].
  now rewrite (expect_noSpace _ _ _ E1 eq_refl),
    (takeDigits_noSpace _ _ _ _ E2).
Qed.

(** A string that [isoRegex] matches holds no white space. *)
Lemma isoRegex_noSpace (s : string) :
  isoRegex s = true -> ExtraSpec.noSpace s = true /\ s <> EmptyString.
Proof.
  unfold isoRegex. intros H.
  destruct (takeDigits 4 s) as [[? r1]|] eqn:E1; [|discriminate].
  split; [|intros ->; discriminate E1].
  destruct (expect "-" r1) as [r2|] eqn:E2; [|discriminate].
  destruct (takeDigits 2 r2) as [[? r3]|] eqn:E3; [|discriminate].
  destruct (expect "-" r3) as [r4|] eqn:E4; [|discriminate].
  destruct (takeDigits 2 r4) as [[? r5]|] eqn:E5; [|discriminate].
  destruct (expect "T" r5) as [r6|] eqn:E6; [|discriminate].
  destruct (takeDigits 2 r6) as [[? r7]|] eqn:E7; [|discriminate].
  destruct (expect ":" r7) as [r8|] eqn:E8; [|discriminate].
  destruct (takeDigits 2 r8) as [[? r9]|] eqn:E9; [|discriminate].
  destruct (expect ":" r9) as [r10|] eqn:E10; [|discriminate].
  destruct (takeDigits 2 r10) as [[? r11]|] eqn:E11; [|discriminate].
  rewrite (takeDigits_noSpace _ _ _ _ E1), (expect_noSpace _ _ _ E2 eq_refl),
    (takeDigits_noSpace _ _ _ _ E3), (expect_noSpace _ _ _ E4 eq_refl),
    (takeDigits_noSpace _ _ _ _ E5), (expect_noSpace _ _ _ E6 eq_refl),
    (takeDigits_noSpace _ _ _ _ E7), (expect_noSpace _ _ _ E8 eq_refl),
    (takeDigits_noSpace _ _ _ _ E9), (expect_noSpace _ _ _ E10 eq_refl),
    (takeDigits_noSpace _ _ _ _ E11).
  now apply optFraction_noSpace, optZoneEnd_noSpace.
Qed.

Lemma noSpace_endsClean (s : string) :
  ExtraSpec.noSpace s = true -> endsClean s = true.
Proof.
  induction s as [|c r IH]; [reflexivity|]. simpl. intros H.
  apply andb_true_iff in H as [C N]. destruct r; [exact C|now apply IH].
Qed.

Lemma noSpace_trim (s : string) : ExtraSpec.noSpace s = true -> trim s = s.
Proof.
  intros N. destruct s as [|c r]; [reflexivity|].
  pose proof (noSpace_endsClean _ N) as K. simpl in N.
  apply andb_true_iff in N as [C _]. apply negb_true_iff in C.
  now apply trim_clean.
Qed.

(** ** [trim] is idempotent *)

Lemma trimStart_head (s : string) :
  trimStart s = EmptyString
  \/ exists c r, trimStart s = String c r /\ isSpace c = false.
Proof.
  induction s as [|c r IH]; [now left|]. simpl.
  destruct (isSpace c) eqn:C; [exact IH|]. right. now exists c, r.
Qed.

Lemma endsClean_trimEnd (s : string) : endsClean (trimEnd s) = true.
Proof.
  induction s as [|c r IH]; [reflexivity|]. cbn [trimEnd].
  destruct (trimEnd r) as [|c' r'].
  - destruct (isSpace c) eqn:C; [reflexivity|]. simpl. now rewrite C.
  - exact IH.
Qed.

Lemma trimEnd_head (c : ascii) (r : string) :
  isSpace c = false -> exists r', trimEnd (String c r) = String c r'.
Proof.
  intros C. cbn [trimEnd]. destruct (trimEnd r) as [|c' r'].
  - rewrite C. now exists EmptyString.
  - now exists (String c' r').
Qed.

Lemma trim_idem (s : string) : trim (trim s) = trim s.
Proof.
  unfold trim. destruct (trimStart_head s) as [->|(c & r & -> & C)].
  - reflexivity.
  - destruct (trimEnd_head c r C) as (r' & E).
    pose proof (endsClean_trimEnd (String c r)) as K. rewrite E in *.
    cbn [trimStart]. rewrite C. now apply trimEnd_clean.
Qed.

(** Up to the text of the last error, [parseStringDate] only looks at the
    trimmed string. *)
Lemma parseStringDate_trim (h : Host) (s : string) (w : World) :
  parseStringDate h s w = parseStringDate h (trim s) w
  \/ exists e e' w1, parseStringDate h s w = (inl e, w1)
                     /\ parseStringDate h (trim s) w = (inl e', w1).
Proof.
  unfold parseStringDate. rewrite trim_idem.
  destruct (isoRegex (trim s)); [now left|].
  destruct (ciEq (trim s) "today"); [now left|].
  destruct (ciEq (trim s) "tomorrow"); [now left|].
  destruct (ciEq (trim s) "yesterday"); [now left|].
  destruct (relativeRegex (trim s)) as [[a u]|]; [now left|].
  destruct (usDateRegex (trim s)); [now left|].
  destruct (isoDateRegex (trim s)); [now left|].
  destruct (parse h (trim s)); [now left|]. right.
  unfold throw. now repeat eexists.
Qed.

(** ** Date-only strings *)

Lemma pad4_chars (y : Z) :
  exists a b c d,
    pad 4 y = String a (String b (String c (String d EmptyString)))
    /\ isDigit a = true /\ isDigit b = true /\ isDigit c = true
    /\ isDigit d = true.
Proof. cbn [pad append]. repeat eexists; apply digitChar_mod. Qed.

Lemma digit_lower_other (a x : ascii) :
  isDigit a = true -> isDigit (lowerChar x) = false ->
  Ascii.eqb (lowerChar a) (lowerChar x) = false.
Proof.
  intros D X. rewrite (lowerChar_digit a D). now apply digit_not_char.
Qed.

(** The branch of [parseStringDate] that a date [YYYY-MM-DD] takes. *)
Lemma parseStringDate_dateOnly (h : Host) (y m d : Z) (w : World) :
  pad 4 y ++ "-" ++ pad 2 m ++ "-" ++ pad 2 d <> EmptyString
  /\ parseStringDate h (pad 4 y ++ "-" ++ pad 2 m ++ "-" ++ pad 2 d) w
     = (inr (parse h ((pad 4 y ++ "-" ++ pad 2 m ++ "-" ++ pad 2 d)
                      ++ "T00:00:00")), w).
Proof.
  set (s := pad 4 y ++ "-" ++ pad 2 m ++ "-" ++ pad 2 d).
  assert (E : s = pad 4 y ++ "-" ++ pad 2 m ++ "-" ++ pad 2 d ++ EmptyString)
    by (unfold s; now rewrite app_nil_s).
  assert (N : ExtraSpec.noSpace s = true).
  { unfold s. rewrite !noSpace_app.
    rewrite (allDigits_noSpace (pad 4 y)), (allDigits_noSpace (pad 2 m)),
      (allDigits_noSpace (pad 2 d)) by apply allDigits_pad.
    reflexivity. }
  destruct (pad4_chars y) as (a & b & c & e & P & Da & Db & Dc & De).
  assert (H : s = String a (String b (String c (String e
                  ("-" ++ pad 2 m ++ "-" ++ pad 2 d))))).
  { unfold s. now rewrite P. }
  split; [rewrite H; discriminate|].
  unfold parseStringDate. rewrite (noSpace_trim s N).
  assert (I : isoRegex s = false).
  { rewrite E. unfold isoRegex.
    rewrite takeDigits_pad. cbn [append expect].
    change (Ascii.eqb "-" "-") with true. cbn match.
    rewrite takeDigits_pad. cbn [append expect].
    change (Ascii.eqb "-" "-") with true. cbn match.
    now rewrite takeDigits_pad. }
  assert (R : relativeRegex s = None).
  { rewrite H. unfold relativeRegex.
    now rewrite ciEq_other_head by now apply digit_lower_other. }
  assert (U : usDateRegex s = None).
  { rewrite H. unfold usDateRegex, takeDigits12. cbn [takeDigits].
    rewrite Da, Db. unfold separator.
    now rewrite (digit_not_char c "/" Dc eq_refl),
      (digit_not_char c "-" Dc eq_refl). }
  assert (D : isoDateRegex s = true).
  { rewrite E. unfold isoDateRegex.
    rewrite takeDigits_pad. cbn [append expect].
    change (Ascii.eqb "-" "-") with true. cbn match.
    rewrite takeDigits_pad. cbn [append expect].
    change (Ascii.eqb "-" "-") with true. cbn match.
    now rewrite takeDigits_pad. }
  assert (C : forall x word, isDigit (lowerChar x) = false ->
                 ciEq s (String x word) = false).
  { intros x word X. rewrite H. now apply ciEq_other_head, digit_lower_other. }
  now rewrite I, R, U, D, !C by reflexivity.
Qed.

End NormalizerFacts.

Section NormalizerExtras.
Import JS JSDate Effects DateFormat Tools DigitFacts JSDateFacts
  DateFormatFacts USDateFacts NormalizerFacts.

(** Whatever [normalizeDateTime] returns, for any accepted input (a
    timestamp, a number, a US date, a word such as "tomorrow"), is a fixed
    point: it is the print of a time value in range, it parses back to that
    time value, and normalizing it again returns it unchanged without
    reading the clock. *)
Theorem normalized_output_is_fixed_point :
  forall (h : Host) (input : JSVal) (paramName : string) (w w' : World)
         (s : string),
    (forall n, Z.abs (clock h n) <= maxTime) ->
    normalizeDateTime h input paramName w = (inr s, w') ->
    exists t,
      s = toISOString t /\ Z.abs t <= maxTime
      /\ parse h s = Some t
      /\ forall paramName' w2,
           normalizeDateTime h (JString s) paramName' w2 = (inr s, w2).
Proof.
  intros h input paramName w w' s C N.
  destruct (normalizeDateTime_clipped h input paramName w w' s C N)
    as (t & -> & A).
  exists t. repeat split; try assumption.
  - now apply parse_toISOString.
  - intros. now apply normalizeDateTime_toISOString.
Qed.

Lemma normalized_output_is_fixed_point_witness :
  exists t,
    "2023-11-15T22:13:20.000Z" = toISOString t /\ Z.abs t <= maxTime
    /\ parse Examples.utcHost "2023-11-15T22:13:20.000Z" = Some t
    /\ forall paramName' w2,
         normalizeDateTime Examples.utcHost
           (JString "2023-11-15T22:13:20.000Z") paramName' w2
         = (inr "2023-11-15T22:13:20.000Z", w2).
Proof.
  apply (normalized_output_is_fixed_point Examples.utcHost
           (JString " Tomorrow ") "timeMin" Examples.start (mkWorld 1 [])).
  - intros n. vm_compute. discriminate.
  - vm_compute. reflexivity.
Defined.

(** What [normalizeDateTime] does outside the strings: a falsy input is
    refused as missing, a number is taken as milliseconds since the epoch
    (truncated, and refused when beyond the range of dates), and any other
    value is refused by its type; every refusal names the parameter, and
    none reads the clock. *)
Theorem normalize_other_inputs :
  forall (h : Host) (input : JSVal) (paramName : string) (w : World),
    (truthy input = false ->
     normalizeDateTime h input paramName w
     = (inl (newError (paramName ++ ": Date input is required")), w))
    /\ (forall q, input = JNumber q -> truthy input = true ->
        match TimeClip (Z.quot (Qnum q) (Z.pos (Qden q))) with
        | Some t =>
            normalizeDateTime h input paramName w = (inr (toISOString t), w)
        | None =>
            exists text,
              normalizeDateTime h input paramName w
              = (inl (newError (paramName ++ ": Failed to format date "
                                ++ text)), w)
        end)
    /\ (truthy input = true -> isString input = false ->
        (forall q, input <> JNumber q) ->
        normalizeDateTime h input paramName w
        = (inl (newError (paramName ++ ": Failed to format date " ++ quote
                          ++ toStr h input ++ quote
                          ++ ": Unsupported date type: " ++ typeof input)),
           w)).
Proof.
  intros h input paramName w. split; [|split].
  - intros T. unfold normalizeDateTime, formatDateTimeForGoogle, tryCatch, bind.
    now rewrite T.
  - intros q -> T.
    unfold normalizeDateTime, formatDateTimeForGoogle, tryCatch, bind.
    rewrite T. cbn [negb]. unfold ret at 1. unfold dateOfNumber.
    destruct (TimeClip (Z.quot (Qnum q) (Z.pos (Qden q)))); [reflexivity|].
    eexists. reflexivity.
  - intros T S N.
    unfold normalizeDateTime, formatDateTimeForGoogle, tryCatch, bind.
    rewrite T. cbn [negb].
    destruct input; try discriminate; try reflexivity.
    now elim (N q).
Qed.

Lemma normalize_other_inputs_witness :
  normalizeDateTime Examples.utcHost (JArray [JString "2024-01-15"]) "endTime"
    Examples.start
  = (inl (newError ("endTime: Failed to format date " ++ quote ++ "2024-01-15"
                    ++ quote ++ ": Unsupported date type: object")),
     Examples.start).
Proof.
  apply (proj2 (proj2 (normalize_other_inputs Examples.utcHost
                         (JArray [JString "2024-01-15"]) "endTime"
                         Examples.start))); try reflexivity.
  intros q. discriminate.
Defined.

(** A relative expression "in N minutes|hours|days|weeks" (any case, any
    surrounding white space) reads the clock once and yields the instant
    whose local time is N units after the local time of the reading; in a
    zone with a constant offset this is the reading plus N units. *)
Theorem relative_expression_advances_clock :
  forall (h : Host) (s paramName amount unit : string) (w : World),
    relativeRegex (trim s) = Some (amount, unit) ->
    Z.abs (UTC h (LocalTime h (clock h (tick w))
                  + parseInt amount * ExtraSpec.unitMs (toLowerCase unit)))
    <= maxTime ->
    normalizeDateTime h (JString s) paramName w
    = (inr (toISOString
              (UTC h (LocalTime h (clock h (tick w))
                      + parseInt amount
                        * ExtraSpec.unitMs (toLowerCase unit)))),
       ExtraSpec.afterClock w)
    /\ In (ExtraSpec.unitMs (toLowerCase unit))
         [msPerMinute; msPerHour; msPerDay; 7 * msPerDay]
    /\ (forall off, (forall x b, LocalTZA h x b = off) ->
        UTC h (LocalTime h (clock h (tick w))
               + parseInt amount * ExtraSpec.unitMs (toLowerCase unit))
        = clock h (tick w)
          + parseInt amount * ExtraSpec.unitMs (toLowerCase unit)).
Proof.
  intros h s paramName amount unit w H A.
  destruct (parseStringDate_relative h s amount unit w H) as (N & P).
  split; [|split].
  - rewrite normalizeDateTime_string by exact N.
    rewrite P. now rewrite TimeClip_range.
  - destruct (relativeRegex_head _ _ _ H) as (_ & I). simpl in I.
    repeat (destruct I as [<-|I]); try contradiction; simpl; tauto.
  - intros off O. unfold UTC, LocalTime. rewrite !O. lia.
Qed.

Lemma relative_expression_advances_clock_witness :
  normalizeDateTime Examples.westHost (JString "In 2 Hours") "timeMax"
    Examples.start
  = (inr "2023-11-15T00:13:20.000Z", mkWorld 1 []).
Proof.
  refine (proj1 (relative_expression_advances_clock Examples.westHost
                   "In 2 Hours" "timeMax" "2" "Hours" Examples.start
                   eq_refl _)).
  vm_compute. discriminate.
Defined.

(** The words "today", "tomorrow" and "yesterday" (any case, any
    surrounding white space) read the clock once: "today" is the reading
    itself, and the other two are the instants whose local time is one day
    after and one day before the local time of the reading. *)
Theorem day_words_shift_whole_days :
  forall (h : Host) (s paramName : string) (w : World),
    (ciEq (trim s) "today" = true ->
     normalizeDateTime h (JString s) paramName w
     = (inr (toISOString (clock h (tick w))), ExtraSpec.afterClock w))
    /\ (ciEq (trim s) "tomorrow" = true ->
        Z.abs (UTC h (LocalTime h (clock h (tick w)) + msPerDay)) <= maxTime ->
        normalizeDateTime h (JString s) paramName w
        = (inr (toISOString
                  (UTC h (LocalTime h (clock h (tick w)) + msPerDay))),
           ExtraSpec.afterClock w))
    /\ (ciEq (trim s) "yesterday" = true ->
        Z.abs (UTC h (LocalTime h (clock h (tick w)) - msPerDay)) <= maxTime ->
        normalizeDateTime h (JString s) paramName w
        = (inr (toISOString
                  (UTC h (LocalTime h (clock h (tick w)) - msPerDay))),
           ExtraSpec.afterClock w)).
Proof.
  intros h s paramName w. split; [|split].
  - intros E. destruct (parseStringDate_word h s w _ _ E eq_refl) as (N & I).
    rewrite normalizeDateTime_string by exact N.
    unfold parseStringDate. now rewrite I, E.
  - intros E A. destruct (parseStringDate_word h s w _ _ E eq_refl) as (N & I).
    rewrite normalizeDateTime_string by exact N.
    unfold parseStringDate. rewrite I, E.
    rewrite (ciEq_word _ _ "today" E).
    change (ciEq "tomorrow" "today") with false. cbv iota.
    unfold bind, newDate, ret. rewrite setDate_shift.
    replace (1 * msPerDay) with msPerDay by lia.
    now rewrite TimeClip_range.
  - intros E A. destruct (parseStringDate_word h s w _ _ E eq_refl) as (N & I).
    rewrite normalizeDateTime_string by exact N.
    unfold parseStringDate. rewrite I, E.
    rewrite (ciEq_word _ _ "today" E), (ciEq_word _ _ "tomorrow" E).
    change (ciEq "yesterday" "today") with false.
    change (ciEq "yesterday" "tomorrow") with false. cbv iota.
    unfold bind, newDate, ret.
    replace (getDate h (clock h (tick w)) - 1)
      with (getDate h (clock h (tick w)) + -1) by lia.
    rewrite setDate_shift.
    replace (LocalTime h (clock h (tick w)) + -1 * msPerDay)
      with (LocalTime h (clock h (tick w)) - msPerDay) by lia.
    now rewrite TimeClip_range.
Qed.

Lemma day_words_shift_whole_days_witness :
  normalizeDateTime Examples.westHost (JString "Yesterday") "timeMin"
    Examples.start
  = (inr "2023-11-13T22:13:20.000Z", mkWorld 1 []).
Proof.
  refine (proj2 (proj2 (day_words_shift_whole_days Examples.westHost
                          "Yesterday" "timeMin" Examples.start)) eq_refl _).
  vm_compute. discriminate.
Defined.

(** A string that [isValidGoogleDateTimeFormat] accepts is accepted by
    [normalizeDateTime] as well, which prints the very instant that the
    string denotes and does not read the clock; a string of the canonical
    shape that it refuses (its fields are no date) is refused by
    [normalizeDateTime] too, as an invalid date. *)
Theorem valid_format_is_normalized_to_its_instant :
  forall (h : Host) (s paramName : string) (w : World),
    (isValidGoogleDateTimeFormat h s = true ->
     exists t, parse h s = Some t
               /\ normalizeDateTime h (JString s) paramName w
                  = (inr (toISOString t), w))
    /\ (isoRegex s = true -> isValidGoogleDateTimeFormat h s = false ->
        normalizeDateTime h (JString s) paramName w
        = (inl (newError (paramName ++ ": Failed to format date " ++ quote ++ s
                          ++ quote ++ ": Invalid date: " ++ s)), w)).
Proof.
  intros h s paramName w. unfold isValidGoogleDateTimeFormat. split.
  - destruct (isoRegex s) eqn:I; [|discriminate]. cbn [negb].
    destruct (parse h s) as [t|] eqn:P; [|discriminate]. intros _.
    exists t. split; [reflexivity|].
    destruct (isoRegex_noSpace s I) as (N & E).
    rewrite normalizeDateTime_string by exact E.
    rewrite parseStringDate_iso; rewrite (noSpace_trim s N); [|exact I].
    now rewrite P.
  - intros I. rewrite I. cbn [negb].
    destruct (parse h s) as [t|] eqn:P; [discriminate|]. intros _.
    destruct (isoRegex_noSpace s I) as (N & E).
    rewrite normalizeDateTime_string by exact E.
    rewrite parseStringDate_iso; rewrite (noSpace_trim s N); [|exact I].
    now rewrite P.
Qed.

Lemma valid_format_is_normalized_to_its_instant_witness :
  exists t, parse Examples.westHost "2024-02-29T23:59:59+05:30" = Some t
            /\ normalizeDateTime Examples.westHost
                 (JString "2024-02-29T23:59:59+05:30") "endTime" Examples.start
               = (inr (toISOString t), Examples.start).
Proof.
  exact (proj1 (valid_format_is_normalized_to_its_instant Examples.westHost
                  "2024-02-29T23:59:59+05:30" "endTime" Examples.start)
           eq_refl).
Defined.

(** White space around a date string does not matter: a string and its
    trimmed form are accepted together, with the same result and the same
    readings of the clock. *)
Theorem normalize_ignores_surrounding_space :
  forall (h : Host) (s paramName result : string) (w w' : World),
    trim s <> EmptyString ->
    (normalizeDateTime h (JString s) paramName w = (inr result, w')
     <-> normalizeDateTime h (JString (trim s)) paramName w = (inr result, w')).
Proof.
  intros h s paramName result w w' T.
  assert (N : s <> EmptyString) by (intros ->; now apply T).
  rewrite !normalizeDateTime_string by assumption.
  destruct (parseStringDate_trim h s w) as [->|(e & e' & w1 & -> & ->)].
  - destruct (parseStringDate h (trim s) w) as [[e|[t|]] w1];
      split; try discriminate; trivial.
  - split; discriminate.
Qed.

Lemma normalize_ignores_surrounding_space_witness :
  normalizeDateTime Examples.utcHost (JString "  1/15/2024 9:30 AM ") "startTime"
    Examples.start
  = (inr "2024-01-15T09:30:00.000Z", Examples.start)
  <-> normalizeDateTime Examples.utcHost (JString "1/15/2024 9:30 AM")
        "startTime" Examples.start
      = (inr "2024-01-15T09:30:00.000Z", Examples.start).
Proof.
  apply (normalize_ignores_surrounding_space Examples.utcHost
           "  1/15/2024 9:30 AM " "startTime").
  vm_compute. discriminate.
Defined.

(** A date without a time, [YYYY-MM-DD], is the midnight that starts that
    day in the local zone (and not in UTC): the local year, month and day
    of the normalized instant are the fields of the string, at 00:00. *)
Theorem date_only_is_local_midnight :
  forall (h : Host) (y m d : Z) (paramName : string) (w : World),
    0 <= y <= 9999 -> 1 <= m <= 12 -> 1 <= d <= DaysInMonth y (m - 1) ->
    (forall t, Z.abs (LocalTZA h t false) <= msPerDay) ->
    normalizeDateTime h
      (JString (pad 4 y ++ "-" ++ pad 2 m ++ "-" ++ pad 2 d)) paramName w
    = (inr (toISOString (UTC h (MakeDate (MakeDay y (m - 1) d) 0))), w)
    /\ (LocalTZA h (UTC h (MakeDate (MakeDay y (m - 1) d) 0)) true
        = LocalTZA h (MakeDate (MakeDay y (m - 1) d) 0) false ->
        getFullYear h (UTC h (MakeDate (MakeDay y (m - 1) d) 0)) = y
        /\ getMonth h (UTC h (MakeDate (MakeDay y (m - 1) d) 0)) = m - 1
        /\ getDate h (UTC h (MakeDate (MakeDay y (m - 1) d) 0)) = d
        /\ getHours h (UTC h (MakeDate (MakeDay y (m - 1) d) 0)) = 0
        /\ getMinutes h (UTC h (MakeDate (MakeDay y (m - 1) d) 0)) = 0).
Proof.
  intros h y m d paramName w Y M D TZ. split.
  - destruct (parseStringDate_dateOnly h y m d w) as (N & P).
    rewrite normalizeDateTime_string by exact N. rewrite P.
    assert (V : validFields (mkIso y m d 0 0 0 None ZoneNone)).
    { unfold validFields. simpl. repeat split; lia. }
    replace ((pad 4 y ++ "-" ++ pad 2 m ++ "-" ++ pad 2 d) ++ "T00:00:00")
      with (canonical (mkIso y m d 0 0 0 None ZoneNone))
      by (unfold canonical; cbn [iso_year iso_month iso_day iso_hour
            iso_minute iso_second iso_frac iso_zone fracString zoneString];
          rewrite !app_assoc_s; reflexivity).
    now rewrite (parse_canonical h _ V TZ).
  - intros EX.
    assert (L : LocalTime h (UTC h (MakeDate (MakeDay y (m - 1) d) 0))
                = MakeDate (MakeDay y (m - 1) d) (MakeTime 0 0 0 0)).
    { unfold LocalTime. rewrite EX. unfold UTC.
      change (MakeTime 0 0 0 0) with 0. lia. }
    destruct (fields_of_MakeDate y (m - 1) d 0 0 0 0
                ltac:(lia) D ltac:(lia) ltac:(lia) ltac:(lia) ltac:(lia))
      as (Ey & Em & Ed & Eh & Emi & _).
    unfold getFullYear, getMonth, getDate, getHours, getMinutes.
    rewrite L. now repeat split.
Qed.

Lemma date_only_is_local_midnight_witness :
  normalizeDateTime Examples.westHost (JString "2024-02-29") "startDate"
    Examples.start
  = (inr "2024-02-29T05:00:00.000Z", Examples.start).
Proof.
  refine (proj1 (date_only_is_local_midnight Examples.westHost 2024 2 29
                   "startDate" Examples.start _ _ _ _)); try lia.
  - vm_compute. split; discriminate.
  - intros t. vm_compute. discriminate.
Defined.

End NormalizerExtras.

(** * The validators *)

Module EmailFacts.
Import JS JSDate Effects DateFormat Tools EffectSpec ExtraSpec DigitFacts.

Lemma word_app (a b : string) : word (a ++ b) = word a && word b.
Proof.
  induction a as [|c a IH]; [reflexivity|]. simpl. rewrite IH.
  now rewrite andb_assoc.
Qed.

(** [spanWord] splits a string at its first character that is white space
    or [@]. *)
Lemma spanWord_spec (s : string) :
  forall w r, spanWord s = (w, r) ->
  s = w ++ r /\ word w = true
  /\ (r = EmptyString \/ exists c r', r = String c r' /\ wordChar c = false).
Proof.
  induction s as [|c s IH]; intros w r; cbn [spanWord].
  - intros [= <- <-]. repeat split. now left.
  - destruct (isSpace c || Ascii.eqb c "@") eqn:C.
    + intros [= <- <-]. repeat split. right. exists c, s.
      split; [reflexivity|]. unfold wordChar. now rewrite C.
    + destruct (spanWord s) as [w' r'] eqn:E. intros [= <- <-].
      destruct (IH w' r' eq_refl) as (-> & W & R).
      repeat split; [|exact R]. simpl. unfold wordChar. now rewrite C, W.
Qed.

Lemma spanWord_word (w r : string) :
  word w = true ->
  (r = EmptyString \/ exists c r', r = String c r' /\ wordChar c = false) ->
  spanWord (w ++ r) = (w, r).
Proof.
  intros W R. induction w as [|c w IH].
  - destruct R as [->|(c & r' & -> & C)]; [reflexivity|].
    cbn [append spanWord]. unfold wordChar in C.
    apply negb_false_iff in C. now rewrite C.
  - simpl in W. apply andb_true_iff in W as [C W].
    cbn [append spanWord]. unfold wordChar in C. apply negb_true_iff in C.
    now rewrite C, (IH W).
Qed.

Lemma hasInnerDot_spec (d : string) :
  forall seen, hasInnerDot seen d = true ->
  exists a b, d = a ++ "." ++ b /\ (seen = true \/ a <> EmptyString)
              /\ b <> EmptyString.
Proof.
  induction d as [|c d IH]; intros seen; cbn [hasInnerDot]; [discriminate|].
  intros H. apply orb_true_iff in H as [H|H].
  - apply andb_true_iff in H as [H B]. apply andb_true_iff in H as [C S].
    apply Ascii.eqb_eq in C. subst c.
    exists EmptyString, d. repeat split; [now left|].
    intros ->. discriminate B.
  - destruct (IH true H) as (a & b & -> & _ & B).
    exists (String c a), b. repeat split; [right; discriminate|exact B].
Qed.

Lemma hasInnerDot_parts (a b : string) :
  b <> EmptyString ->
  forall seen, seen = true \/ a <> EmptyString ->
  hasInnerDot seen (a ++ "." ++ b) = true.
Proof.
  intros B. induction a as [|c a IH]; intros seen S.
  - destruct S as [->|S]; [|contradiction]. cbn [append hasInnerDot].
    destruct b; [contradiction|reflexivity].
  - cbn [append hasInnerDot].
    change (a ++ String "." b) with (a ++ "." ++ b).
    rewrite (IH true) by now left. apply orb_true_r.
Qed.

(** ** The loop over the addresses *)

Lemma validateEmails_accepts (h : Host) (n : string) (items : list JSVal)
    (w : World) :
  forall i, validateEmails h n i items w = (inr tt, w) <->
            Forall validEmail items.
Proof.
  induction items as [|e items IH]; intros i; cbn [validateEmails].
  - split; [constructor|reflexivity].
  - destruct e as [| |bo|q|s|l|f];
      try (split; [discriminate|intros H; inversion H as [|? ? (s & E & _) _];
                                discriminate E]).
    destruct (emailRegex s) eqn:R.
    + rewrite IH. split; intros H.
      * constructor; [now exists s|exact H].
      * now inversion H.
    + split; [discriminate|]. intros H.
      inversion H as [|? ? (s' & E & R') _]. inversion E; subst. congruence.
Qed.

Lemma validateEmails_first (h : Host) (n : string) (good : list JSVal)
    (bad : JSVal) (rest : list JSVal) (w : World) :
  Forall validEmail good -> ~ validEmail bad ->
  forall i, exists text,
    validateEmails h n i (good ++ bad :: rest) w
    = (inl (newError (n ++ "[" ++ natString (i + List.length good)
                      ++ "] must be " ++ text)), w).
Proof.
  intros G B. induction G as [|e good (s & -> & R) _ IH]; intros i.
  - cbn [List.app validateEmails List.length]. rewrite Nat.add_0_r.
    destruct bad as [| |bo|q|s|l|f]; try (eexists; reflexivity).
    destruct (emailRegex s) eqn:R; [|eexists; reflexivity].
    elim B. now exists s.
  - cbn [List.app validateEmails List.length]. rewrite R.
    destruct (IH (S i)) as (text & E). exists text.
    replace (i + S (List.length good))%nat
      with (S i + List.length good)%nat by lia.
    exact E.
Qed.

End EmailFacts.

Section ValidatorExtras.
Import JS JSDate Effects DateFormat Tools EffectSpec ExtraSpec DigitFacts
  EmailFacts.

(** The test for an email address accepts exactly the strings
    [local@a.b] whose three parts are not empty and hold neither white
    space nor [@]: one [@] only, and a dot in the domain that is neither its
    first nor its last character. *)
Theorem email_addresses_have_a_dotted_domain :
  forall s : string, emailRegex s = true <-> emailShape s.
Proof.
  intros s. unfold emailRegex, emailShape. split.
  - destruct (spanWord s) as [local r] eqn:E1.
    destruct (spanWord_spec s local r E1) as (-> & W & _).
    destruct (String.eqb_spec local EmptyString) as [->|N]; [discriminate|].
    destruct r as [|c r']; [discriminate|].
    destruct (Ascii.eqb_spec c "@") as [->|]; [|discriminate].
    destruct (spanWord r') as [domain rest] eqn:E2.
    destruct (spanWord_spec r' domain rest E2) as (-> & D & _).
    intros H. apply andb_true_iff in H as [R I].
    apply String.eqb_eq in R. subst rest.
    destruct (hasInnerDot_spec domain false I) as (a & b & -> & [A|A] & B);
      [discriminate|].
    rewrite word_app in D. apply andb_true_iff in D as [Wa Wb].
    exists local, a, b. rewrite app_nil_s. repeat split; assumption.
  - intros (local & a & b & -> & Wl & Wa & Wb & Nl & Na & Nb).
    rewrite (spanWord_word local ("@" ++ a ++ "." ++ b) Wl)
      by (right; now exists "@"%char, (a ++ "." ++ b)).
    destruct (String.eqb_spec local EmptyString) as [->|_]; [contradiction|].
    cbn [append]. change (Ascii.eqb "@" "@") with true. cbn match.
    assert (Wd : word (a ++ "." ++ b) = true).
    { rewrite !word_app, Wa. cbn [andb word]. now rewrite Wb. }
    pose proof (spanWord_word _ EmptyString Wd (or_introl eq_refl)) as Sp.
    rewrite app_nil_s in Sp. cbn [append] in Sp. rewrite Sp.
    cbn [String.eqb andb].
    apply (hasInnerDot_parts a b Nb). now right.
Qed.

(** [validateEmailArray] accepts [undefined], [null] and the arrays whose
    elements are all strings that pass the test for an email address, and
    nothing else; in an array that it refuses, the error names the index of
    the first element that is not such a string. *)
Theorem attendees_are_checked_in_order :
  forall (h : Host) (emails : JSVal) (paramName : string) (w : World),
    (validateEmailArray h emails paramName w = (inr tt, w) <-> okEmails emails)
    /\ (forall good bad rest,
          emails = JArray (good ++ bad :: rest) ->
          Forall validEmail good -> ~ validEmail bad ->
          exists text,
            validateEmailArray h emails paramName w
            = (inl (newError (paramName ++ "["
                              ++ natString (List.length good)
                              ++ "] must be " ++ text)), w)).
Proof.
  intros h emails paramName w. split.
  - unfold validateEmailArray, okEmails.
    destruct emails as [| |bo|q|s|items|f]; cbn [nullish];
      try (split; [now left|reflexivity]);
      try (split; [discriminate|intros [N|(l & E & _)]; discriminate]).
    rewrite validateEmails_accepts. split.
    + intros F. right. now exists items.
    + intros [N|(l & E & F)]; [discriminate|]. now inversion E; subst.
  - intros good bad rest -> G B. unfold validateEmailArray. cbn [nullish].
    apply (validateEmails_first h paramName good bad rest w G B 0%nat).
Qed.

Lemma attendees_are_checked_in_order_witness :
  exists text,
    validateEmailArray Examples.utcHost
      (JArray [JString "ana@example.com"; JString "bob@example"; JNull])
      "attendees" Examples.start
    = (inl (newError ("attendees[1] must be " ++ text)), Examples.start).
Proof.
  refine (proj2 (attendees_are_checked_in_order Examples.utcHost
                   (JArray [JString "ana@example.com"; JString "bob@example";
                            JNull])
                   "attendees" Examples.start)
            [JString "ana@example.com"] (JString "bob@example") [JNull]
            eq_refl _ _).
  - repeat constructor. exists "ana@example.com". split; reflexivity.
  - intros (s & E & R). inversion E; subst. discriminate R.
Defined.

End ValidatorExtras.

#[local] Open Scope string_scope.
#[local] Open Scope list_scope.
#[local] Open Scope Z_scope.

(** * The tools, one by one *)

Module DispatchFacts.
Import JS JSDate Effects DateFormat GoogleTools Tools EffectSpec ToolsFacts
  ExtraSpec.

Lemma isGoogleApiError_newError (msg : string) :
  isGoogleApiError (newError msg) = includes "googleapis" msg.
Proof.
  unfold isGoogleApiError, newError. cbn. destruct msg; reflexivity.
Qed.

Lemma formatGoogleApiError_newError (msg : string) :
  msg <> EmptyString ->
  formatGoogleApiError (newError msg)
  = ("Google Calendar API error (unknown): " ++ msg)%string.
Proof.
  intros N. unfold formatGoogleApiError, newError, errorDetailsOf. cbn.
  destruct msg; [contradiction|reflexivity].
Qed.

(** The message for a dispatch that threw a plain [Error]. *)
Lemma handleToolCall_of_newError (h : Host) (b : Backend) (p : Presenter)
    (tc : ToolCall) (auth : option OAuth2Client) (w w' : World) (msg : string) :
  dispatch h b p tc auth w = (inl (newError msg), w') ->
  handleToolCall h b p tc auth w = (inr (errorMessage tc msg), w').
Proof.
  intros D. rewrite (handleToolCall_of_error _ _ _ _ _ _ _ _ D).
  unfold errorMessage, reportOf. rewrite isGoogleApiError_newError.
  destruct (includes "googleapis" msg) eqn:I; [|reflexivity].
  rewrite formatGoogleApiError_newError; [reflexivity|].
  intros ->. discriminate I.
Qed.

Lemma handleToolCall_of_result (h : Host) (b : Backend) (p : Presenter)
    (tc : ToolCall) (auth : option OAuth2Client) (w w' : World) (r : string) :
  dispatch h b p tc auth w = (inr r, w') ->
  handleToolCall h b p tc auth w = (inr (mkMessage "tool" (id tc) r), w').
Proof. intros D. unfold handleToolCall, tryCatch, bind. now rewrite D. Qed.

Lemma Qred_integer (k : Z) : Qred (inject_Z k) = inject_Z k.
Proof.
  unfold Qred, inject_Z.
  pose proof (Z.ggcd_gcd k 1) as G.
  pose proof (Z.ggcd_correct_divisors k 1) as D.
  destruct (Z.ggcd k 1) as [g [aa bb]]. cbn [fst snd] in *.
  rewrite Z.gcd_1_r in G. subst g. destruct D as [D1 D2].
  rewrite Z.mul_1_l in D1, D2. now subst.
Qed.

Lemma isInteger_numZ (k : Z) : isInteger (numZ k) = true.
Proof. unfold isInteger, numZ. now rewrite Qred_integer. Qed.

Lemma okInteger_run (h : Host) (v : JSVal) (n : string) (lo : Z) (w : World) :
  okInteger lo v -> validateInteger h v n (Some lo) None w = (inr tt, w).
Proof.
  intros [N|(k & -> & L)]; unfold validateInteger.
  - now rewrite N.
  - rewrite isInteger_numZ. cbn [nullish numZ negb].
    unfold numLt, Qle_bool. cbn [Qnum Qden inject_Z].
    rewrite !Z.mul_1_r. destruct (Z.leb_spec lo k); [reflexivity|lia].
Qed.

(** A value that the normalizer accepts is a property of an object. *)
Lemma normalized_prop (h : Host) (v : JSVal) (k : string) (w w' : World)
    (s : string) :
  normalizeDateTime h (prop v k) k w = (inr s, w') -> nullish v = false.
Proof. destruct v; try reflexivity; discriminate. Qed.

Lemma dateGe_printed (h : Host) (ts te : Z) :
  Z.abs ts <= maxTime -> Z.abs te <= maxTime -> te <= ts ->
  dateGe (parse h (toISOString ts)) (parse h (toISOString te)) = true.
Proof.
  intros A B L. rewrite !JSDateFacts.parse_toISOString by assumption.
  simpl. now apply Z.leb_le.
Qed.

Lemma quiet_run {A : Type} (c : Eff A) (w w' : World) (r : JSError + A) :
  quiet c -> c w = (r, w') -> trace w' = trace w.
Proof. intros Q E. specialize (Q w). now rewrite E in Q. Qed.

Lemma snd_handleToolCall (h : Host) (b : Backend) (p : Presenter)
    (tc : ToolCall) (auth : option OAuth2Client) (w : World) :
  snd (handleToolCall h b p tc auth w) = snd (dispatch h b p tc auth w).
Proof.
  unfold handleToolCall, tryCatch, bind.
  destruct (dispatch h b p tc auth w) as [[e|r] w']; reflexivity.
Qed.

Lemma isTimed_run (event : JSVal) (w : World) :
  nullish event = false -> isTimed event w = (inr (hasTimes event), w).
Proof.
  intros N. unfold isTimed, hasTimes, bind, getProp. rewrite N.
  unfold ret at 1. rewrite !ConflictFacts.prop_nullish.
  destruct (truthy (prop (prop event "start") "dateTime")); [|reflexivity].
  cbn [negb andb]. unfold ret at 1.
  now rewrite ConflictFacts.prop_nullish.
Qed.

Lemma filterM_isTimed (items : list JSVal) (w : World) :
  Forall (fun e => nullish e = false) items ->
  filterM isTimed items w = (inr (filter hasTimes items), w).
Proof.
  induction 1 as [|x l N _ IH]; [reflexivity|].
  cbn [filterM filter]. unfold bind. rewrite (isTimed_run x w N).
  unfold bind in IH. rewrite IH. reflexivity.
Qed.

Lemma bind_ret_l {A B : Type} (x : A) (k : A -> Eff B) : bind (ret x) k = k x.
Proof. reflexivity. Qed.

Lemma truthy_numZ (n : Z) : n <> 0 -> truthy (numZ n) = true.
Proof.
  intros N. unfold truthy, numZ.
  fold (Qeq_bool (inject_Z n) 0).
  destruct (Qeq_bool (inject_Z n) 0) eqn:E; [|reflexivity].
  apply Qeq_bool_iff in E. unfold Qeq in E. simpl in E. lia.
Qed.

Lemma dateOfNumber_minutes (t n : Z) :
  dateOfNumber (inject_Z t + inject_Z n * inject_Z 60000)%Q
  = TimeClip (t + n * 60000).
Proof.
  unfold dateOfNumber, Qplus, Qmult, inject_Z. cbn [Qnum Qden Pos.mul].
  rewrite Z.quot_1_r. f_equal. lia.
Qed.

Lemma attendeeObjects_run (v : JSVal) (w : World) :
  okEmails v -> attendeeObjects v w = (inr (attendeeList v), w).
Proof.
  intros [N|(items & -> & _)]; unfold attendeeObjects.
  - rewrite N. destruct v; try discriminate; reflexivity.
  - reflexivity.
Qed.

(** ** Messages that cannot be taken for an error of the service *)

Lemma includes_lacks (s : string) :
  lacks "g" s = true -> includes "googleapis" s = false.
Proof.
  induction s as [|c r IH]; [reflexivity|]. cbn [lacks includes].
  intros H. apply andb_true_iff in H as [C L]. apply negb_true_iff in C.
  rewrite (IH L), orb_false_r. cbn [String.prefix].
  destruct (ascii_dec "g" c) as [<-|_]; [discriminate C|reflexivity].
Qed.

Lemma lacks_app (x : ascii) (a b : string) :
  lacks x (a ++ b) = lacks x a && lacks x b.
Proof.
  induction a as [|c a IH]; [reflexivity|]. simpl. rewrite IH.
  now rewrite andb_assoc.
Qed.

Lemma lacks_intString (n : Z) : lacks "g" (intString n) = true.
Proof.
  assert (U : forall u, lacks "g" (DecimalString.NilZero.string_of_uint u)
                        = true).
  { intros u. unfold DecimalString.NilZero.string_of_uint.
    destruct u; try reflexivity;
      (cbn [DecimalString.NilEmpty.string_of_uint lacks];
       cbn [Ascii.eqb Bool.eqb negb andb];
       match goal with
       | |- lacks _ (DecimalString.NilEmpty.string_of_uint ?v) = true =>
           induction v; simpl; auto
       end). }
  unfold intString, DecimalString.NilZero.string_of_int.
  destruct (Z.to_int n); [apply U|]. cbn [lacks]. now rewrite U.
Qed.

Lemma toStr_numZ (h : Host) (n : Z) : toStr h (numZ n) = intString n.
Proof.
  pose proof (isInteger_numZ n) as I. unfold numZ in *.
  cbn [toStr]. now rewrite I, Qred_integer.
Qed.

Lemma okIntegerIn_run (h : Host) (v : JSVal) (n : string) (lo hi : Z)
    (w : World) :
  okIntegerIn lo hi v ->
  validateInteger h v n (Some lo) (Some hi) w = (inr tt, w).
Proof.
  intros [N|(k & -> & L)]; unfold validateInteger.
  - now rewrite N.
  - rewrite isInteger_numZ. cbn [nullish numZ negb].
    unfold numLt, Qle_bool. cbn [Qnum Qden inject_Z].
    rewrite !Z.mul_1_r.
    destruct (Z.leb_spec lo k); [|lia]. destruct (Z.leb_spec k hi); [|lia].
    reflexivity.
Qed.

Lemma nullish_falsy (v : JSVal) : nullish v = true -> truthy v = false.
Proof. destruct v; try discriminate; reflexivity. Qed.

(** The trace is settled once only pure steps remain. *)
Lemma trace_pure_tail {A B : Type} (c : Eff A) (k : A -> Eff B) (w : World) :
  (forall x, pureEff (k x)) -> snd (bind c k w) = snd (c w).
Proof.
  intros P. unfold bind. destruct (c w) as [[e|x] w']; [reflexivity|].
  apply P.
Qed.

End DispatchFacts.

Section ToolExtras.
Import JS JSDate Effects DateFormat GoogleTools Tools EffectSpec ToolsFacts
  ExtraSpec DispatchFacts.

(** Without credentials every calendar tool answers "Google Calendar
    authentication required", whatever its arguments, and nothing is done:
    no request, no reading of the clock.  The shell tool does not need
    credentials: it runs its command, once, and answers with what the shell
    returned. *)
Theorem calendar_tools_require_credentials :
  forall (h : Host) (b : Backend) (p : Presenter) (tc : ToolCall) (w : World),
    (In (name tc) calendarTools ->
     handleToolCall h b p tc None w
     = (inr (mkMessage "tool" (id tc)
               ("Error executing " ++ name tc
                ++ ": Google Calendar authentication required")%string), w))
    /\ (forall fields out auth,
          name tc = "bash" -> input tc = JObject fields ->
          shell b (lookup "command" fields) = inr out ->
          handleToolCall h b p tc auth w
          = (inr (mkMessage "tool" (id tc) out),
             mkWorld (tick w)
               (trace w ++ [CallBash (lookup "command" fields)]))).
Proof.
  intros h b p [i n v] w. cbn [name id input]. split.
  - intros I. simpl in I.
    repeat (destruct I as [<-|I]); try contradiction; reflexivity.
  - intros fields out auth -> -> S.
    apply handleToolCall_of_result. unfold dispatch. cbn [name input].
    cbn. unfold executeBash, callShell. now rewrite S.
Qed.

Lemma calendar_tools_require_credentials_witness :
  handleToolCall Examples.utcHost (Examples.calendarOf []) Examples.presenter
    (mkToolCall "call_1" "delete_event"
       (JObject [("eventId", JString "event_1")])) None Examples.start
  = (inr (mkMessage "tool" "call_1"
            "Error executing delete_event: Google Calendar authentication required"),
     Examples.start).
Proof.
  apply (proj1 (calendar_tools_require_credentials Examples.utcHost
                  (Examples.calendarOf []) Examples.presenter
                  (mkToolCall "call_1" "delete_event"
                     (JObject [("eventId", JString "event_1")]))
                  Examples.start)).
  simpl. tauto.
Defined.

(** [check_conflicts] and [find_free_time] refuse a window whose start,
    after normalization, is not before its end: the answer is an error and
    no request is sent; for an authorised caller with valid other
    arguments the text is "<start> must be before <end>", with the names of
    the two parameters. *)
Theorem window_tools_reject_unordered_bounds :
  forall (h : Host) (b : Backend) (p : Presenter) (tc : ToolCall)
         (auth : option OAuth2Client) (w w1 w2 : World) (ts te : Z)
         (ks ke : string),
    (name tc = "check_conflicts" /\ ks = "startTime" /\ ke = "endTime")
    \/ (name tc = "find_free_time" /\ ks = "startDate" /\ ke = "endDate") ->
    normalizeDateTime h (prop (input tc) ks) ks w = (inr (toISOString ts), w1) ->
    normalizeDateTime h (prop (input tc) ke) ke w1 = (inr (toISOString te), w2) ->
    Z.abs ts <= maxTime -> Z.abs te <= maxTime ->
    te <= ts ->
    (exists text w',
        handleToolCall h b p tc auth w
        = (inr (mkMessage "tool" (id tc)
                  ("Error executing " ++ name tc ++ ": " ++ text)%string), w')
        /\ trace w' = trace w)
    /\ (auth <> None ->
        okString (prop (input tc) "calendarId") ->
        okInteger 1 (prop (input tc) "slotDurationMinutes") ->
        handleToolCall h b p tc auth w
        = (inr (mkMessage "tool" (id tc)
                  ("Error executing " ++ name tc ++ ": " ++ ks
                   ++ " must be before " ++ ke)%string), w2)).
Proof.
  intros h b p [i n v] auth w w1 w2 ts te ks ke K Ns Ne Vs Ve L.
  cbn [name id input] in *.
  pose proof (normalized_prop _ _ _ _ _ _ Ns) as Nn.
  pose proof (quiet_run _ _ _ _ (quiet_normalizeDateTime h _ _) Ns) as Q1.
  pose proof (quiet_run _ _ _ _ (quiet_normalizeDateTime h _ _) Ne) as Q2.
  rewrite Q1 in Q2.
  pose proof (dateGe_printed h ts te Vs Ve L) as G.
  destruct K as [(-> & -> & ->)|(-> & -> & ->)]; split.
  - assert (R : rejected w
                  (dispatch h b p (mkToolCall i "check_conflicts" v) auth w)).
    { unfold dispatch. cbn [name input String.eqb Ascii.eqb Bool.eqb].
      unfold checkConflictsCase.
      apply rejected_bind_pure; [apply pure_requireAuth|reflexivity|intros _].
      apply EmitFacts.rejected_bind_getProp; [reflexivity|].
      rewrite (bind_known _ _ w w1 _ Ns), (bind_known _ _ w1 w2 _ Ne).
      apply rejected_bind_pure; [apply pure_validateString|exact Q2|intros _].
      rewrite G, bind_run. cbn [when throw].
      eexists. exists w2. split; [reflexivity|exact Q2]. }
    destruct R as (e & w' & E & T).
    rewrite (handleToolCall_of_error _ _ _ _ _ _ _ _ E).
    eexists. exists w'. split; [reflexivity|exact T].
  - intros A Oc _.
    rewrite (handleToolCall_of_newError h b p _ auth w w2
               "startTime must be before endTime"); [reflexivity|].
    unfold dispatch. cbn [name input String.eqb Ascii.eqb Bool.eqb].
    unfold checkConflictsCase.
    destruct auth as [a|]; [|contradiction].
    rewrite (bind_known _ _ w w tt) by reflexivity.
    rewrite (bind_known _ _ w w (prop v "startTime"))
      by (unfold getProp; now rewrite Nn).
    rewrite (bind_known _ _ w w1 _ Ns), (bind_known _ _ w1 w2 _ Ne).
    rewrite (bind_known _ _ w2 w2 tt) by now apply okString_run.
    now rewrite G.
  - assert (R : rejected w
                  (dispatch h b p (mkToolCall i "find_free_time" v) auth w)).
    { unfold dispatch. cbn [name input String.eqb Ascii.eqb Bool.eqb].
      unfold findFreeTimeCase.
      apply rejected_bind_pure; [apply pure_requireAuth|reflexivity|intros _].
      apply EmitFacts.rejected_bind_getProp; [reflexivity|].
      rewrite (bind_known _ _ w w1 _ Ns), (bind_known _ _ w1 w2 _ Ne).
      apply rejected_bind_pure; [apply pure_validateInteger|exact Q2|intros _].
      apply rejected_bind_pure; [apply pure_validateString|exact Q2|intros _].
      rewrite G, bind_run. cbn [when throw].
      eexists. exists w2. split; [reflexivity|exact Q2]. }
    destruct R as (e & w' & E & T).
    rewrite (handleToolCall_of_error _ _ _ _ _ _ _ _ E).
    eexists. exists w'. split; [reflexivity|exact T].
  - intros A Oc Oi.
    rewrite (handleToolCall_of_newError h b p _ auth w w2
               "startDate must be before endDate"); [reflexivity|].
    unfold dispatch. cbn [name input String.eqb Ascii.eqb Bool.eqb].
    unfold findFreeTimeCase.
    destruct auth as [a|]; [|contradiction].
    rewrite (bind_known _ _ w w tt) by reflexivity.
    rewrite (bind_known _ _ w w (prop v "startDate"))
      by (unfold getProp; now rewrite Nn).
    rewrite (bind_known _ _ w w1 _ Ns), (bind_known _ _ w1 w2 _ Ne).
    rewrite (bind_known _ _ w2 w2 tt) by now apply okInteger_run.
    rewrite (bind_known _ _ w2 w2 tt) by now apply okString_run.
    now rewrite G.
Qed.

Lemma window_tools_reject_unordered_bounds_witness :
  handleToolCall Examples.utcHost (Examples.calendarOf []) Examples.presenter
    (mkToolCall "call_4" "find_free_time"
       (JObject [("startDate", JString "1/16/2024");
                 ("endDate", JString "2024-01-16")]))
    Examples.user Examples.start
  = (inr (mkMessage "tool" "call_4"
            "Error executing find_free_time: startDate must be before endDate"),
     Examples.start).
Proof.
  refine (proj2 (window_tools_reject_unordered_bounds Examples.utcHost
            (Examples.calendarOf []) Examples.presenter
            (mkToolCall "call_4" "find_free_time"
               (JObject [("startDate", JString "1/16/2024");
                         ("endDate", JString "2024-01-16")]))
            Examples.user Examples.start Examples.start Examples.start
            1705363200000 1705363200000 "startDate" "endDate"
            (or_intror (conj eq_refl (conj eq_refl eq_refl)))
            eq_refl eq_refl _ _ _) _ _ _);
    try (vm_compute; discriminate); try (left; reflexivity); discriminate.
Defined.

(** [create_event] refuses an event whose start, after normalization, is
    not before its end: the answer is an error and no event is inserted; for
    an authorised caller with a title and valid other arguments the text is
    "startDateTime must be before endDateTime". *)
Theorem create_event_rejects_unordered_times :
  forall (h : Host) (b : Backend) (p : Presenter) (tc : ToolCall)
         (auth : option OAuth2Client) (w w1 w2 : World) (ts te : Z),
    name tc = "create_event" ->
    normalizeDateTime h (prop (input tc) "startDateTime") "startDateTime" w
    = (inr (toISOString ts), w1) ->
    normalizeDateTime h (prop (input tc) "endDateTime") "endDateTime" w1
    = (inr (toISOString te), w2) ->
    Z.abs ts <= maxTime -> Z.abs te <= maxTime ->
    te <= ts ->
    (exists text w',
        handleToolCall h b p tc auth w
        = (inr (mkMessage "tool" (id tc)
                  ("Error executing create_event: " ++ text)%string), w')
        /\ trace w' = trace w)
    /\ (auth <> None ->
        isString (prop (input tc) "title") = true ->
        truthy (prop (input tc) "title") = true ->
        okString (prop (input tc) "description") ->
        okString (prop (input tc) "location") ->
        okString (prop (input tc) "calendarId") ->
        okEmails (prop (input tc) "attendees") ->
        handleToolCall h b p tc auth w
        = (inr (mkMessage "tool" (id tc)
                  "Error executing create_event: startDateTime must be before endDateTime"),
           w2)).
Proof.
  intros h b p [i n v] auth w w1 w2 ts te Hn Ns Ne Vs Ve L.
  cbn [name id input] in *. subst n.
  pose proof (normalized_prop _ _ _ _ _ _ Ns) as Nn.
  pose proof (quiet_run _ _ _ _ (quiet_normalizeDateTime h _ _) Ns) as Q1.
  pose proof (quiet_run _ _ _ _ (quiet_normalizeDateTime h _ _) Ne) as Q2.
  rewrite Q1 in Q2.
  pose proof (dateGe_printed h ts te Vs Ve L) as G.
  split.
  - assert (R : rejected w
                  (dispatch h b p (mkToolCall i "create_event" v) auth w)).
    { unfold dispatch. cbn [name input String.eqb Ascii.eqb Bool.eqb].
      unfold createEventCase.
      apply rejected_bind_pure; [apply pure_requireAuth|reflexivity|intros _].
      apply EmitFacts.rejected_bind_getProp; [reflexivity|].
      apply rejected_bind_pure; [apply pure_validateString|reflexivity|intros _].
      apply rejected_bind_pure;
        [apply pure_when, pure_throw|reflexivity|intros _].
      rewrite (bind_known _ _ w w1 _ Ns), (bind_known _ _ w1 w2 _ Ne).
      apply rejected_bind_pure; [apply pure_validateString|exact Q2|intros _].
      apply rejected_bind_pure; [apply pure_validateString|exact Q2|intros _].
      apply rejected_bind_pure; [apply pure_validateString|exact Q2|intros _].
      apply rejected_bind_pure;
        [apply pure_validateEmailArray|exact Q2|intros _].
      rewrite G, bind_run. cbn [when throw].
      eexists. exists w2. split; [reflexivity|exact Q2]. }
    destruct R as (e & w' & E & T).
    rewrite (handleToolCall_of_error _ _ _ _ _ _ _ _ E).
    eexists. exists w'. split; [reflexivity|exact T].
  - intros A Is It Od Ol Oc Oe.
    rewrite (handleToolCall_of_newError h b p _ auth w w2
               "startDateTime must be before endDateTime"); [reflexivity|].
    unfold dispatch. cbn [name input String.eqb Ascii.eqb Bool.eqb].
    unfold createEventCase.
    destruct auth as [a|]; [|contradiction].
    rewrite (bind_known _ _ w w tt) by reflexivity.
    rewrite (bind_known _ _ w w (prop v "title"))
      by (unfold getProp; now rewrite Nn).
    rewrite (bind_known _ _ w w tt) by (apply okString_run; now right).
    rewrite It. rewrite (bind_known _ _ w w tt) by reflexivity.
    rewrite (bind_known _ _ w w1 _ Ns), (bind_known _ _ w1 w2 _ Ne).
    rewrite (bind_known _ _ w2 w2 tt) by now apply okString_run.
    rewrite (bind_known _ _ w2 w2 tt) by now apply okString_run.
    rewrite (bind_known _ _ w2 w2 tt) by now apply okString_run.
    rewrite (bind_known _ _ w2 w2 tt) by now apply okEmails_run.
    now rewrite G.
Qed.

Lemma create_event_rejects_unordered_times_witness :
  handleToolCall Examples.westHost (Examples.calendarOf []) Examples.presenter
    (mkToolCall "call_5" "create_event"
       (JObject [("title", JString "Review");
                 ("startDateTime", JString "2024-01-15T10:00:00-05:00");
                 ("endDateTime", JString "2024-01-15T15:00:00Z")]))
    Examples.user Examples.start
  = (inr (mkMessage "tool" "call_5"
            "Error executing create_event: startDateTime must be before endDateTime"),
     Examples.start).
Proof.
  refine (proj2 (create_event_rejects_unordered_times Examples.westHost
            (Examples.calendarOf []) Examples.presenter
            (mkToolCall "call_5" "create_event"
               (JObject [("title", JString "Review");
                         ("startDateTime", JString "2024-01-15T10:00:00-05:00");
                         ("endDateTime", JString "2024-01-15T15:00:00Z")]))
            Examples.user Examples.start Examples.start Examples.start
            1705330800000 1705330800000 eq_refl eq_refl eq_refl _ _ _)
            _ eq_refl eq_refl _ _ _ _);
    try (vm_compute; discriminate); try (left; reflexivity); discriminate.
Defined.

(** [checkForConflicts] and [findFreeTimeSlots] read the clock once and
    send exactly one list request, whatever the service answers: it asks
    for at most 100 single events ordered by start time between the two
    given bounds, on the given calendar, which is "primary" only when the
    calendar is undefined. *)
Theorem window_queries_send_one_list_request :
  forall (h : Host) (b : Backend) (s e : string) (minutes calendarId : JSVal)
         (w : World),
    snd (checkForConflicts h b s e calendarId w)
    = mkWorld (S (tick w))
        (trace w
         ++ [CallEventsList
               [("calendarId", defaulted calendarId (JString "primary"));
                ("maxResults", numZ 100);
                ("timeMin", JString s);
                ("singleEvents", JBool true);
                ("orderBy", JString "startTime");
                ("timeMax", JString e)]])
    /\ snd (findFreeTimeSlots h b s e minutes calendarId w)
       = snd (checkForConflicts h b s e calendarId w).
Proof.
  intros h b s e minutes calendarId w.
  assert (G : forall k : JSVal -> Eff JSVal,
             (forall x, pureEff (k x)) ->
             snd (bind (newDate h)
                    (fun now =>
                       bind (callService b
                               (CallEventsList
                                  (assign
                                     [("calendarId", JString "primary");
                                      ("maxResults", numZ 10);
                                      ("timeMin", JString (toISOString now));
                                      ("singleEvents", JBool true);
                                      ("orderBy", JString "startTime")]
                                     [("timeMin", JString s);
                                      ("timeMax", JString e);
                                      ("calendarId",
                                       defaulted calendarId (JString "primary"));
                                      ("maxResults", numZ 100)]))) k) w)
             = mkWorld (S (tick w))
                 (trace w
                  ++ [CallEventsList
                        [("calendarId",
                          defaulted calendarId (JString "primary"));
                         ("maxResults", numZ 100);
                         ("timeMin", JString s);
                         ("singleEvents", JBool true);
                         ("orderBy", JString "startTime");
                         ("timeMax", JString e)]])).
  { intros k P. unfold bind at 1. unfold newDate at 1.
    rewrite trace_pure_tail by exact P. reflexivity. }
  split.
  - unfold checkForConflicts.
    rewrite trace_pure_tail.
    + unfold getEventsInTimeRange. apply G. intros x. apply EmitFacts.pure_itemsOf.
    + intros x. apply pure_bind; [apply pure_asArray|].
      intros items. apply EmitFacts.pure_filterM.
      intros ev. apply EmitFacts.pure_conflictsWith.
  - unfold findFreeTimeSlots, checkForConflicts.
    rewrite !trace_pure_tail; [reflexivity| |].
    + intros x. apply pure_bind; [apply pure_asArray|].
      intros items. apply EmitFacts.pure_filterM.
      intros ev. apply EmitFacts.pure_conflictsWith.
    + intros x. apply pure_bind; [apply pure_asArray|].
      intros items. apply pure_bind;
        [apply EmitFacts.pure_filterM; intros ev; apply EmitFacts.pure_isTimed|].
      intros timed. apply pure_ret.
Qed.

(** [delete_event], for an authorised caller with an event id and a valid
    calendar id, sends exactly one delete request.  The request carries
    the calendar id as it was given, so [undefined] when it was left out
    (and not the default "primary"); the answer is "Event deleted
    successfully!" when the service accepts, and otherwise the text
    "Failed to delete event: " with the error as a string, whatever its
    HTTP status. *)
Theorem delete_event_sends_one_request :
  forall (h : Host) (b : Backend) (p : Presenter) (tc : ToolCall)
         (auth : option OAuth2Client) (w : World),
    name tc = "delete_event" -> auth <> None ->
    isString (prop (input tc) "eventId") = true ->
    truthy (prop (input tc) "eventId") = true ->
    okString (prop (input tc) "calendarId") ->
    handleToolCall h b p tc auth w
    = (inr (match service b
                    (CallEventsDelete
                       [("calendarId", prop (input tc) "calendarId");
                        ("sendNotifications", JBool true);
                        ("eventId", prop (input tc) "eventId")]) with
            | inr _ => mkMessage "tool" (id tc) "Event deleted successfully!"
            | inl e =>
                errorMessage tc ("Failed to delete event: " ++ errorToString e)
            end),
       mkWorld (tick w)
         (trace w
          ++ [CallEventsDelete
                [("calendarId", prop (input tc) "calendarId");
                 ("sendNotifications", JBool true);
                 ("eventId", prop (input tc) "eventId")]])).
Proof.
  intros h b p [i n v] auth w Hn A Is It Oc. cbn [name id input] in *. subst n.
  assert (Nn : nullish v = false) by (destruct v; try reflexivity; discriminate).
  destruct auth as [a|]; [|contradiction].
  assert (D : dispatch h b p (mkToolCall i "delete_event" v) (Some a) w
              = (match service b
                         (CallEventsDelete
                            [("calendarId", prop v "calendarId");
                             ("sendNotifications", JBool true);
                             ("eventId", prop v "eventId")]) with
                 | inr _ => inr "Event deleted successfully!"%string
                 | inl e =>
                     inl (newError ("Failed to delete event: "
                                    ++ errorToString e))
                 end,
                 mkWorld (tick w)
                   (trace w
                    ++ [CallEventsDelete
                          [("calendarId", prop v "calendarId");
                           ("sendNotifications", JBool true);
                           ("eventId", prop v "eventId")]]))).
  { unfold dispatch. cbn [name input String.eqb Ascii.eqb Bool.eqb].
    unfold deleteEventCase.
    rewrite (bind_known _ _ w w tt) by reflexivity.
    rewrite (bind_known _ _ w w (prop v "eventId"))
      by (unfold getProp; now rewrite Nn).
    rewrite (bind_known _ _ w w tt) by (apply okString_run; now right).
    rewrite It. rewrite (bind_known _ _ w w tt) by reflexivity.
    rewrite (bind_known _ _ w w tt) by now apply okString_run.
    unfold deleteEvent, tryCatch, bind, callService, assign. cbn.
    destruct (service b _); reflexivity. }
  destruct (service b _) as [e|x] eqn:S.
  - now apply handleToolCall_of_newError.
  - now apply handleToolCall_of_result.
Qed.

Lemma delete_event_sends_one_request_witness :
  handleToolCall Examples.utcHost (Examples.calendarOf []) Examples.presenter
    (mkToolCall "call_6" "delete_event"
       (JObject [("eventId", JString "event_1")]))
    Examples.user Examples.start
  = (inr (mkMessage "tool" "call_6" "Event deleted successfully!"),
     mkWorld 0
       [CallEventsDelete
          [("calendarId", JUndefined); ("sendNotifications", JBool true);
           ("eventId", JString "event_1")]]).
Proof.
  refine (delete_event_sends_one_request Examples.utcHost
            (Examples.calendarOf []) Examples.presenter
            (mkToolCall "call_6" "delete_event"
               (JObject [("eventId", JString "event_1")]))
            Examples.user Examples.start eq_refl _ eq_refl eq_refl _).
  - discriminate.
  - left. reflexivity.
Defined.

(** [findFreeTimeSlots] only looks at the events that have both a start
    time and an end time: the free slots are those that the sweep finds
    among these events, so an all-day event (a date without a time) never
    blocks a slot, and a calendar that holds only all-day events is as free
    as an empty calendar. *)
Theorem free_time_ignores_all_day_events :
  forall (h : Host) (b : Backend) (s e : string) (minutes calendarId : JSVal)
         (items : list JSVal) (w : World),
    (forall params,
        service b (CallEventsList params)
        = inr (JObject [("items", JArray items)])) ->
    Forall (fun ev => nullish ev = false) items ->
    fst (findFreeTimeSlots h b s e minutes calendarId w)
    = inr (map slotStrings
             (freeSlotsOf (parse h s) (parse h e) (slotDurationMs minutes)
                (map (busyOf h) (filter hasTimes items))))
    /\ (Forall (fun ev => hasTimes ev = false) items ->
        fst (findFreeTimeSlots h b s e minutes calendarId w)
        = inr (map slotStrings
                 (freeSlotsOf (parse h s) (parse h e) (slotDurationMs minutes)
                    []))).
Proof.
  intros h b s e minutes calendarId items w S N.
  assert (F : fst (findFreeTimeSlots h b s e minutes calendarId w)
              = inr (map slotStrings
                       (freeSlotsOf (parse h s) (parse h e)
                          (slotDurationMs minutes)
                          (map (busyOf h) (filter hasTimes items))))).
  { unfold findFreeTimeSlots, getEventsInTimeRange.
    unfold bind at 1 2. unfold newDate at 1.
    unfold bind at 1. unfold callService at 1. rewrite S.
    rewrite ConflictFacts.itemsOf_items.
    unfold bind at 1. cbn [asArray]. unfold ret at 1.
    unfold bind at 1. rewrite filterM_isTimed by exact N. reflexivity. }
  split; [exact F|]. intros A. rewrite F.
  replace (filter hasTimes items) with (@nil JSVal); [reflexivity|].
  clear -A. induction A as [|x l H _ IH]; [reflexivity|].
  cbn [filter]. now rewrite H.
Qed.

Lemma free_time_ignores_all_day_events_witness :
  fst (findFreeTimeSlots Examples.utcHost
         (Examples.calendarOf
            [JObject [("summary", JString "Offsite");
                      ("start", JObject [("date", JString "2024-01-15")]);
                      ("end", JObject [("date", JString "2024-01-16")])]])
         "2024-01-15T09:00:00.000Z" "2024-01-15T17:00:00.000Z" (numZ 60)
         JUndefined Examples.start)
  = inr [("2024-01-15T09:00:00.000Z", "2024-01-15T17:00:00.000Z")].
Proof.
  refine (proj2 (free_time_ignores_all_day_events Examples.utcHost
            (Examples.calendarOf
               [JObject [("summary", JString "Offsite");
                         ("start", JObject [("date", JString "2024-01-15")]);
                         ("end", JObject [("date", JString "2024-01-16")])]])
            "2024-01-15T09:00:00.000Z" "2024-01-15T17:00:00.000Z" (numZ 60)
            JUndefined _ Examples.start _ _) _).
  - reflexivity.
  - repeat constructor.
  - repeat constructor.
Defined.

(** [update_event] with no new times and no attendees sends exactly one
    update request, always to the calendar "primary": its body holds the
    title (as [summary]), the description and the location that were
    supplied with a non-empty value, in this order, and nothing else, so an
    empty string cannot clear a field. *)
Theorem update_event_sends_supplied_text_fields :
  forall (h : Host) (b : Backend) (p : Presenter) (tc : ToolCall)
         (auth : option OAuth2Client) (w : World),
    name tc = "update_event" -> auth <> None ->
    isString (prop (input tc) "eventId") = true ->
    truthy (prop (input tc) "eventId") = true ->
    okString (prop (input tc) "title") ->
    okString (prop (input tc) "description") ->
    okString (prop (input tc) "location") ->
    truthy (prop (input tc) "startDateTime") = false ->
    truthy (prop (input tc) "endDateTime") = false ->
    nullish (prop (input tc) "attendees") = true ->
    snd (handleToolCall h b p tc auth w)
    = mkWorld (tick w)
        (trace w
         ++ [CallEventsUpdate
               [("calendarId", JString "primary");
                ("sendNotifications", JBool true);
                ("sendUpdates", JString "all");
                ("eventId", prop (input tc) "eventId");
                ("requestBody",
                 JObject
                   (supplied
                      [("summary", prop (input tc) "title");
                       ("description", prop (input tc) "description");
                       ("location", prop (input tc) "location")]))]]).
Proof.
  intros h b p [i n v] auth w Hn A Is It Ot Od Ol Fs Fe Na.
  cbn [name id input] in *. subst n.
  assert (Nn : nullish v = false) by (destruct v; try reflexivity; discriminate).
  destruct auth as [a|]; [|contradiction].
  rewrite snd_handleToolCall.
  unfold dispatch. cbn [name input String.eqb Ascii.eqb Bool.eqb].
  unfold updateEventCase.
  rewrite !EmitFacts.lookup_updateData by (reflexivity || discriminate).
  rewrite (bind_known _ _ w w tt) by reflexivity.
  rewrite (bind_known _ _ w w (prop v "eventId"))
    by (unfold getProp; now rewrite Nn).
  rewrite (bind_known _ _ w w tt) by (apply okString_run; now right).
  rewrite It. rewrite (bind_known _ _ w w tt) by reflexivity.
  rewrite Fs, Fe, (nullish_falsy _ Na).
  rewrite (bind_known _ _ w w None) by reflexivity.
  rewrite (bind_known _ _ w w None) by reflexivity.
  rewrite (bind_known _ _ w w tt) by now apply okString_run.
  rewrite (bind_known _ _ w w tt) by now apply okString_run.
  rewrite (bind_known _ _ w w tt) by now apply okString_run.
  rewrite (bind_known _ _ w w tt) by (apply okEmails_run; now left).
  rewrite (bind_known _ _ w w tt) by reflexivity.
  unfold supplied. cbn [filter snd].
  destruct (truthy (prop v "title")), (truthy (prop v "description")),
    (truthy (prop v "location"));
    cbn [setWhen];
    repeat (rewrite bind_ret_l; cbv beta);
    (rewrite trace_pure_tail
       by (intros x; cbv beta; apply pure_bind;
           [apply EmitFacts.pure_formatSingleCalendarEvent
           |intros y; apply pure_ret]));
    unfold updateEvent, tryCatch, callService, assign; cbn;
    destruct (service b _); reflexivity.
Qed.

Lemma update_event_sends_supplied_text_fields_witness :
  snd (handleToolCall Examples.utcHost (Examples.calendarOf [])
         Examples.presenter
         (mkToolCall "call_8" "update_event"
            (JObject [("eventId", JString "event_1");
                      ("title", JString "Planning");
                      ("description", JString EmptyString);
                      ("calendarId", JString "team")]))
         Examples.user Examples.start)
  = mkWorld 0
      [CallEventsUpdate
         [("calendarId", JString "primary");
          ("sendNotifications", JBool true);
          ("sendUpdates", JString "all");
          ("eventId", JString "event_1");
          ("requestBody", JObject [("summary", JString "Planning")])]].
Proof.
  refine (update_event_sends_supplied_text_fields Examples.utcHost
            (Examples.calendarOf []) Examples.presenter
            (mkToolCall "call_8" "update_event"
               (JObject [("eventId", JString "event_1");
                         ("title", JString "Planning");
                         ("description", JString EmptyString);
                         ("calendarId", JString "team")]))
            Examples.user Examples.start eq_refl _ eq_refl eq_refl _ _ _
            eq_refl eq_refl eq_refl);
    try discriminate; try (right; reflexivity); left; reflexivity.
Defined.

(** [create_quick_event], for an authorised caller with a title and valid
    arguments, inserts exactly one event: it starts at the normalized start
    and ends [durationMinutes] minutes later (60 minutes when the duration
    is left out), both printed in UTC with the time zone of the host; the
    calendar id is passed as it was given. *)
Theorem create_quick_event_lasts_the_given_minutes :
  forall (h : Host) (b : Backend) (p : Presenter) (tc : ToolCall)
         (auth : option OAuth2Client) (w w1 : World) (t minutes : Z),
    name tc = "create_quick_event" -> auth <> None ->
    isString (prop (input tc) "title") = true ->
    truthy (prop (input tc) "title") = true ->
    normalizeDateTime h (prop (input tc) "startDateTime") "startDateTime" w
    = (inr (toISOString t), w1) ->
    Z.abs t <= maxTime ->
    (nullish (prop (input tc) "durationMinutes") = true /\ minutes = 60)
    \/ (prop (input tc) "durationMinutes" = numZ minutes /\ 1 <= minutes) ->
    Z.abs (t + minutes * 60000) <= maxTime ->
    okString (prop (input tc) "description") ->
    okString (prop (input tc) "location") ->
    okString (prop (input tc) "calendarId") ->
    okEmails (prop (input tc) "attendees") ->
    snd (handleToolCall h b p tc auth w)
    = mkWorld (tick w1)
        (trace w1
         ++ [CallEventsInsert
               [("calendarId", prop (input tc) "calendarId");
                ("sendNotifications", JBool true);
                ("sendUpdates", JString "all");
                ("requestBody",
                 JObject
                   [("summary", prop (input tc) "title");
                    ("description", prop (input tc) "description");
                    ("location", prop (input tc) "location");
                    ("start", googleDateTime (toISOString t) (timeZoneName h));
                    ("end",
                     googleDateTime (toISOString (t + minutes * 60000))
                       (timeZoneName h));
                    ("attendees",
                     attendeeList (prop (input tc) "attendees"))])]]).
Proof.
  intros h b p [i n v] auth w w1 t minutes Hn A Is It Ns Vt M Ve Od Ol Oc Oe.
  cbn [name id input] in *. subst n.
  pose proof (normalized_prop _ _ _ _ _ _ Ns) as Nn.
  destruct auth as [a|]; [|contradiction].
  assert (Oi : okInteger 1 (prop v "durationMinutes")).
  { destruct M as [(N & _)|(E & L)]; [now left|right; now exists minutes]. }
  assert (Q : match orElse (prop v "durationMinutes") (numZ 60) with
              | JNumber q => q
              | _ => inject_Z 60
              end = inject_Z minutes).
  { unfold orElse. destruct M as [(N & ->)|(E & L)].
    - now rewrite (nullish_falsy _ N).
    - rewrite E, truthy_numZ by lia. reflexivity. }
  rewrite snd_handleToolCall.
  unfold dispatch. cbn [name input String.eqb Ascii.eqb Bool.eqb].
  unfold createQuickEventCase.
  rewrite (bind_known _ _ w w tt) by reflexivity.
  rewrite (bind_known _ _ w w (prop v "title"))
    by (unfold getProp; now rewrite Nn).
  rewrite (bind_known _ _ w w tt) by (apply okString_run; now right).
  rewrite It. rewrite (bind_known _ _ w w tt) by reflexivity.
  rewrite (bind_known _ _ w w1 _ Ns).
  rewrite (bind_known _ _ w1 w1 tt) by now apply okInteger_run.
  rewrite (bind_known _ _ w1 w1 tt) by now apply okString_run.
  rewrite (bind_known _ _ w1 w1 tt) by now apply okString_run.
  rewrite (bind_known _ _ w1 w1 tt) by now apply okString_run.
  rewrite (bind_known _ _ w1 w1 tt) by now apply okEmails_run.
  rewrite Q.
  rewrite trace_pure_tail
    by (intros x; cbv beta; apply pure_bind;
        [apply EmitFacts.pure_formatSingleCalendarEvent
        |intros y; apply pure_ret]).
  unfold createQuickEvent.
  rewrite JSDateFacts.parse_toISOString by exact Vt.
  rewrite dateOfNumber_minutes, SweepFacts.TimeClip_valid by exact Ve.
  cbn [dateToISOString lookup String.eqb Ascii.eqb Bool.eqb].
  rewrite !bind_ret_l.
  rewrite (bind_known _ _ w1 w1 _ (attendeeObjects_run _ w1 Oe)).
  unfold createEvent, tryCatch, callService, assign. cbn.
  destruct (service b _); reflexivity.
Qed.

Lemma create_quick_event_lasts_the_given_minutes_witness :
  snd (handleToolCall Examples.utcHost (Examples.calendarOf [])
         Examples.presenter
         (mkToolCall "call_9" "create_quick_event"
            (JObject [("title", JString "Coffee");
                      ("startDateTime", JString "1/15/2024 2:00 PM");
                      ("attendees", JArray [JString "ana@example.com"])]))
         Examples.user Examples.start)
  = mkWorld 0
      [CallEventsInsert
         [("calendarId", JUndefined);
          ("sendNotifications", JBool true);
          ("sendUpdates", JString "all");
          ("requestBody",
           JObject
             [("summary", JString "Coffee");
              ("description", JUndefined);
              ("location", JUndefined);
              ("start", googleDateTime "2024-01-15T14:00:00.000Z" "UTC");
              ("end", googleDateTime "2024-01-15T15:00:00.000Z" "UTC");
              ("attendees",
               JArray [JObject [("email", JString "ana@example.com")]])])]].
Proof.
  refine (create_quick_event_lasts_the_given_minutes Examples.utcHost
            (Examples.calendarOf []) Examples.presenter
            (mkToolCall "call_9" "create_quick_event"
               (JObject [("title", JString "Coffee");
                         ("startDateTime", JString "1/15/2024 2:00 PM");
                         ("attendees", JArray [JString "ana@example.com"])]))
            Examples.user Examples.start Examples.start 1705327200000 60
            eq_refl _ eq_refl eq_refl eq_refl _ _ _ _ _ _ _);
    try discriminate; try (vm_compute; discriminate);
    try (left; split; reflexivity); try (left; reflexivity).
  right. exists [JString "ana@example.com"]. split; [reflexivity|].
  repeat constructor. exists "ana@example.com". split; reflexivity.
Defined.





End ToolExtras.

(** * The aggregator: text and reports *)

Module StreamFacts.
Import JS Tools Agent AgentSpec AgentFacts ExtraSpec.

Section Loop.

Variable jsonParse : string -> string + JSVal.

#[local] Abbreviation finalize := (Agent.finalize jsonParse).
#[local] Abbreviation stepDelta := (Agent.stepDelta jsonParse).
#[local] Abbreviation stepChunk := (Agent.stepChunk jsonParse).
#[local] Abbreviation finalizeLast := (Agent.finalizeLast jsonParse).

(** *** The reports, as the runs that do not parse *)

Lemma stepDelta_reports (st : State) (d : ToolCallDelta) (rest : list Pending) :
  errors (stepDelta st d)
  ++ flat_map (reported jsonParse)
       (groupRuns (pendingList (stepDelta st d) ++ rest))
  = errors st
    ++ flat_map (reported jsonParse)
         (groupRuns (pendingList st ++ fragment d ++ rest)).
Proof.
  unfold Agent.stepDelta, fragment, pendingList.
  destruct (index d) as [i|]; [|reflexivity].
  destruct (currentToolCall st) as [c|] eqn:C; [|reflexivity].
  destruct (i =? pending_index c) eqn:E; cbn [negb].
  - apply Z.eqb_eq in E. cbn [setCurrent currentToolCall errors app].
    rewrite groupRuns_same by (simpl; congruence). reflexivity.
  - apply Z.eqb_neq in E. cbn [setCurrent currentToolCall errors app].
    rewrite errors_finalize.
    rewrite groupRuns_other by (simpl; congruence).
    cbn [flat_map]. now rewrite <- app_assoc.
Qed.

Lemma fold_stepDelta_reports (deltas : list ToolCallDelta) :
  forall (st : State) (rest : list Pending),
  errors (fold_left stepDelta deltas st)
  ++ flat_map (reported jsonParse)
       (groupRuns (pendingList (fold_left stepDelta deltas st) ++ rest))
  = errors st
    ++ flat_map (reported jsonParse)
         (groupRuns (pendingList st ++ flat_map fragment deltas ++ rest)).
Proof.
  induction deltas as [|d ds IH]; intros st rest; [reflexivity|].
  cbn [fold_left flat_map]. rewrite IH, stepDelta_reports.
  now rewrite <- app_assoc.
Qed.

Lemma stepChunk_reports (st : State) (chunk : Chunk) (rest : list Pending) :
  errors (stepChunk st chunk)
  ++ flat_map (reported jsonParse)
       (groupRuns (pendingList (stepChunk st chunk) ++ rest))
  = errors st
    ++ flat_map (reported jsonParse)
         (groupRuns (pendingList st ++ chunkFragments chunk ++ rest)).
Proof.
  unfold Agent.stepChunk, chunkFragments.
  destruct (stepContent_calls st (delta_content chunk))
    as (_ & C & T).
  destruct (delta_tool_calls chunk) as [ds|].
  - rewrite fold_stepDelta_reports. unfold pendingList. now rewrite T, C.
  - unfold pendingList. now rewrite T, C.
Qed.

Lemma fold_stepChunk_reports (chunks : list Chunk) :
  forall (st : State) (rest : list Pending),
  errors (fold_left stepChunk chunks st)
  ++ flat_map (reported jsonParse)
       (groupRuns (pendingList (fold_left stepChunk chunks st) ++ rest))
  = errors st
    ++ flat_map (reported jsonParse)
         (groupRuns (pendingList st ++ flat_map chunkFragments chunks ++ rest)).
Proof.
  induction chunks as [|c cs IH]; intros st rest; [reflexivity|].
  cbn [fold_left flat_map]. rewrite IH, stepChunk_reports.
  now rewrite <- app_assoc.
Qed.

Lemma call_reports (stream : list Chunk) :
  errors (call jsonParse stream)
  = flat_map (reported jsonParse) (groupRuns (fragments stream)).
Proof.
  unfold call. rewrite errors_finalizeLast, consume_fold.
  pose proof (fold_stepChunk_reports (consumed stream) initial []) as H.
  rewrite !app_nil_r in H.
  change (pendingList initial) with (@nil Pending) in H.
  change (errors initial) with (@nil string) in H. cbn [app] in H.
  unfold fragments. rewrite <- H.
  f_equal. unfold pendingList.
  destruct (currentToolCall _); reflexivity.
Qed.

(** Each run is either a request or a report. *)
Lemma run_accounted (c : Pending) :
  (List.length (completed jsonParse c)
   + List.length (reported jsonParse c) = 1)%nat.
Proof.
  unfold completed, reported.
  destruct (jsonParse (pending_arguments c)); reflexivity.
Qed.

(** *** The text *)

Lemma streamed_finalize (c : Pending) (st : State) :
  streamed (finalize c st) = streamed st.
Proof.
  unfold Agent.finalize. now destruct (jsonParse (pending_arguments c)).
Qed.

Lemma text_stepDelta (st : State) (d : ToolCallDelta) :
  outputText (stepDelta st d) = outputText st
  /\ streamed (stepDelta st d) = streamed st.
Proof.
  unfold Agent.stepDelta. destruct (index d) as [i|]; [|easy].
  destruct (currentToolCall st) as [c|]; [|easy].
  destruct (negb (i =? pending_index c)); cbn [setCurrent outputText streamed];
    [|easy].
  now rewrite outputText_finalize, streamed_finalize.
Qed.

Lemma text_fold_stepDelta (ds : list ToolCallDelta) :
  forall st, outputText (fold_left stepDelta ds st) = outputText st
             /\ streamed (fold_left stepDelta ds st) = streamed st.
Proof.
  induction ds as [|d ds IH]; intros st; [easy|].
  cbn [fold_left]. destruct (IH (stepDelta st d)) as (-> & ->).
  apply text_stepDelta.
Qed.

Lemma text_stepChunk (st : State) (chunk : Chunk) :
  outputText (stepChunk st chunk)
  = (outputText st ++ joinText (chunkText chunk))%string
  /\ streamed (stepChunk st chunk) = streamed st ++ chunkText chunk.
Proof.
  unfold Agent.stepChunk, chunkText.
  assert (S : outputText (stepContent st (delta_content chunk))
              = (outputText st
                 ++ joinText
                      match delta_content chunk with
                      | Some text =>
                          if String.eqb text EmptyString then [] else [text]
                      | None => []
                      end)%string
              /\ streamed (stepContent st (delta_content chunk))
                 = streamed st
                   ++ match delta_content chunk with
                      | Some text =>
                          if String.eqb text EmptyString then [] else [text]
                      | None => []
                      end).
  { unfold stepContent. destruct (delta_content chunk) as [t|].
    - destruct (String.eqb t EmptyString); cbn [outputText streamed joinText
                                                 fold_right];
        now rewrite ?string_app_nil_r, ?app_nil_r.
    - cbn [joinText fold_right]. now rewrite string_app_nil_r, app_nil_r. }
  destruct S as (S1 & S2).
  destruct (delta_tool_calls chunk) as [ds|]; [|easy].
  destruct (text_fold_stepDelta ds (stepContent st (delta_content chunk)))
    as (-> & ->).
  easy.
Qed.

Lemma joinText_app (a b : list string) :
  joinText (a ++ b) = (joinText a ++ joinText b)%string.
Proof.
  induction a as [|x a IH]; [reflexivity|].
  cbn [app joinText fold_right]. fold (joinText (a ++ b)). rewrite IH.
  now rewrite string_app_assoc.
Qed.

Lemma text_fold_stepChunk (chunks : list Chunk) :
  forall st,
  outputText (fold_left stepChunk chunks st)
  = (outputText st ++ joinText (flat_map chunkText chunks))%string
  /\ streamed (fold_left stepChunk chunks st)
     = streamed st ++ flat_map chunkText chunks.
Proof.
  induction chunks as [|c cs IH]; intros st.
  - cbn [fold_left flat_map joinText fold_right].
    now rewrite string_app_nil_r, app_nil_r.
  - cbn [fold_left flat_map]. destruct (IH (stepChunk st c)) as (-> & ->).
    destruct (text_stepChunk st c) as (-> & ->).
    now rewrite joinText_app, string_app_assoc, <- app_assoc.
Qed.

End Loop.

End StreamFacts.

Section StreamExtras.
Import JS Tools Agent AgentSpec AgentFacts ExtraSpec StreamFacts.

(** Every run of fragments is accounted for: the reports of [LLM.call] are,
    in order, those of the runs whose joined argument text does not parse,
    so the requests and the reports together are as many as the runs; no
    call is dropped without a report. *)
Theorem every_run_is_completed_or_reported :
  forall (jsonParse : string -> string + JSVal) (stream : list Chunk),
    errors (call jsonParse stream)
    = flat_map (reported jsonParse) (groupRuns (fragments stream))
    /\ (List.length (toolCalls (call jsonParse stream))
        + List.length (errors (call jsonParse stream))
        = List.length (groupRuns (fragments stream)))%nat.
Proof.
  intros jsonParse stream. split; [apply call_reports|].
  rewrite call_reports, call_requests. unfold requests.
  induction (groupRuns (fragments stream)) as [|c runs IH]; [reflexivity|].
  cbn [flat_map List.length]. rewrite !length_app.
  pose proof (run_accounted jsonParse c). lia.
Qed.

(** The text of a turn is the text of the chunks that were read, in order:
    [outputText] is the concatenation of the pieces that were shown as they
    arrived, whatever fragments of tool calls came between them, and
    nothing after the chunk that ends the stream is part of it. *)
Theorem output_text_is_the_streamed_text :
  forall (jsonParse : string -> string + JSVal) (stream : list Chunk),
    streamed (call jsonParse stream) = flat_map chunkText (consumed stream)
    /\ outputText (call jsonParse stream)
       = joinText (streamed (call jsonParse stream)).
Proof.
  intros jsonParse stream.
  assert (F : forall st, streamed (finalizeLast jsonParse st) = streamed st).
  { intros st. unfold finalizeLast.
    destruct (currentToolCall st); [apply streamed_finalize|reflexivity]. }
  unfold call. rewrite F, outputText_finalizeLast, consume_fold.
  destruct (text_fold_stepChunk jsonParse (consumed stream) initial)
    as (-> & ->).
  split; reflexivity.
Qed.

End StreamExtras.
